(** * Message normalization and threading: a shallow embedding

    The development follows three scripts of the archive pipeline:

    - [scripts/extract_from_rawemail_only.py]: timestamp resolution, HTML
      stripping, the e-mail body resolver and the record loop that writes the
      canonical corpus and its year partitions (module [Extract]);
    - [scripts/generate_browse_pages.py]: id normalization, thread keys, the
      per-thread sort, chronological and in-thread navigation and the
      whole-string base64 heuristic of the renderer (module [Browse]); the
      year and author groupings, author names, slugs and the picked text
      (module [Pages]); the MIME-part decoder (module [Mime]);
    - [scripts/build_lunr_single.py]: the projection of the corpus to
      site/docs.json (module [Lunr]).

    Python values are JSON values ([Py.pyval]); a Python [str] is a Rocq
    [string] read one character per code point (code points below 256).  A
    dict is an association list in insertion order.  Code that can raise
    returns a [Py.result].  The built-ins the statements turn on ([str],
    [int], [strip], the [re] patterns, [utcfromtimestamp]) are written out;
    the library calls whose results the scripts only pass on (the MIME
    parser, [html.unescape], [datetime.fromisoformat], [hash],
    [base64.b64decode], [bytes.decode]) are fields of the classes
    [Extract.Lib], [Browse.Lib] and [Pages.Lib]. *)

From Stdlib Require Import ZArith List Bool Ascii String Lia DecimalString DecimalZ
  Permutation.
From stdpp Require Import gmap strings.

Import ListNotations.
Set Warnings "-register-all".
Open Scope string_scope.
Open Scope Z_scope.

(** ** Python values and built-ins *)
Module Py.

Inductive exn := TypeError | AttributeError.

Inductive result (A : Type) :=
| Ok (a : A)
| Raise (e : exn).
Arguments Ok {A} a.
Arguments Raise {A} e.

Definition rbind {A B} (r : result A) (f : A -> result B) : result B :=
  match r with Ok a => f a | Raise e => Raise e end.

Notation "'let!' x ':=' r 'in' k" := (rbind r (fun x => k))
  (at level 10, x pattern, r at level 100, k at level 200).

(** A JSON number with a fraction or an exponent, as the scripts observe
    one: through [bool], [int] and [str]. *)
Record pyfloat := {
  float_nonzero : bool;      (* bool(x) *)
  float_int : option Z;      (* int(x); None when it raises (nan, inf) *)
  float_str : string         (* str(x) *)
}.

Inductive pyval :=
| PNone
| PBool (b : bool)
| PInt (n : Z)
| PFloat (x : pyfloat)
| PStr (s : string)
| PList (l : list pyval)
| PDict (kvs : list (string * pyval)).

Definition pydict := list (string * pyval).

(** Characters used by name. *)
Definition LF : ascii := "010"%char.
Definition CR : ascii := "013"%char.
Definition TAB : ascii := "009"%char.
Definition DQUOTE : ascii := "034"%char.
Definition SQUOTE : ascii := "039"%char.
Definition BACKSLASH : ascii := "092"%char.

Definition str1 (c : ascii) : string := String c EmptyString.
Definition code (c : ascii) : N := N_of_ascii c.

(** [bool(v)]. *)
Definition truthy (v : pyval) : bool :=
  match v with
  | PNone => false
  | PBool b => b
  | PInt n => negb (n =? 0)
  | PFloat x => float_nonzero x
  | PStr s => negb (String.eqb s EmptyString)
  | PList l => match l with [] => false | _ => true end
  | PDict kvs => match kvs with [] => false | _ => true end
  end.

(** [a or b]. *)
Definition py_or (a b : pyval) : pyval := if truthy a then a else b.

(** [d[k]] when present. *)
Fixpoint lookup_key (d : pydict) (k : string) : option pyval :=
  match d with
  | [] => None
  | (k', v) :: d' => if String.eqb k' k then Some v else lookup_key d' k
  end.

(** [d.get(k)] and [d.get(k, dflt)]. *)
Definition get (d : pydict) (k : string) : pyval :=
  match lookup_key d k with Some v => v | None => PNone end.
Definition get_default (d : pydict) (k : string) (dflt : pyval) : pyval :=
  match lookup_key d k with Some v => v | None => dflt end.

(** [str.isspace] on one character (code points below 256). *)
Definition is_space (c : ascii) : bool :=
  let n := code c in
  ((9 <=? n) && (n <=? 13) || (28 <=? n) && (n <=? 32) || (n =? 133) || (n =? 160))%N.

(** Leading and trailing characters of a class removed. *)
Fixpoint lstrip_by (p : ascii -> bool) (s : string) : string :=
  match s with
  | String c s' => if p c then lstrip_by p s' else s
  | EmptyString => EmptyString
  end.

Fixpoint rstrip_by (p : ascii -> bool) (s : string) : string :=
  match s with
  | String c s' =>
      let r := rstrip_by p s' in
      if p c && String.eqb r EmptyString then EmptyString else String c r
  | EmptyString => EmptyString
  end.

(** [s.strip()]. *)
Definition strip (s : string) : string := rstrip_by is_space (lstrip_by is_space s).

(** [s.lower()] on code points below 256. *)
Definition lower_char (c : ascii) : ascii :=
  let n := code c in
  if ((65 <=? n) && (n <=? 90) || (192 <=? n) && (n <=? 222) && negb (n =? 215))%N
  then ascii_of_N (n + 32) else c.

Fixpoint lower (s : string) : string :=
  match s with
  | String c s' => String (lower_char c) (lower s')
  | EmptyString => EmptyString
  end.

Definition startswith (p s : string) : bool := String.prefix p s.

Fixpoint endswith (p s : string) : bool :=
  String.eqb p s ||
  match s with
  | String _ s' => endswith p s'
  | EmptyString => false
  end.

(** [s[1:-1]]. *)
Fixpoint drop_last (s : string) : string :=
  match s with
  | String c EmptyString => EmptyString
  | String c s' => String c (drop_last s')
  | EmptyString => EmptyString
  end.
Definition inner (s : string) : string :=
  match s with String _ s' => drop_last s' | EmptyString => EmptyString end.

(** [s[:n]]. *)
Fixpoint take (n : nat) (s : string) : string :=
  match n, s with
  | S n', String c s' => String c (take n' s')
  | _, _ => EmptyString
  end.

(** [s.replace(old, new)] for a non-empty [old]. *)
Fixpoint drop (n : nat) (s : string) : string :=
  match n, s with
  | S n', String _ s' => drop n' s'
  | _, _ => s
  end.

Fixpoint replace_skip (old new : string) (skip : nat) (s : string) : string :=
  match s with
  | EmptyString => EmptyString
  | String c s' =>
      match skip with
      | S k => replace_skip old new k s'
      | O =>
          if String.prefix old s
          then new ++ replace_skip old new (String.length old - 1) s'
          else String c (replace_skip old new O s')
      end
  end.
Definition replace (old new s : string) : string := replace_skip old new O s.

(** [sep.join(l)]. *)
Fixpoint join (sep : string) (l : list string) : string :=
  match l with
  | [] => EmptyString
  | [x] => x
  | x :: l' => x ++ sep ++ join sep l'
  end.

(** Decimal text of an integer, as [str(n)] prints it. *)
Definition str_of_Z (n : Z) : string := NilZero.string_of_int (Z.to_int n).

(** [repr] of a [str]: quote choice and escapes. *)
Fixpoint contains_char (c : ascii) (s : string) : bool :=
  match s with
  | String c' s' => Ascii.eqb c c' || contains_char c s'
  | EmptyString => false
  end.

Definition hex_digit (n : N) : ascii :=
  if (n <? 10)%N then ascii_of_N (48 + n) else ascii_of_N (87 + n).

Definition printable (c : ascii) : bool :=
  let n := code c in
  negb ((n <? 32) || (127 <=? n) && (n <=? 160) || (n =? 173))%N.

Definition repr_char (q c : ascii) : string :=
  if Ascii.eqb c BACKSLASH then String BACKSLASH (str1 BACKSLASH)
  else if Ascii.eqb c q then String BACKSLASH (str1 q)
  else if Ascii.eqb c TAB then String BACKSLASH "t"
  else if Ascii.eqb c LF then String BACKSLASH "n"
  else if Ascii.eqb c CR then String BACKSLASH "r"
  else if printable c then str1 c
  else String BACKSLASH (String "x" (String (hex_digit (code c / 16)) (str1 (hex_digit (code c mod 16))))).

Fixpoint repr_chars (q : ascii) (s : string) : string :=
  match s with
  | String c s' => repr_char q c ++ repr_chars q s'
  | EmptyString => EmptyString
  end.

Definition repr_str (s : string) : string :=
  let q := if contains_char SQUOTE s && negb (contains_char DQUOTE s) then DQUOTE else SQUOTE in
  String q (repr_chars q s ++ str1 q).

(** [repr(v)]. *)
Fixpoint repr (v : pyval) : string :=
  match v with
  | PNone => "None"
  | PBool true => "True"
  | PBool false => "False"
  | PInt n => str_of_Z n
  | PFloat x => float_str x
  | PStr s => repr_str s
  | PList l => "[" ++ join ", " (map repr l) ++ "]"
  | PDict kvs =>
      "{" ++ join ", " (map (fun kv => repr_str (fst kv) ++ ": " ++ repr (snd kv)) kvs) ++ "}"
  end.

(** [str(v)]. *)
Definition str (v : pyval) : string :=
  match v with
  | PStr s => s
  | _ => repr v
  end.

(** [int(v)]: [None] when Python raises. *)
Definition is_digit (c : ascii) : bool := let n := code c in ((48 <=? n) && (n <=? 57))%N.
Definition digit_val (c : ascii) : Z := Z.of_N (code c) - 48.

(** Digits with single underscores between them; [acc] is the value so far,
    [after_digit] tells whether the previous character was a digit. *)
Fixpoint int_digits (acc : Z) (after_digit : bool) (s : string) : option Z :=
  match s with
  | EmptyString => if after_digit then Some acc else None
  | String c s' =>
      if is_digit c then int_digits (10 * acc + digit_val c) true s'
      else if Ascii.eqb c "_" && after_digit
           then match s' with
                | String c' _ => if is_digit c' then int_digits acc false s' else None
                | EmptyString => None
                end
           else None
  end.

(** The whitespace [int] passes over at both ends of a text: of the
    characters below 128 only tab to carriage return and the space. *)
Definition is_int_space (c : ascii) : bool :=
  let n := code c in
  ((9 <=? n) && (n <=? 13) || (n =? 32) || (n =? 133) || (n =? 160))%N.

Definition int_of_str (s : string) : option Z :=
  match rstrip_by is_int_space (lstrip_by is_int_space s) with
  | String "-" s' => option_map Z.opp (int_digits 0 false s')
  | String "+" s' => int_digits 0 false s'
  | s' => int_digits 0 false s'
  end.

Definition int (v : pyval) : option Z :=
  match v with
  | PInt n => Some n
  | PBool b => Some (if b then 1 else 0)
  | PFloat x => float_int x
  | PStr s => int_of_str s
  | _ => None
  end.

End Py.

(** ** Regular expressions as the scripts use them

    A pattern is a term of [re]; quantifiers range over character classes,
    which is all the scripts' patterns need.  Matching follows Python's
    backtracking order: alternatives left to right, greedy quantifiers
    longest first, lazy ones shortest first. *)
Module Re.

Inductive re :=
| Chr (p : ascii -> bool)           (* one character of a class *)
| Lit (s : string)                  (* the characters of [s], in order *)
| LitI (s : string)                 (* the same, ignoring case *)
| Seq (r1 r2 : re)
| Alt (r1 r2 : re)                  (* r1|r2 *)
| Opt (r : re)                      (* r? *)
| Star (p : ascii -> bool)          (* [class]* *)
| StarLazy (p : ascii -> bool)      (* [class]*? *)
| Plus (p : ascii -> bool).         (* [class]+ *)

Notation "r1 ;; r2" := (Seq r1 r2) (at level 100, r2 at level 200).

(** Character classes. *)
Definition any : ascii -> bool := fun _ => true.
Definition ch (c : ascii) : ascii -> bool := fun x => Ascii.eqb x c.
Definition chI (c : ascii) : ascii -> bool := fun x => Ascii.eqb (Py.lower_char x) (Py.lower_char c).
Definition none_of (cs : list ascii) : ascii -> bool :=
  fun x => negb (existsb (Ascii.eqb x) cs).
Definition one_of (cs : list ascii) : ascii -> bool :=
  fun x => existsb (Ascii.eqb x) cs.

Fixpoint lit (eqc : ascii -> ascii -> bool) (p s : string) : option string :=
  match p with
  | EmptyString => Some s
  | String a p' =>
      match s with
      | String b s' => if eqc a b then lit eqc p' s' else None
      | EmptyString => None
      end
  end.

Definition eqI (a b : ascii) : bool := Ascii.eqb (Py.lower_char a) (Py.lower_char b).

(** [run r k s]: match [r] at the start of [s], then hand the rest to the
    continuation [k]; the first success in backtracking order wins. *)
Fixpoint run (r : re) (k : string -> option string) (s : string) : option string :=
  match r with
  | Chr p =>
      match s with
      | String c s' => if p c then k s' else None
      | EmptyString => None
      end
  | Lit l => match lit Ascii.eqb l s with Some s' => k s' | None => None end
  | LitI l => match lit eqI l s with Some s' => k s' | None => None end
  | Seq r1 r2 => run r1 (run r2 k) s
  | Alt r1 r2 => match run r1 k s with Some x => Some x | None => run r2 k s end
  | Opt r1 => match run r1 k s with Some x => Some x | None => k s end
  | Star p =>
      (fix go (s : string) : option string :=
         match s with
         | String c s' =>
             if p c then match go s' with Some x => Some x | None => k s end else k s
         | EmptyString => k s
         end) s
  | StarLazy p =>
      (fix go (s : string) : option string :=
         match k s with
         | Some x => Some x
         | None =>
             match s with
             | String c s' => if p c then go s' else None
             | EmptyString => None
             end
         end) s
  | Plus p =>
      match s with
      | String c s' =>
          if p c then
            (fix go (s : string) : option string :=
               match s with
               | String c s' =>
                   if p c then match go s' with Some x => Some x | None => k s end else k s
               | EmptyString => k s
               end) s'
          else None
      | EmptyString => None
      end
  end.

(** Length of the match of [r] at the start of [s], if there is one. *)
Definition match_len (r : re) (s : string) : option nat :=
  match run r Some s with
  | Some rest => Some (String.length s - String.length rest)%nat
  | None => None
  end.

(** [re.sub(r, repl, s)]: leftmost non-overlapping matches, left to right;
    [skip] counts the characters of the current match still to pass. *)
Fixpoint sub_skip (r : re) (repl : string) (skip : nat) (s : string) : string :=
  match s with
  | EmptyString =>
      match skip, match_len r EmptyString with
      | O, Some _ => repl
      | _, _ => EmptyString
      end
  | String c s' =>
      match skip with
      | S k => sub_skip r repl k s'
      | O =>
          match match_len r s with
          | Some (S n) => repl ++ sub_skip r repl n s'
          | Some O => repl ++ String c (sub_skip r repl O s')
          | None => String c (sub_skip r repl O s')
          end
      end
  end.
Definition sub (r : re) (repl s : string) : string := sub_skip r repl O s.

(** [re.findall(r, s)] for a pattern without groups. *)
Fixpoint findall_skip (r : re) (skip : nat) (s : string) : list string :=
  match s with
  | EmptyString =>
      match skip, match_len r EmptyString with
      | O, Some _ => [EmptyString]
      | _, _ => []
      end
  | String c s' =>
      match skip with
      | S k => findall_skip r k s'
      | O =>
          match match_len r s with
          | Some (S n) => Py.take (S n) s :: findall_skip r n s'
          | Some O => EmptyString :: findall_skip r O s'
          | None => findall_skip r O s'
          end
      end
  end.
Definition findall (r : re) (s : string) : list string := findall_skip r O s.

(** [re.search(r, s) is not None]. *)
Fixpoint search (r : re) (s : string) : bool :=
  match match_len r s with
  | Some _ => true
  | None => match s with String _ s' => search r s' | EmptyString => false end
  end.

End Re.

(** ** scripts/extract_from_rawemail_only.py *)
Module Extract.
Import Py Re.

(** *** [datetime.datetime.utcfromtimestamp], [isoformat], [year]

    The proleptic Gregorian calendar of the [datetime] module: day ordinal 1
    is 0001-01-01, and 1970-01-01 is ordinal 719163. *)
Definition DI400Y : Z := 146097.
Definition DI100Y : Z := 36524.
Definition DI4Y : Z := 1461.

Definition days_before_month (m : Z) : Z :=
  nth (Z.to_nat m) [0; 0; 31; 59; 90; 120; 151; 181; 212; 243; 273; 304; 334] 0.
Definition days_in_month (m : Z) : Z :=
  nth (Z.to_nat m) [0; 31; 28; 31; 30; 31; 30; 31; 31; 30; 31; 30; 31] 0.

(** [_ord2ymd]: ordinal to (year, month, day). *)
Definition ord2ymd (ordinal : Z) : Z * Z * Z :=
  let n := ordinal - 1 in
  let n400 := n / DI400Y in
  let n := n mod DI400Y in
  let n100 := n / DI100Y in
  let n := n mod DI100Y in
  let n4 := n / DI4Y in
  let n := n mod DI4Y in
  let n1 := n / 365 in
  let n := n mod 365 in
  let year := n400 * 400 + 1 + n100 * 100 + n4 * 4 + n1 in
  if (n1 =? 4) || (n100 =? 4) then (year - 1, 12, 31)
  else
    let leapyear := (n1 =? 3) && (negb (n4 =? 24) || (n100 =? 3)) in
    let month := Z.shiftr (n + 50) 5 in
    let preceding :=
      days_before_month month + (if (2 <? month) && leapyear then 1 else 0) in
    if n <? preceding
    then
      let month := month - 1 in
      let preceding :=
        preceding - (days_in_month month + (if (month =? 2) && leapyear then 1 else 0)) in
      (year, month, n - preceding + 1)
    else (year, month, n - preceding + 1).

Record datetime := {
  dt_year : Z; dt_month : Z; dt_day : Z;
  dt_hour : Z; dt_minute : Z; dt_second : Z
}.

Definition MINORDINAL : Z := 1.
Definition MAXORDINAL : Z := 3652059.

(** [utcfromtimestamp(v)] for an integer [v]; [None] when the instant is
    outside years 1..9999 and Python raises. *)
Definition utcfromtimestamp (v : Z) : option datetime :=
  let days := v / 86400 in
  let secs := v mod 86400 in
  let ordinal := days + 719163 in
  if (MINORDINAL <=? ordinal) && (ordinal <=? MAXORDINAL) then
    let '(y, m, d) := ord2ymd ordinal in
    Some {| dt_year := y; dt_month := m; dt_day := d;
            dt_hour := secs / 3600; dt_minute := (secs mod 3600) / 60;
            dt_second := secs mod 60 |}
  else None.

(** [%0wd] for a non-negative number. *)
Fixpoint zeros (n : nat) : string :=
  match n with O => EmptyString | S n' => String "0" (zeros n') end.
Definition pad (w : nat) (n : Z) : string :=
  let s := str_of_Z n in zeros (w - String.length s) ++ s.

(** [dt.isoformat()] with no microseconds. *)
Definition isoformat (dt : datetime) : string :=
  pad 4 (dt_year dt) ++ "-" ++ pad 2 (dt_month dt) ++ "-" ++ pad 2 (dt_day dt) ++ "T" ++
  pad 2 (dt_hour dt) ++ ":" ++ pad 2 (dt_minute dt) ++ ":" ++ pad 2 (dt_second dt).

(** [to_iso_and_year(ts)]: every exception of [int] and of
    [utcfromtimestamp] is caught and gives [(None, None)]. *)
Definition to_iso_and_year (ts : pyval) : option string * option Z :=
  match int ts with
  | Some v =>
      match utcfromtimestamp v with
      | Some dt => (Some (isoformat dt ++ "Z"), Some (dt_year dt))
      | None => (None, None)
      end
  | None => (None, None)
  end.

(** *** [strip_html]

    The six patterns, character for character as the script writes them:
    its raw strings double the backslashes, so [\\s], [\\1], [\\t] stand for a
    backslash followed by a letter or digit. *)

(** r"(?is)<(script|style)[^>]*>.*?</\\1>" *)
Definition re_script : re :=
  Lit "<" ;; Alt (LitI "script") (LitI "style") ;; Star (none_of [">"%char]) ;; Lit ">" ;;
  StarLazy any ;; Lit "</" ;; Chr (ch BACKSLASH) ;; Lit "1>".

(** r"(?i)<\\s*br\\s*/?\\s*>" *)
Definition re_br : re :=
  Lit "<" ;; Chr (ch BACKSLASH) ;; Star (chI "s") ;; LitI "br" ;;
  Chr (ch BACKSLASH) ;; Star (chI "s") ;; Opt (Lit "/") ;;
  Chr (ch BACKSLASH) ;; Star (chI "s") ;; Lit ">".

(** r"(?i)</\\s*p\\s*>" *)
Definition re_p_close : re :=
  Lit "</" ;; Chr (ch BACKSLASH) ;; Star (chI "s") ;; LitI "p" ;;
  Chr (ch BACKSLASH) ;; Star (chI "s") ;; Lit ">".

(** r"<[^>]+>" *)
Definition re_tag : re := Lit "<" ;; Plus (none_of [">"%char]) ;; Lit ">".

(** r"[ \\t\\r\\f\\v]+" *)
Definition re_hspace : re :=
  Plus (one_of [" "%char; BACKSLASH; "t"%char; "r"%char; "f"%char; "v"%char]).

(** r"\n\\s*\n\\s*\n+" *)
Definition re_blank : re :=
  Chr (ch LF) ;; Chr (ch BACKSLASH) ;; Star (ch "s") ;;
  Chr (ch LF) ;; Chr (ch BACKSLASH) ;; Star (ch "s") ;; Plus (ch LF).

(** *** The parsed e-mail, as the script observes it *)

(** What [get_content()] returned. *)
Inductive content :=
| Text (s : string)
| Bytes (b : string).

Record part := {
  content_type : string;          (* part.get_content_type() *)
  get_content : option content;   (* None: get_content() raised *)
  payload_text : string           (* (get_payload(decode=True) or b"").decode("utf-8", "ignore") *)
}.

Inductive message :=
| Single (p : part)               (* not is_multipart() *)
| Multipart (walk : list part).   (* is_multipart(): the parts of msg.walk(), in order *)

(** The library calls of this script. *)
Class Lib := {
  (** html.unescape *)
  html_unescape : string -> string;
  (** BytesParser(policy=policy.default).parsebytes(raw.encode("utf-8", "ignore"));
      [None] when it raises *)
  parsebytes : string -> option message
}.

Section WithLib.
Context {L : Lib}.

(** Lines 23 to 29: the six substitutions and the final [strip]. *)
Definition strip_tags (s : string) : string :=
  let s := sub re_script "" s in
  let s := sub re_br (str1 LF) s in
  let s := sub re_p_close (str1 LF) s in
  let s := sub re_tag "" s in
  let s := sub re_hspace " " s in
  let s := sub re_blank (String LF (str1 LF)) s in
  strip s.

Definition strip_html_str (s : string) : string := strip_tags (html_unescape s).

(** [strip_html(s)]; on a non-empty [bytes] value [unescape] raises. *)
Definition strip_html (c : content) : result string :=
  match c with
  | Text s => if String.eqb s EmptyString then Ok EmptyString else Ok (strip_html_str s)
  | Bytes b => if String.eqb b EmptyString then Ok EmptyString else Raise TypeError
  end.

(** try: part.get_content()  except: the decoded payload. *)
Definition content_of (p : part) : content :=
  match get_content p with
  | Some c => c
  | None => Text (payload_text p)
  end.

Definition content_truthy (c : content) : bool :=
  match c with
  | Text s => negb (String.eqb s EmptyString)
  | Bytes b => negb (String.eqb b EmptyString)
  end.

(** The multipart branch: one pass over [msg.walk()]. *)
Fixpoint collect_walk (ps : list part) : result (list content) :=
  match ps with
  | [] => Ok []
  | p :: ps' =>
      let ctype := lower (content_type p) in
      if String.eqb ctype "text/plain" then
        let! rest := collect_walk ps' in Ok (content_of p :: rest)
      else if String.eqb ctype "text/html" then
        let! h := strip_html (content_of p) in
        let! rest := collect_walk ps' in Ok (Text h :: rest)
      else collect_walk ps'
  end.

(** The single-part branch. *)
Definition collect_single (p : part) : result (list content) :=
  let ctype := lower (content_type p) in
  let c := content_of p in
  if String.eqb ctype "text/plain" then Ok [c]
  else if String.eqb ctype "text/html" then
    let! h := strip_html c in Ok [Text h]
  else Ok [c].

Definition collect (m : message) : result (list content) :=
  match m with
  | Single p => collect_single p
  | Multipart ps => collect_walk ps
  end.

(** "\n".join(p for p in parts if p): a [bytes] item raises. *)
Fixpoint texts (cs : list content) : result (list string) :=
  match cs with
  | [] => Ok []
  | Text s :: cs' => let! r := texts cs' in Ok (s :: r)
  | Bytes _ :: _ => Raise TypeError
  end.

Definition normalize_newlines (raw : string) : string :=
  replace (String CR (str1 LF)) (str1 LF) raw.

(** The body of [email_to_text] after the parse. *)
Definition email_to_text_parsed (parsed : option message) (raw : string) : result string :=
  match parsed with
  | None => Ok (normalize_newlines raw)
  | Some msg =>
      let! parts := collect msg in
      let! ps := texts (List.filter content_truthy parts) in
      let text := strip (join (str1 LF) ps) in
      Ok (if String.eqb text EmptyString then normalize_newlines raw else text)
  end.

Definition email_to_text (raw : string) : result string :=
  email_to_text_parsed (parsebytes raw) raw.

(** *** The record loop *)

(** [walk(o)]: every dict of a JSON document, outermost first, values in
    insertion order. *)
Fixpoint walk (o : pyval) : list pydict :=
  match o with
  | PDict kvs =>
      kvs :: (fix values (l : list (string * pyval)) : list pydict :=
                match l with
                | [] => []
                | (_, v) :: l' => (walk v ++ values l')%list
                end) kvs
  | PList l =>
      (fix items (l : list pyval) : list pydict :=
         match l with
         | [] => []
         | v :: l' => (walk v ++ items l')%list
         end) l
  | _ => []
  end.

(** A canonical message: the dict written as one line of the corpus. *)
Record doc := {
  doc_id : string;
  doc_thread_id : string;
  doc_subject : string;
  doc_author : string;
  doc_timestamp : option string;
  doc_year : option Z;
  doc_index_text : string;
  doc_full_text : string
}.

(** The loop's variables: [seen], the lines written to out/messages.ndjson,
    [per_year] (a dict of lists, in insertion order) and [count]. *)
Record state := {
  seen : gset string;
  out : list doc;
  per_year : list (Z * list doc);
  count : nat
}.

Definition initial : state :=
  {| seen := ∅; out := []; per_year := []; count := O |}.

(** d.get("msgId") or d.get("messageId") or d.get("id") *)
Definition mid_of (d : pydict) : pyval :=
  py_or (py_or (get d "msgId") (get d "messageId")) (get d "id").

Definition is_none (v : pyval) : bool :=
  match v with PNone => true | _ => false end.

(** The guard [if mid is None or not raw: continue]. *)
Definition rejected (d : pydict) : bool :=
  is_none (mid_of d) || negb (truthy (get d "rawEmail")).

(** The identifier of a record the guard lets through. *)
Definition record_id (d : pydict) : option string :=
  if rejected d then None else Some (str (mid_of d)).

(** [(v or "").strip()]: a truthy value that is no [str] has no [strip]. *)
Definition stripped (v : pyval) : result string :=
  match py_or v (PStr EmptyString) with
  | PStr s => Ok (strip s)
  | _ => Raise AttributeError
  end.

(** d.get("postDate") or d.get("lastPosted") or d.get("date") *)
Definition date_of (d : pydict) : pyval :=
  py_or (py_or (get d "postDate") (get d "lastPosted")) (get d "date").

(** [email_to_text(raw)] for the value found under rawEmail: [raw.encode]
    exists on a [str] only. *)
Definition email_to_text_val (raw : pyval) : result string :=
  match raw with
  | PStr s => email_to_text s
  | _ => Raise AttributeError
  end.

(** Lines 106 to 125: the fields of the message built from record [d]. *)
Definition build (mid : string) (d : pydict) : result doc :=
  let! subject := stripped (get d "subject") in
  let! author :=
    stripped (py_or (py_or (py_or (get d "authorName") (get d "author"))
                           (get d "yahooAlias")) (get d "from")) in
  let '(ts_iso, year) := to_iso_and_year (date_of d) in
  let thread := py_or (py_or (get d "topicFirstRecord") (get d "topicId")) (PStr mid) in
  let! full_text := email_to_text_val (get d "rawEmail") in
  Ok {| doc_id := mid; doc_thread_id := str thread; doc_subject := subject;
        doc_author := author; doc_timestamp := ts_iso; doc_year := year;
        doc_index_text := take 1000 full_text; doc_full_text := full_text |}.

(** per_year.setdefault(year, []).append(line) *)
Fixpoint per_year_add (y : Z) (m : doc) (py : list (Z * list doc)) : list (Z * list doc) :=
  match py with
  | [] => [(y, [m])]
  | (y', ms) :: py' =>
      if y' =? y then (y', (ms ++ [m])%list) :: py' else (y', ms) :: per_year_add y m py'
  end.

(** One turn of the loop over [walk(data)]. *)
Definition step (st : state) (d : pydict) : result state :=
  if rejected d then Ok st
  else
    let mid := str (mid_of d) in
    if decide (mid ∈ seen st) then Ok st
    else
      let! m := build mid d in
      Ok {| seen := {[mid]} ∪ seen st;
            out := (out st ++ [m])%list;
            per_year := match doc_year m with
                        | Some y => per_year_add y m (per_year st)
                        | None => per_year st
                        end;
            count := S (count st) |}.

(** The loop: it stops at the first record that raises, with what was
    written before it. *)
Fixpoint loop (st : state) (ds : list pydict) : state * option exn :=
  match ds with
  | [] => (st, None)
  | d :: ds' =>
      match step st d with
      | Ok st' => loop st' ds'
      | Raise e => (st, Some e)
      end
  end.

(** The files of a run: out/messages.ndjson, and out/by_year/<y>.ndjson for
    every key of [per_year], written after the loop has ended normally. *)
Record files := {
  messages_ndjson : list doc;
  by_year : list (Z * list doc)
}.

(** The script over the JSON documents of the archive's records. *)
Definition records (datas : list pyval) : list pydict := flat_map walk datas.

Definition main (datas : list pyval) : files * option exn :=
  match loop initial (records datas) with
  | (st, None) => ({| messages_ndjson := out st; by_year := per_year st |}, None)
  | (st, Some e) => ({| messages_ndjson := out st; by_year := [] |}, Some e)
  end.

End WithLib.
End Extract.

(** ** scripts/generate_browse_pages.py *)
Module Browse.
Import Py Re.

(** A [datetime] as far as ordering goes: whether it carries an offset, and
    its position on the time line (of UTC instants when it does, of wall
    clock readings when it does not). *)
Record pydatetime := {
  aware : bool;
  instant : Z
}.

(** The library calls of this script. *)
Class Lib := {
  (** hash((subject, date)) for a hashable subject *)
  py_hash : pyval -> string -> Z;
  (** datetime.fromisoformat; [None] when it raises *)
  fromisoformat : string -> option pydatetime;
  (** base64.b64decode(s, validate=True); [None] when it raises *)
  b64decode : string -> option string;
  (** raw.decode("utf-8"); [None] when it raises *)
  decode_utf8 : string -> option string
}.

Section WithLib.
Context {L : Lib}.

(** *** Identifiers *)

(** The shared body of [_norm_id], [_norm_msgid] and [compute_mid]:
    strip, then drop one pair of enclosing angle brackets. *)
Definition unbracket (s : string) : string :=
  let s := strip s in
  if startswith "<" s && endswith ">" s then strip (inner s) else s.

Definition _norm_msgid (v : pyval) : option string :=
  match v with
  | PNone => None
  | _ => Some (unbracket (str v))
  end.

Definition _norm_id (v : pyval) : option string := _norm_msgid v.

Definition hashable (v : pyval) : bool :=
  match v with PList _ | PDict _ => false | _ => true end.

(** [compute_mid(doc)]. *)
Definition compute_mid (doc : pydict) : result string :=
  match List.filter truthy (map (get doc) ["id"; "_id"; "message-id"; "message_id"; "msgid"; "mid"]) with
  | v :: _ => Ok (unbracket (str v))
  | [] =>
      let subject := get_default doc "subject" (PStr EmptyString) in
      let date := str (get_default doc "date" (PStr EmptyString)) in
      if hashable subject
      then Ok ("msg-" ++ str_of_Z (Z.abs (py_hash subject date)))
      else Raise TypeError
  end.

(** *** Thread keys *)

(** [\s] *)
Definition re_space : re := Plus is_space.

(** r"<[^>]+>|[^,\s]+" *)
Definition re_reference : re :=
  Alt (Lit "<" ;; Plus (none_of [">"%char]) ;; Lit ">")
      (Plus (fun c => negb (Ascii.eqb c ","%char) && negb (is_space c))).

(** [x and _norm_msgid(x)] as a condition, then [_norm_msgid(x)]. *)
Definition norm_item (x : pyval) : option string :=
  if truthy x then
    match _norm_msgid x with
    | Some s => if String.eqb s EmptyString then None else Some s
    | None => None
    end
  else None.

(** [_split_references(refs)]. *)
Definition _split_references (refs : pyval) : list string :=
  if truthy refs then
    let items :=
      match refs with
      | PList l => l
      | _ => map PStr (findall re_reference (str refs))
      end in
    omap norm_item items
  else [].

(** [x or None] for an optional string. *)
Definition or_none (o : option string) : option string :=
  match o with
  | Some s => if String.eqb s EmptyString then None else Some s
  | None => None
  end.

(** The values [_thread_key_from_doc] reads, by line:
    the truthy ones among thread-id, thread_id, thread;
    doc.get("references") or doc.get("References");
    doc.get("in-reply-to") or doc.get("in_reply_to") or doc.get("In-Reply-To");
    doc.get("message-id") or doc.get("message_id") or doc.get("msgid") or doc.get("id"). *)
Definition thread_fields (doc : pydict) : list pyval :=
  List.filter truthy (map (get doc) ["thread-id"; "thread_id"; "thread"]).
Definition references_of (doc : pydict) : pyval :=
  py_or (get doc "references") (get doc "References").
Definition in_reply_to (doc : pydict) : pyval :=
  py_or (py_or (get doc "in-reply-to") (get doc "in_reply_to")) (get doc "In-Reply-To").
Definition message_id (doc : pydict) : pyval :=
  py_or (py_or (py_or (get doc "message-id") (get doc "message_id")) (get doc "msgid"))
        (get doc "id").

(** [_thread_key_from_doc(doc)]; [None] is Python's [None]. *)
Definition _thread_key_from_doc (doc : pydict) : option string :=
  match thread_fields doc with
  | v :: _ => Some (str v)
  | [] =>
      let refs := references_of doc in
      match (if truthy refs then _split_references refs else []) with
      | r :: _ => Some r
      | [] =>
          let irt := in_reply_to doc in
          if truthy irt then or_none (_norm_msgid irt)
          else or_none (_norm_msgid (message_id doc))
      end
  end.

(** [tkey = _thread_key_from_doc(rd) or mid]. *)
Definition thread_key (mid : string) (rd : pydict) : string :=
  match or_none (_thread_key_from_doc rd) with
  | Some k => k
  | None => mid
  end.

(** *** The documents threads are computed from *)

(** [d[k] = v] and [d.update(nd)] on a dict in insertion order. *)
Fixpoint dict_set (d : pydict) (k : string) (v : pyval) : pydict :=
  match d with
  | [] => [(k, v)]
  | (k', v') :: d' =>
      if String.eqb k' k then (k, v) :: d' else (k', v') :: dict_set d' k v
  end.
Definition dict_update (d nd : pydict) : pydict :=
  fold_left (fun acc kv => dict_set acc (fst kv) (snd kv)) nd d.

(** The entry of the out/by_year index used for a document: the first
    candidate key that is non-empty and maps to a non-empty dict. *)
Fixpoint first_entry (index : gmap string pydict) (ks : list (option string)) : option pydict :=
  match ks with
  | [] => None
  | Some k :: ks' =>
      if String.eqb k EmptyString then first_entry index ks'
      else match index !! k with
           | Some (kv :: nd) => Some (kv :: nd)
           | _ => first_entry index ks'
           end
  | None :: ks' => first_entry index ks'
  end.

(** One element of [full_docs]. *)
Definition full_doc (index : gmap string pydict) (d : pydict) : result (string * pydict) :=
  let! mid := compute_mid d in
  let ks := [Some mid; _norm_msgid (get d "message-id"); _norm_msgid (get d "_id");
             Some (str (get d "id"))] in
  match first_entry index ks with
  | Some nd => Ok (mid, dict_update d nd)
  | None => Ok (mid, d)
  end.

Fixpoint full_docs (index : gmap string pydict) (docs : list pydict)
  : result (list (string * pydict)) :=
  match docs with
  | [] => Ok []
  | d :: docs' =>
      let! x := full_doc index d in
      let! rest := full_docs index docs' in
      Ok (x :: rest)
  end.

(** threads.setdefault(tkey, []).append((mid, rd)) *)
Definition item := (string * pydict)%type.
Fixpoint threads_add (tkey : string) (it : item) (ts : list (string * list item))
  : list (string * list item) :=
  match ts with
  | [] => [(tkey, [it])]
  | (k, its) :: ts' =>
      if String.eqb k tkey then (k, (its ++ [it])%list) :: ts'
      else (k, its) :: threads_add tkey it ts'
  end.

Definition group_threads (fd : list item) : list (string * list item) :=
  fold_left (fun ts it => threads_add (thread_key (fst it) (snd it)) it ts) fd [].

(** *** The sort of a thread *)

(** What [_date_sort_key] returns: a [datetime] or a [str]. *)
Inductive sort_key :=
| KDate (d : pydatetime)
| KStr (s : string).

Definition _date_sort_key (it : item) : sort_key :=
  match List.filter truthy
          (map (get (snd it)) ["date"; "datetime"; "timestamp"; "sent"; "created"; "time"]) with
  | v :: _ =>
      match fromisoformat (replace "Z" "+00:00" (str v)) with
      | Some d => KDate d
      | None => KStr (str v)
      end
  | [] => KStr EmptyString
  end.

(** [s < t] on strings: by code point, a proper prefix first. *)
Fixpoint str_lt (s t : string) : bool :=
  match s, t with
  | _, EmptyString => false
  | EmptyString, String _ _ => true
  | String a s', String b t' =>
      if (code a <? code b)%N then true
      else if (code b <? code a)%N then false
      else str_lt s' t'
  end.

(** [a < b] on sort keys: a [datetime] and a [str], or an aware and a naive
    [datetime], do not compare. *)
Definition key_lt (a b : sort_key) : result bool :=
  match a, b with
  | KDate x, KDate y =>
      if Bool.eqb (aware x) (aware y) then Ok (instant x <? instant y) else Raise TypeError
  | KStr s, KStr t => Ok (str_lt s t)
  | _, _ => Raise TypeError
  end.

(** [sorted(items, key=_date_sort_key)] as a stable insertion sort that uses
    [<] only.  Any sort has to compare an element with a neighbour, so it
    raises exactly when this one does; when no comparison raises, the stable
    order is unique. *)
Fixpoint insert_sorted (x : item) (l : list item) : result (list item) :=
  match l with
  | [] => Ok [x]
  | y :: l' =>
      let! lt := key_lt (_date_sort_key x) (_date_sort_key y) in
      if lt then Ok (x :: y :: l')
      else let! r := insert_sorted x l' in Ok (y :: r)
  end.

Definition sorted (l : list item) : result (list item) :=
  fold_left (fun acc x => let! a := acc in insert_sorted x a) l (Ok []).

(** *** In-thread navigation *)

Definition links := (option string * option string)%type.

(** The loop over [enumerate(items_sorted)]: [prev] is the id before. *)
Fixpoint thread_links (prev : option string) (mids : list string) : list (string * links) :=
  match mids with
  | [] => []
  | m :: mids' => (m, (prev, head mids')) :: thread_links (Some m) mids'
  end.

Definition record_links (pn : gmap string links) (l : list (string * links)) : gmap string links :=
  fold_left (fun acc e => <[fst e := snd e]> acc) l pn.

(** The loop over [threads.items()] that fills [prev_next_in_thread]. *)
Fixpoint link_threads (pn : gmap string links) (ts : list (string * list item))
  : result (gmap string links) :=
  match ts with
  | [] => Ok pn
  | (_, items) :: ts' =>
      let! items_sorted := sorted items in
      link_threads (record_links pn (thread_links None (map fst items_sorted))) ts'
  end.

(** [prev_next_in_thread] as [main] builds it from docs.json and the
    out/by_year index. *)
Definition prev_next_in_thread (index : gmap string pydict) (docs : list pydict)
  : result (gmap string links) :=
  let! fd := full_docs index docs in
  link_threads ∅ (group_threads fd).

Definition prev_in_thread (pn : gmap string links) (mid : string) : option string :=
  match pn !! mid with Some (p, _) => p | None => None end.
Definition next_in_thread (pn : gmap string links) (mid : string) : option string :=
  match pn !! mid with Some (_, n) => n | None => None end.

(** *** Chronological navigation *)

(** [ordered_mids = [compute_mid(d) for d in docs]]. *)
Fixpoint ordered_mids (docs : list pydict) : result (list string) :=
  match docs with
  | [] => Ok []
  | d :: docs' =>
      let! m := compute_mid d in
      let! rest := ordered_mids docs' in
      Ok (m :: rest)
  end.

(** [{m: i for i, m in enumerate(ordered_mids)}]: a later index replaces an
    earlier one. *)
Fixpoint index_from (i : nat) (mids : list string) (acc : gmap string nat) : gmap string nat :=
  match mids with
  | [] => acc
  | m :: mids' => index_from (S i) mids' (<[m := i]> acc)
  end.
Definition mid_to_index (mids : list string) : gmap string nat := index_from O mids ∅.

(** Lines 551 to 553. *)
Definition prev_mid (mids : list string) (mid : string) : option string :=
  match mid_to_index mids !! mid with
  | Some idx => if (0 <? idx)%nat then mids !! (idx - 1)%nat else None
  | None => None
  end.
Definition next_mid (mids : list string) (mid : string) : option string :=
  match mid_to_index mids !! mid with
  | Some idx => if (idx <? length mids - 1)%nat then mids !! (idx + 1)%nat else None
  | None => None
  end.

(** *** The whole-string base64 heuristic *)

(** r"[^A-Za-z0-9+/=]" *)
Definition b64_char (c : ascii) : bool :=
  let n := code c in
  ((65 <=? n) && (n <=? 90) || (97 <=? n) && (n <=? 122) || (48 <=? n) && (n <=? 57)
   || (n =? 43) || (n =? 47) || (n =? 61))%N.
Definition re_not_b64 : re := Chr (fun c => negb (b64_char c)).

(** raw.decode("utf-8"), else raw.decode("latin-1", errors="replace"):
    latin-1 maps every byte to the code point of the same number. *)
Definition decode_bytes (raw : string) : string :=
  match decode_utf8 raw with
  | Some s => s
  | None => raw
  end.

Definition _try_decode_base64_heuristic (text : pyval) : option string :=
  match text with
  | PStr t =>
      let s := sub re_space "" t in
      if (String.length s <? 16)%nat || search re_not_b64 s then None
      else
        match b64decode s with
        | Some raw => Some (decode_bytes raw)
        | None => None
        end
  | _ => None
  end.

(** [\w] on code points below 256. *)
Definition is_word (c : ascii) : bool :=
  let n := code c in
  ((48 <=? n) && (n <=? 57) || (65 <=? n) && (n <=? 90) || (97 <=? n) && (n <=? 122)
   || (n =? 95) || (n =? 170) || (n =? 178) || (n =? 179) || (n =? 181) || (n =? 185)
   || (n =? 186) || (188 <=? n) && (n <=? 190) || (192 <=? n) && (n <=? 214)
   || (216 <=? n) && (n <=? 246) || (248 <=? n))%N.

(** r"<\/?\w+>" *)
Definition re_html_tag : re := Lit "<" ;; Opt (Lit "/") ;; Plus is_word ;; Lit ">".

(** Lines 364 to 379 of [render_message_html], from the pair that
    [pick_text] returned: what is known of the body when the whole-string
    heuristic has had its turn. *)
Inductive body :=
| BodyHtml (body_html : string)     (* body_html is set *)
| BodyText (content : string)       (* content was replaced by the decoded text *)
| TryMime (content : string).       (* content goes on to _decode_base64_mime *)

Definition body_after_heuristic (field : option string) (content : string) : body :=
  if match field with Some f => String.eqb f "html" | None => false end
     && negb (String.eqb (strip content) EmptyString)
  then BodyHtml content
  else
    match _try_decode_base64_heuristic (PStr content) with
    | Some decoded_full =>
        if search re_html_tag decoded_full then BodyHtml decoded_full
        else BodyText decoded_full
    | None => TryMime content
    end.

End WithLib.
End Browse.

(** ** scripts/build_lunr_single.py *)
Module Lunr.
Import Py Extract.

(** A line of out/messages.ndjson read back by [json.loads]: the dict of
    lines 116 to 125 of the extractor, keys in the order written. *)
Definition opt_str (o : option string) : pyval :=
  match o with Some s => PStr s | None => PNone end.
Definition opt_int (o : option Z) : pyval :=
  match o with Some n => PInt n | None => PNone end.

Definition row (m : doc) : pydict :=
  [("id", PStr (doc_id m)); ("thread_id", PStr (doc_thread_id m));
   ("subject", PStr (doc_subject m)); ("author", PStr (doc_author m));
   ("timestamp", opt_str (doc_timestamp m)); ("year", opt_int (doc_year m));
   ("index_text", PStr (doc_index_text m)); ("full_text", PStr (doc_full_text m))].

(** One element of site/docs.json; [None] when a [d[k]] raises KeyError. *)
Definition docs_entry (d : pydict) : option pydict :=
  match lookup_key d "id", lookup_key d "subject", lookup_key d "author",
        lookup_key d "timestamp", lookup_key d "year" with
  | Some i, Some s, Some a, Some t, Some y =>
      Some [("id", i); ("subject", s); ("author", a); ("timestamp", t); ("year", y)]
  | _, _, _, _, _ => None
  end.

(** The list comprehension of lines 25 to 34. *)
Fixpoint docs_json (rows : list pydict) : option (list pydict) :=
  match rows with
  | [] => Some []
  | d :: rows' =>
      match docs_entry d, docs_json rows' with
      | Some e, Some es => Some (e :: es)
      | _, _ => None
      end
  end.

End Lunr.

(** ** scripts/generate_browse_pages.py: years, authors, the picked text *)
Module Pages.
Import Py Re Browse.

(** The library calls of these functions. *)
Class Lib := {
  (** html.unescape *)
  unescape : string -> string;
  (** datetime.fromisoformat(s).year; [None] when [fromisoformat] raises *)
  isoformat_year : string -> option Z
}.

(** setdefault(k, []).append(v) on a dict of lists in insertion order. *)
Fixpoint group_add {V : Type} (k : string) (v : V) (g : list (string * list V))
  : list (string * list V) :=
  match g with
  | [] => [(k, [v])]
  | (k', vs) :: g' =>
      if String.eqb k' k then (k', (vs ++ [v])%list) :: g' else (k', vs) :: group_add k v g'
  end.

(** *** [_slugify] *)

(** The four patterns: one of the two angle brackets and the two quote
    characters; r"@"; r"[^a-z0-9]+"; r"-{2,}". *)
Definition is_slug_char (c : ascii) : bool :=
  let n := code c in ((97 <=? n) && (n <=? 122) || (48 <=? n) && (n <=? 57))%N.
Definition re_quotes : re := Chr (one_of ["<"%char; ">"%char; DQUOTE; SQUOTE]).
Definition re_at : re := Lit "@".
Definition re_not_slug : re := Plus (fun c => negb (is_slug_char c)).
Definition re_dashes : re := Lit "--" ;; Star (ch "-").

Definition _slugify (s : string) : string :=
  if String.eqb s EmptyString then "unknown"
  else
    let s := strip (lower s) in
    let s := sub re_quotes EmptyString s in
    let s := sub re_at "-at-" s in
    let s := sub re_not_slug "-" s in
    let s := rstrip_by (ch "-") (lstrip_by (ch "-") (sub re_dashes "-" s)) in
    if String.eqb s EmptyString then "unknown" else s.

(** *** [_author_name_from_doc] *)

Definition author_keys : list string :=
  ["author"; "from"; "sender"; "owner"; "uploader"; "author_name"; "displayName"].

(** The loop over the keys: the first value that is a [str] with something
    other than whitespace in it, stripped. *)
Fixpoint first_name (ks : list string) (doc : pydict) : option string :=
  match ks with
  | [] => None
  | k :: ks' =>
      match get doc k with
      | PStr v =>
          if String.eqb (strip v) EmptyString then first_name ks' doc else Some (strip v)
      | _ => first_name ks' doc
      end
  end.

(** re.match(r'\s*([^<]+)\s*<', frm): the text of group 1 when the pattern
    matches.  The continuation of the group knows where the group began
    ([s1]) and where it ended ([s2]). *)
Definition name_before_bracket (frm : string) : option string :=
  run (Star is_space)
      (fun s1 =>
         run (Plus (none_of ["<"%char]))
             (fun s2 =>
                match run (Star is_space ;; Lit "<") Some s2 with
                | Some _ => Some (take (String.length s1 - String.length s2) s1)
                | None => None
                end) s1) frm.

Definition _author_name_from_doc (doc : pydict) : string :=
  match first_name author_keys doc with
  | Some v => v
  | None =>
      match py_or (get doc "from") (get doc "From") with
      | PStr frm =>
          match name_before_bracket frm with
          | Some g => strip g
          | None => "Unknown"
          end
      | _ => "Unknown"
      end
  end.

(** [an = _author_name_from_doc(d) or "Unknown"] and the [authors] dict of
    [main]. *)
Definition author_of (d : pydict) : string :=
  let an := _author_name_from_doc d in
  if String.eqb an EmptyString then "Unknown" else an.

Definition authors (docs : list pydict) : list (string * list pydict) :=
  fold_left (fun g d => group_add (author_of d) d g) docs [].

Section WithLib.
Context {L : Lib}.

(** *** [get_year] *)

(** r"(19|20)\d{2}" *)
Definition re_year : re := Alt (Lit "19") (Lit "20") ;; Chr is_digit ;; Chr is_digit.

Definition get_year (doc : pydict) : string :=
  match get doc "year" with
  | PInt _ | PBool _ | PStr _ => str (get doc "year")
  | _ =>
      let date := py_or (py_or (get doc "date") (get doc "datetime")) (get doc "created") in
      if truthy date then
        match (match date with
               | PStr s => isoformat_year (replace "Z" "+00:00" s)
               | _ => None
               end) with
        | Some y => str_of_Z y
        | None =>
            match findall re_year (str date) with
            | m :: _ => m
            | [] => "unknown"
            end
        end
      else "unknown"
  end.

(** The [years] dict of [main]. *)
Definition years (docs : list pydict) : list (string * list pydict) :=
  fold_left (fun g d => group_add (get_year d) d g) docs [].

(** *** [pick_text] *)

Definition priority_keys : list string :=
  ["full_text"; "index_text"; "html"; "body"; "body_html"; "text_html"; "text"; "content";
   "body_text"; "plain"; "plain_text"; "payload"; "message"; "raw"; "source"].

(** ("html", vv) when the text holds a tag, ("text", vv) otherwise. *)
Definition labelled (vv : string) : option string * string :=
  (Some (if search re_html_tag vv then "html" else "text"), vv).

(** The loop over the priority keys: the first value that is a [str] with
    something other than whitespace in it. *)
Fixpoint first_text (ks : list string) (doc : pydict) : option string :=
  match ks with
  | [] => None
  | k :: ks' =>
      match get doc k with
      | PStr v => if String.eqb (strip v) EmptyString then first_text ks' doc else Some v
      | _ => first_text ks' doc
      end
  end.

Fixpoint recurse (o : pyval) : option (option string * string) :=
  match o with
  | PStr o =>
      let s := strip o in
      if String.eqb s EmptyString then None else Some (labelled (unescape s))
  | PDict kvs =>
      (fix values (l : list (string * pyval)) : option (option string * string) :=
         match l with
         | [] => None
         | (_, v) :: l' =>
             match recurse v with
             | Some r => Some r
             | None => values l'
             end
         end) kvs
  | PList l =>
      (fix items (l : list pyval) : option (option string * string) :=
         match l with
         | [] => None
         | v :: l' =>
             match recurse v with
             | Some r => Some r
             | None => items l'
             end
         end) l
  | _ => None
  end.

(** [pick_text(doc)]: the field, [None] being Python's [None], and the
    content. *)
Definition pick_text (doc : pydict) : option string * string :=
  match first_text priority_keys doc with
  | Some v => labelled (unescape v)
  | None =>
      match recurse (PDict doc) with
      | Some r => r
      | None => (None, EmptyString)
      end
  end.

End WithLib.
End Pages.

(** ** scripts/generate_browse_pages.py: the MIME-part decoder *)
Module Mime.
Import Py Re Browse.

(** [m.start()] and [m.end()] of [re.search(r, s)]. *)
Fixpoint search_span (r : re) (s : string) : option (nat * nat) :=
  match match_len r s with
  | Some n => Some (O, n)
  | None =>
      match s with
      | String _ s' =>
          match search_span r s' with
          | Some (a, b) => Some (S a, S b)
          | None => None
          end
      | EmptyString => None
      end
  end.

(** [s[a:b]] for indices that are not negative. *)
Definition slice (a b : nat) (s : string) : string := drop a (take b s).

(** [s.rfind(sub)] for a non-empty [sub]; [None] is -1. *)
Fixpoint rfind (sub s : string) : option nat :=
  match s with
  | EmptyString => None
  | String _ s' =>
      match rfind sub s' with
      | Some i => Some (S i)
      | None => if String.prefix sub s then Some O else None
      end
  end.

(** [sub in s]. *)
Fixpoint contains (sub s : string) : bool :=
  String.prefix sub s
  || match s with
     | String _ s' => contains sub s'
     | EmptyString => false
     end.

(** r"Content-Transfer-Encoding:\s*base64" with re.I; r"\r?\n\r?\n";
    r"\r?\n--[^\r\n]+" *)
Definition re_cte : re := LitI "Content-Transfer-Encoding:" ;; Star is_space ;; LitI "base64".
Definition re_blank_line : re :=
  Opt (Lit (str1 CR)) ;; Lit (str1 LF) ;; Opt (Lit (str1 CR)) ;; Lit (str1 LF).
Definition re_boundary : re :=
  Opt (Lit (str1 CR)) ;; Lit (String LF "--") ;; Plus (none_of [CR; LF]).

(** re.search(r"Content-Type:\s*([^\r\n;]+)", s, flags=re.I): the text of
    group 1 of the first match.  The continuation of the group knows where
    the group began ([s1]) and where it ended ([s2]). *)
Definition content_type_at (s : string) : option string :=
  run (LitI "Content-Type:" ;; Star is_space)
      (fun s1 =>
         run (Plus (none_of [CR; LF; ";"%char]))
             (fun s2 => Some (take (String.length s1 - String.length s2) s1)) s1) s.

Fixpoint content_type_in (s : string) : option string :=
  match content_type_at s with
  | Some g => Some g
  | None =>
      match s with
      | String _ s' => content_type_in s'
      | EmptyString => None
      end
  end.

Section WithLib.
Context {L : Lib}.

(** One turn of the loop of [_decode_base64_mime] from position [pos]:
    [None] when no header is found (the loop breaks), else the part that is
    appended, whether it sets [any_html], and [payload_end]. *)
Definition mime_part (text : string) (pos : nat) : option (string * bool * nat) :=
  match search_span re_cte (drop pos text) with
  | None => None
  | Some (m_start, m_end) =>
      let header_idx := (pos + m_start)%nat in
      let after_header := (pos + m_end)%nat in
      let payload_start :=
        (after_header + match search_span re_blank_line (drop after_header text) with
                        | Some (_, dbl_end) => dbl_end
                        | None => O
                        end)%nat in
      let payload_end :=
        match search_span re_boundary (drop payload_start text) with
        | Some (b_start, _) => (payload_start + b_start)%nat
        | None => String.length text
        end in
      let payload := strip (slice payload_start payload_end text) in
      let look_start :=
        match rfind (String LF "--") (take header_idx text) with
        | Some prev_boundary => prev_boundary
        | None => O
        end in
      let ct_section := slice look_start header_idx text in
      let ctype :=
        match content_type_in ct_section with
        | Some g => lower g
        | None => EmptyString
        end in
      let b64 := sub re_space EmptyString payload in
      match b64decode b64 with
      | Some raw => Some (decode_bytes raw, contains "html" ctype, payload_end)
      | None => Some (payload, false, payload_end)
      end
  end.

(** The [while True] loop, with its variables [pos], [parts], [any_html]
    and [found]; [None] when the turns allowed by [fuel] do not reach the
    [break]. *)
Fixpoint mime_loop (fuel : nat) (text : string) (pos : nat) (parts : list string)
         (any_html found : bool) : option (list string * bool * bool) :=
  match fuel with
  | O => None
  | S fuel' =>
      match mime_part text pos with
      | None => Some (parts, any_html, found)
      | Some (part, html, payload_end) =>
          mime_loop fuel' text payload_end (parts ++ [part])%list (any_html || html) true
      end
  end.

(** [_decode_base64_mime(text)]: the outer [option] is [None] when the loop
    does not end within one turn per character of the text and one more;
    the inner one is Python's [None]. *)
Definition _decode_base64_mime (text : pyval) : option (option (string * bool)) :=
  match text with
  | PStr t =>
      match mime_loop (S (String.length t)) t O [] false false with
      | Some (parts, any_html, found) =>
          Some (if found then Some (join (String LF (str1 LF)) parts, any_html) else None)
      | None => None
      end
  | _ => Some None
  end.

(** Lines 364 to 383 of [render_message_html], from the pair that
    [pick_text] returned: the HTML body, or the text that is shown escaped. *)
Definition render_body (field : option string) (content : string) : option body :=
  match body_after_heuristic field content with
  | TryMime c =>
      match _decode_base64_mime (PStr c) with
      | Some (Some (combined, any_html)) =>
          Some (if any_html then BodyHtml combined else BodyText combined)
      | Some None => Some (BodyText c)
      | None => None
      end
  | b => Some b
  end.

End WithLib.
End Mime.

(** ** Vocabulary of the statements

    Definitions the theorems are stated with; none of them is used by the
    embedding above. *)
Module Spec.
Import Py Extract.

(** The calendar, independently of [ord2ymd]: the number of leap years
    among the years 1..y, the days before January 1st of a year, and the
    epoch second at which a year starts. *)
Definition leaps (y : Z) : Z := y / 4 - y / 100 + y / 400.
Definition days_before_year (year : Z) : Z := (year - 1) * 365 + leaps (year - 1).
Definition year_start (year : Z) : Z := (days_before_year year + 1 - 719163) * 86400.

(** The first and last epoch second [utcfromtimestamp] accepts:
    0001-01-01T00:00:00 and 9999-12-31T23:59:59. *)
Definition EPOCH_MIN : Z := -62135596800.
Definition EPOCH_MAX : Z := 253402300799.

(** The year [ord2ymd] returns, without the month and the day. *)
Definition year_of_ordinal (ordinal : Z) : Z :=
  let n := ordinal - 1 in
  let n400 := n / DI400Y in
  let n := n mod DI400Y in
  let n100 := n / DI100Y in
  let n := n mod DI100Y in
  let n4 := n / DI4Y in
  let n := n mod DI4Y in
  let n1 := n / 365 in
  let year := n400 * 400 + 1 + n100 * 100 + n4 * 4 + n1 in
  if (n1 =? 4) || (n100 =? 4) then year - 1 else year.

(** The e-mail body resolver in the words of its contract: the text of every
    text/plain part as it is and of every text/html part after
    [strip_html], in the order of the parts; of a single part whatever its
    type, stripped only when it is text/html. *)
Section Resolver.
Context {L : Lib}.

Definition text_of (c : content) : string :=
  match c with Text s => s | Bytes b => b end.

Definition is_text (c : content) : bool :=
  match c with Text _ => true | Bytes _ => false end.

Definition is_plain (p : part) : bool := String.eqb (lower (content_type p)) "text/plain".
Definition is_html (p : part) : bool := String.eqb (lower (content_type p)) "text/html".

Definition stripped_html (s : string) : string :=
  if String.eqb s EmptyString then EmptyString else strip_html_str s.

Definition part_text (p : part) : string :=
  if is_plain p then text_of (content_of p)
  else if is_html p then stripped_html (text_of (content_of p))
  else text_of (content_of p).

Definition part_texts (m : message) : list string :=
  match m with
  | Single p => [part_text p]
  | Multipart ps => map part_text (List.filter (fun p => is_plain p || is_html p) ps)
  end.

(** Every part the resolver reads has a [str] content. *)
Definition textual (m : message) : bool :=
  match m with
  | Single p => is_text (content_of p)
  | Multipart ps =>
      forallb (fun p => is_text (content_of p)) (List.filter (fun p => is_plain p || is_html p) ps)
  end.

Definition nonempty (s : string) : bool := negb (String.eqb s EmptyString).

End Resolver.

(** A text without the characters of a class, and whether every character
    of a text is in a class. *)
Fixpoint remove_chars (p : ascii -> bool) (s : string) : string :=
  match s with
  | String c s' => if p c then remove_chars p s' else String c (remove_chars p s')
  | EmptyString => EmptyString
  end.

Fixpoint all_chars (p : ascii -> bool) (s : string) : bool :=
  match s with
  | String c s' => p c && all_chars p s'
  | EmptyString => true
  end.

(** What is left of a text after its leading run of characters of a class. *)
Fixpoint drop_run (p : ascii -> bool) (s : string) : string :=
  match s with
  | String c s' => if p c then drop_run p s' else s
  | EmptyString => EmptyString
  end.

End Spec.

(** ** Library instances for the worked examples *)
Module Examples.
Import Py.

(** The text after the first blank line. *)
Fixpoint after_blank_line (s : string) : string :=
  match s with
  | String a s' =>
      match s' with
      | String b rest =>
          if Ascii.eqb a LF && Ascii.eqb b LF then rest else after_blank_line s'
      | EmptyString => EmptyString
      end
  | EmptyString => EmptyString
  end.

(** The parse of a message whose headers name no content type: one
    text/plain part holding the text after the headers. *)
Definition plain_message (raw : string) : Extract.message :=
  Extract.Single {| Extract.content_type := "text/plain";
                    Extract.get_content := Some (Extract.Text (after_blank_line raw));
                    Extract.payload_text := after_blank_line raw |}.

(** [html.unescape] changes nothing in a text without [&]; the examples
    use no other text. *)
Definition extract_lib : Extract.Lib :=
  {| Extract.html_unescape := fun s => s;
     Extract.parsebytes := fun raw => Some (plain_message raw) |}.

(** A base64 decoder for the examples: groups of four characters of the
    standard alphabet, padding in the last group only. *)
Definition b64_value (c : ascii) : option N :=
  let n := code c in
  if ((65 <=? n) && (n <=? 90))%N then Some (n - 65)%N
  else if ((97 <=? n) && (n <=? 122))%N then Some (n - 71)%N
  else if ((48 <=? n) && (n <=? 57))%N then Some (n + 4)%N
  else if (n =? 43)%N then Some 62%N
  else if (n =? 47)%N then Some 63%N
  else None.

Fixpoint b64_decode (s : string) : option string :=
  match s with
  | EmptyString => Some EmptyString
  | String a (String b (String c (String d rest))) =>
      match b64_value a, b64_value b with
      | Some x, Some y =>
          let b1 := ascii_of_N (x * 4 + y / 16) in
          match b64_value c, b64_value d with
          | Some z, Some w =>
              match b64_decode rest with
              | Some r =>
                  Some (String b1 (String (ascii_of_N ((y mod 16) * 16 + z / 4))
                          (String (ascii_of_N ((z mod 4) * 64 + w)) r)))
              | None => None
              end
          | Some z, None =>
              if Ascii.eqb d "=" && String.eqb rest EmptyString
              then Some (String b1 (str1 (ascii_of_N ((y mod 16) * 16 + z / 4))))
              else None
          | None, _ =>
              if Ascii.eqb c "=" && Ascii.eqb d "=" && String.eqb rest EmptyString
              then Some (str1 b1)
              else None
          end
      | _, _ => None
      end
  | _ => None
  end.

(** [fromisoformat] on the two kinds of text the examples sort by: the
    timestamp of epoch second 1000000000 as the corpus writes it, with its Z
    replaced by an offset, and texts that are no date. *)
Definition browse_lib : Browse.Lib :=
  {| Browse.py_hash := fun _ _ => 0;
     Browse.fromisoformat := fun s =>
       if String.eqb s "2001-09-09T01:46:40+00:00"
       then Some {| Browse.aware := true; Browse.instant := 1000000000 |}
       else None;
     Browse.b64decode := b64_decode;
     Browse.decode_utf8 := fun s => Some s |}.

(** docs.json and the out/by_year index of a corpus of two messages: the
    first message of topic 5, undated, and a dated reply filed under it. *)
Definition topic_docs : list pydict :=
  [[("id", PStr "5"); ("subject", PStr "Hi"); ("author", PStr "ann");
    ("timestamp", PNone); ("year", PNone)];
   [("id", PStr "7"); ("subject", PStr "Re: Hi"); ("author", PStr "bob");
    ("timestamp", PStr "2001-09-09T01:46:40Z"); ("year", PInt 2001)]].

Definition topic_index : gmap string pydict :=
  {[ "7" := [("id", PStr "7"); ("thread_id", PStr "5"); ("subject", PStr "Re: Hi");
             ("author", PStr "bob"); ("timestamp", PStr "2001-09-09T01:46:40Z");
             ("year", PInt 2001); ("index_text", PStr "yes"); ("full_text", PStr "yes")] ]}.

(** Two docs of the thread t. *)
Definition two_docs : list pydict :=
  [[("id", PStr "A"); ("thread_id", PStr "t")];
   [("id", PStr "B"); ("thread_id", PStr "t")]].

(** Three records: dated 2001, dated 1970, undated. *)
Definition raw_email (body : string) : pyval :=
  PStr ("Subject: Hi" ++ str1 LF ++ str1 LF ++ body).

Definition three_records : list pyval :=
  [PList [PDict [("msgId", PStr "1"); ("rawEmail", raw_email "one");
                 ("postDate", PStr "1000000000")];
          PDict [("msgId", PStr "2"); ("rawEmail", raw_email "two"); ("postDate", PInt 86400)];
          PDict [("msgId", PStr "3"); ("rawEmail", raw_email "three")]]].

Definition message_of (mid text : string) (ts : option string) (y : option Z) : Extract.doc :=
  {| Extract.doc_id := mid; Extract.doc_thread_id := mid;
     Extract.doc_subject := EmptyString; Extract.doc_author := EmptyString;
     Extract.doc_timestamp := ts; Extract.doc_year := y;
     Extract.doc_index_text := text; Extract.doc_full_text := text |}.

Definition three_messages : list Extract.doc :=
  [message_of "1" "one" (Some "2001-09-09T01:46:40Z") (Some 2001);
   message_of "2" "two" (Some "1970-01-02T00:00:00Z") (Some 1970);
   message_of "3" "three" None None].

End Examples.

(** ** More vocabulary, for the properties beyond the claims *)
Module Words.
Import Py Re Extract Browse Pages.

(** The messages of a list that carry a given year, in the list's order. *)
Definition has_year (y : Z) (m : doc) : bool :=
  match doc_year m with
  | Some y' => y' =? y
  | None => false
  end.
Definition with_year (y : Z) (ms : list doc) : list doc := List.filter (has_year y) ms.

(** The characters the fifth pattern of [strip_html] turns into a space,
    the space itself apart. *)
Definition swallowed (c : ascii) : bool :=
  Re.one_of [BACKSLASH; "t"%char; "r"%char; "f"%char; "v"%char] c.

(** The position of the last occurrence of an id in a list of ids. *)
Definition last_at (mids : list string) (m : string) (i : nat) : Prop :=
  mids !! i = Some m /\ forall j, (i < j)%nat -> mids !! j <> Some m.

(** The messages of a list whose thread key is [k], in the list's order. *)
Definition in_thread (k : string) (it : item) : bool :=
  String.eqb (thread_key (fst it) (snd it)) k.
Definition thread_of (k : string) (fd : list item) : list item :=
  List.filter (in_thread k) fd.

(** The three kinds of sort key: keys of different kinds do not compare. *)
Inductive key_kind := IsStr | IsAware | IsNaive.

Definition kind_of (k : sort_key) : key_kind :=
  match k with
  | KStr _ => IsStr
  | KDate d => if aware d then IsAware else IsNaive
  end.

Definition key_eqb (a b : sort_key) : bool :=
  match a, b with
  | KDate x, KDate y => Bool.eqb (aware x) (aware y) && (instant x =? instant y)
  | KStr s, KStr t => String.eqb s t
  | _, _ => false
  end.

Section Sorting.
Context {L : Browse.Lib}.

Definition kind (it : item) : key_kind := kind_of (_date_sort_key it).

(** All the items of a list have sort keys of one kind. *)
Definition uniform (l : list item) : Prop :=
  forall x y, x ∈ l -> y ∈ l -> kind x = kind y.

(** [x] may stand before [y]: [y] does not sort before [x]. *)
Definition not_after (x y : item) : Prop :=
  key_lt (_date_sort_key y) (_date_sort_key x) = Ok false.

(** No item of the list sorts before an item in front of it. *)
Fixpoint ascending (l : list item) : Prop :=
  match l with
  | [] => True
  | x :: t => Forall (not_after x) t /\ ascending t
  end.

(** The items of a list that have a given sort key, in the list's order. *)
Definition with_key (k : sort_key) (l : list item) : list item :=
  List.filter (fun it => key_eqb (_date_sort_key it) k) l.

End Sorting.

(** Whether a text starts with the character [c], and whether it holds [c]
    twice in a row. *)
Definition head_is (c : ascii) (s : string) : bool :=
  match s with String a _ => Ascii.eqb a c | EmptyString => false end.

Fixpoint has_pair (c : ascii) (s : string) : bool :=
  match s with
  | String a ((String b _) as t) => Ascii.eqb a c && Ascii.eqb b c || has_pair c t
  | _ => false
  end.

(** The characters of a slug. *)
Definition slug_or_dash (c : ascii) : bool := is_slug_char c || Ascii.eqb c "-".

(** The entry of site/docs.json made from a message of the corpus. *)
Definition site_doc (m : doc) : pydict :=
  [("id", PStr (doc_id m)); ("subject", PStr (doc_subject m));
   ("author", PStr (doc_author m)); ("timestamp", Lunr.opt_str (doc_timestamp m));
   ("year", Lunr.opt_int (doc_year m))].

(** The messages of a list that carry no year. *)
Definition undated (ms : list doc) : list doc :=
  List.filter (fun m => match doc_year m with None => true | Some _ => false end) ms.

(** An id that [compute_mid] returns as it is: not empty, and left alone
    by the trimming and the removal of enclosing angle brackets. *)
Definition clean_id (s : string) : bool :=
  negb (String.eqb s EmptyString) && String.eqb (unbracket s) s.

(** The name of the year page of a message. *)
Definition year_name (m : doc) : string :=
  match doc_year m with
  | Some y => str_of_Z y
  | None => "unknown"
  end.

(** The values of a list that a function sends to the key [k], in the
    list's order. *)
Definition keyed {V : Type} (f : V -> string) (k : string) (l : list V) : list V :=
  List.filter (fun d => String.eqb (f d) k) l.

(** The distinct texts of a list, each at the place of its first
    occurrence; and whether a text is outside a set. *)
Fixpoint first_occurrences (l : list string) : list string :=
  match l with
  | [] => []
  | i :: l' => i :: List.filter (fun j => negb (String.eqb j i)) (first_occurrences l')
  end.

Definition unseen (S : gset string) (j : string) : bool := bool_decide (j ∉ S).

(** A library instance for the worked examples of the pages: texts without
    entities, dates that are no ISO dates. *)
Definition pages_lib : Pages.Lib :=
  {| Pages.unescape := fun s => s; Pages.isoformat_year := fun _ => None |}.

(** Two messages of a thread, the later one listed first. *)
Definition two_items : list item :=
  [("2", [("id", PStr "2"); ("timestamp", PStr "b")]);
   ("1", [("id", PStr "1"); ("timestamp", PStr "a")])].

End Words.

(** * Theorems *)

(** ** Python built-ins and regular expressions *)
Module PyFacts.
Import Py.

Lemma py_or_none a b :
  py_or a b = PNone <-> truthy a = false /\ b = PNone.
Proof.
  unfold py_or. destruct (truthy a) eqn:E.
  - split; [intros ->; discriminate E | intros [? _]; discriminate].
  - tauto.
Qed.

Lemma py_or_truthy a b : truthy (py_or a b) = truthy a || truthy b.
Proof. unfold py_or. destruct (truthy a) eqn:E; [exact E | reflexivity]. Qed.

End PyFacts.

(** ** The record guard, HTML stripping, the body resolver, timestamps *)
Module ExtractFacts.
Import Py Re Extract Spec PyFacts.

(** *** Identity: which records the guard skips *)

Lemma mid_of_none d :
  mid_of d = PNone <->
  truthy (get d "msgId") = false /\ truthy (get d "messageId") = false /\ get d "id" = PNone.
Proof.
  unfold mid_of. rewrite py_or_none, py_or_truthy, orb_false_iff. tauto.
Qed.

Lemma is_none_true v : is_none v = true <-> v = PNone.
Proof. destruct v; simpl; split; congruence. Qed.

(** C3, as the code has it: the guard skips a record exactly when the
    identifier lookup yields [None] (msgId and messageId are missing or
    empty and id is missing or null) or rawEmail is missing or empty; one
    failing condition is enough.  A skipped record leaves the loop's state
    as it was and has no identifier. *)
Theorem rejected_iff_no_id_or_no_body {L : Lib} (d : pydict) :
  (rejected d = true <->
     (truthy (get d "msgId") = false /\ truthy (get d "messageId") = false
      /\ get d "id" = PNone)
     \/ truthy (get d "rawEmail") = false)
  /\ (rejected d = true -> forall st, step st d = Ok st)
  /\ (rejected d = true -> record_id d = None).
Proof.
  split; [| split].
  - unfold rejected. rewrite orb_true_iff, is_none_true, mid_of_none, negb_true_iff.
    reflexivity.
  - intros H st. unfold step. rewrite H. reflexivity.
  - intros H. unfold record_id. rewrite H. reflexivity.
Qed.

(** C3, the claim as stated fails: a record with the identifier "1" and no
    rawEmail is rejected, and a run over it writes nothing. *)
Lemma id_without_body_is_rejected :
  truthy (mid_of [("msgId", PStr "1")]) = true
  /\ get [("msgId", PStr "1")] "rawEmail" = PNone
  /\ rejected [("msgId", PStr "1")] = true
  /\ messages_ndjson (fst (@main Examples.extract_lib [PDict [("msgId", PStr "1")]])) = [].
Proof. repeat split; vm_compute; reflexivity. Qed.

(** *** HTML stripping *)

(** C4, at the failing input: the text between the script tags survives,
    since the first pattern asks for a closing tag spelled with a backslash
    and the digit 1. *)
Theorem strip_html_keeps_script_text {L : Lib} :
  html_unescape "<script>x</script>" = "<script>x</script>" ->
  strip_html (Text "<script>x</script>") = Ok "x".
Proof.
  intros H. unfold strip_html, strip_html_str. rewrite H. vm_compute. reflexivity.
Qed.

Lemma strip_html_keeps_script_text_witness :
  @strip_html Examples.extract_lib (Text "<script>x</script>") = Ok "x".
Proof. exact (@strip_html_keeps_script_text Examples.extract_lib eq_refl). Defined.

(** The other patterns miss in the same way: a line break tag gives no
    newline, four newlines stay four, and the letters t, r, f and v count
    as horizontal whitespace. *)
Lemma strip_tags_br : strip_tags "a<br>b" = "ab".
Proof. vm_compute. reflexivity. Qed.

Lemma strip_tags_blank_lines :
  strip_tags (String "a" (String LF (String LF (String LF (String LF "b")))))
  = String "a" (String LF (String LF (String LF (String LF "b")))).
Proof. vm_compute. reflexivity. Qed.

Lemma strip_tags_letters : strip_tags "a letter  for you" = "a le e o you".
Proof. vm_compute. reflexivity. Qed.

(** *** The body resolver *)

Lemma texts_of_text (l : list string) :
  texts (List.filter content_truthy (map Text l)) = Ok (List.filter nonempty l).
Proof.
  induction l as [| s l IH]; [reflexivity |].
  simpl. unfold nonempty at 1.
  destruct (negb (String.eqb s EmptyString)); [| exact IH].
  simpl. rewrite IH. reflexivity.
Qed.

Lemma strip_html_text {L : Lib} s : strip_html (Text s) = Ok (stripped_html s).
Proof. unfold strip_html, stripped_html. destruct (String.eqb s EmptyString); reflexivity. Qed.

Lemma is_text_inv c : is_text c = true -> c = Text (text_of c).
Proof. destruct c; [reflexivity | discriminate]. Qed.

Lemma collect_walk_textual {L : Lib} (ps : list part) :
  textual (Multipart ps) = true ->
  collect_walk ps = Ok (map Text (part_texts (Multipart ps))).
Proof.
  unfold textual, part_texts.
  induction ps as [| p ps IH]; [reflexivity |].
  cbn [collect_walk List.filter]. unfold is_plain, is_html, part_text.
  destruct (String.eqb (lower (content_type p)) "text/plain") eqn:Ep.
  - cbn [orb forallb map]. unfold is_plain. rewrite Ep.
    intros [Ht Hr]%andb_true_iff. rewrite (IH Hr).
    destruct (content_of p); [reflexivity | discriminate Ht].
  - destruct (String.eqb (lower (content_type p)) "text/html") eqn:Eh.
    + cbn [orb forallb map]. unfold is_plain, is_html. rewrite Ep, Eh.
      intros [Ht Hr]%andb_true_iff.
      destruct (content_of p) as [s | b]; [| discriminate Ht].
      rewrite strip_html_text. cbn [rbind]. rewrite (IH Hr). reflexivity.
    + cbn [orb]. exact IH.
Qed.

Lemma collect_textual {L : Lib} (m : message) :
  textual m = true -> collect m = Ok (map Text (part_texts m)).
Proof.
  destruct m as [p | ps]; [| apply collect_walk_textual].
  cbn [textual collect part_texts map]. intros Ht.
  unfold collect_single, part_text, is_plain, is_html.
  destruct (content_of p) as [s | b]; [| discriminate Ht].
  destruct (String.eqb _ "text/plain"); [reflexivity |].
  destruct (String.eqb _ "text/html"); [| reflexivity].
  rewrite strip_html_text. reflexivity.
Qed.

(** A single part that is neither plain text nor HTML and whose content
    is a non-empty [bytes] value: the join raises. *)
Lemma email_to_text_raises_on_bytes {L : Lib} (raw ctype b : string) (payload : string) :
  lower ctype <> "text/plain" -> lower ctype <> "text/html" -> b <> EmptyString ->
  email_to_text_parsed
    (Some (Single {| content_type := ctype; get_content := Some (Bytes b);
                     payload_text := payload |})) raw
  = Raise TypeError.
Proof.
  intros Hp Hh Hb. unfold email_to_text_parsed, collect, collect_single, content_of.
  cbn [content_type get_content].
  destruct (String.eqb_spec (lower ctype) "text/plain") as [? | _]; [contradiction |].
  destruct (String.eqb_spec (lower ctype) "text/html") as [? | _]; [contradiction |].
  cbn [rbind List.filter content_truthy].
  destruct (String.eqb_spec b EmptyString) as [? | _]; [contradiction |]. reflexivity.
Qed.

(** C5, as the code has it: when the parse fails the result is the raw text
    with CRLF turned into LF; when it succeeds and every part read has text
    content, no exception is raised and the result is the non-empty part
    texts joined by newlines and then trimmed, or, when nothing is left
    after trimming, the raw text with CRLF turned into LF. *)
Theorem email_to_text_trimmed_or_raw {L : Lib} (raw : string) :
  (parsebytes raw = None -> email_to_text raw = Ok (normalize_newlines raw))
  /\ (forall msg, parsebytes raw = Some msg -> textual msg = true ->
        email_to_text raw =
          Ok (if nonempty (strip (join (str1 LF) (List.filter nonempty (part_texts msg))))
              then strip (join (str1 LF) (List.filter nonempty (part_texts msg)))
              else normalize_newlines raw)).
Proof.
  unfold email_to_text, email_to_text_parsed. split.
  - intros ->. reflexivity.
  - intros msg -> Ht. rewrite (collect_textual _ Ht). simpl.
    rewrite texts_of_text. simpl. unfold nonempty.
    destruct (String.eqb _ EmptyString); reflexivity.
Qed.

(** C5, the claim as stated fails: the one part of this message is
    "Hello world" followed by a newline; joined with nothing else it is
    that text, and the resolver returns it without the newline. *)
Lemma email_to_text_trims_the_joined_text :
  @collect Examples.extract_lib
     (Examples.plain_message ("Subject: Hi" ++ str1 LF ++ str1 LF ++ "Hello world" ++ str1 LF))
    = Ok [Text ("Hello world" ++ str1 LF)]
  /\ join (str1 LF) ["Hello world" ++ str1 LF] = "Hello world" ++ str1 LF
  /\ @email_to_text Examples.extract_lib
       ("Subject: Hi" ++ str1 LF ++ str1 LF ++ "Hello world" ++ str1 LF)
     = Ok "Hello world"
  /\ "Hello world" <> "Hello world" ++ str1 LF.
Proof. repeat split; try (vm_compute; reflexivity). vm_compute. discriminate. Qed.

End ExtractFacts.

(** ** Timestamp resolution *)
Module TimeFacts.
Import Py Extract Spec PyFacts.

Lemma leaps_step y : leaps y <= leaps (y + 1) <= leaps y + 1.
Proof. unfold leaps. Z.div_mod_to_equations. lia. Qed.

Lemma leaps_decomp a b c d :
  0 <= b <= 3 -> 0 <= c <= 24 -> 0 <= d <= 3 ->
  leaps (400 * a + 100 * b + 4 * c + d) = 97 * a + 24 * b + c.
Proof.
  intros. unfold leaps.
  rewrite <- (Z.div_unique (400 * a + 100 * b + 4 * c + d) 4 (100 * a + 25 * b + c) d) by lia.
  rewrite <- (Z.div_unique (400 * a + 100 * b + 4 * c + d) 100 (4 * a + b) (4 * c + d)) by lia.
  rewrite <- (Z.div_unique (400 * a + 100 * b + 4 * c + d) 400 a (100 * b + 4 * c + d)) by lia.
  lia.
Qed.

Lemma ord2ymd_year n : fst (fst (ord2ymd n)) = year_of_ordinal n.
Proof.
  unfold ord2ymd, year_of_ordinal. cbv zeta.
  destruct (_ || _); [reflexivity |]. destruct (_ <? _); reflexivity.
Qed.

(** The year of an ordinal is the year whose days contain it. *)
Lemma year_of_ordinal_bounds n :
  days_before_year (year_of_ordinal n) < n <= days_before_year (year_of_ordinal n + 1).
Proof.
  unfold year_of_ordinal, days_before_year, DI400Y, DI100Y, DI4Y. cbv zeta.
  set (a := (n - 1) / 146097). set (r := (n - 1) mod 146097).
  set (b := r / 36524). set (r2 := r mod 36524).
  set (c := r2 / 1461). set (r3 := r2 mod 1461).
  set (d := r3 / 365).
  assert (H1 : n - 1 = 146097 * a + r /\ 0 <= r < 146097)
    by (subst a r; split; [apply Z.div_mod; lia | apply Z.mod_pos_bound; lia]).
  assert (H2 : r = 36524 * b + r2 /\ 0 <= r2 < 36524)
    by (subst b r2; split; [apply Z.div_mod; lia | apply Z.mod_pos_bound; lia]).
  assert (H3 : r2 = 1461 * c + r3 /\ 0 <= r3 < 1461)
    by (subst c r3; split; [apply Z.div_mod; lia | apply Z.mod_pos_bound; lia]).
  assert (H4 : exists r4, r3 = 365 * d + r4 /\ 0 <= r4 < 365)
    by (exists (r3 mod 365); subst d; split; [apply Z.div_mod; lia | apply Z.mod_pos_bound; lia]).
  destruct H4 as (r4 & H4).
  clearbody a r b r2 c r3 d.
  assert (0 <= b <= 4) by lia. assert (0 <= c <= 24) by lia. assert (0 <= d <= 4) by lia.
  destruct (d =? 4) eqn:E1; [apply Z.eqb_eq in E1 | apply Z.eqb_neq in E1];
    (destruct (b =? 4) eqn:E2; [apply Z.eqb_eq in E2 | apply Z.eqb_neq in E2]);
    simpl orb; cbv iota.
  - lia.
  - subst d.
    replace (a * 400 + 1 + b * 100 + c * 4 + 4 - 1 - 1)
      with (400 * a + 100 * b + 4 * c + 3) by lia.
    replace (a * 400 + 1 + b * 100 + c * 4 + 4 - 1 + 1 - 1)
      with (400 * a + 100 * b + 4 * (c + 1) + 0) by lia.
    rewrite !leaps_decomp by lia. lia.
  - subst b. assert (c = 0 /\ d = 0 /\ r4 = 0) as (-> & -> & ->) by lia.
    replace (a * 400 + 1 + 4 * 100 + 0 * 4 + 0 - 1 - 1)
      with (400 * a + 100 * 3 + 4 * 24 + 3) by lia.
    replace (a * 400 + 1 + 4 * 100 + 0 * 4 + 0 - 1 + 1 - 1)
      with (400 * (a + 1) + 100 * 0 + 4 * 0 + 0) by lia.
    rewrite !leaps_decomp by lia. lia.
  - pose proof (leaps_step (400 * a + 100 * b + 4 * c + d)).
    replace (a * 400 + 1 + b * 100 + c * 4 + d - 1)
      with (400 * a + 100 * b + 4 * c + d) by lia.
    replace (a * 400 + 1 + b * 100 + c * 4 + d + 1 - 1)
      with (400 * a + 100 * b + 4 * c + d + 1) by lia.
    rewrite leaps_decomp in * by lia. lia.
Qed.

Lemma in_range_ordinal n :
  (MINORDINAL <=? n / 86400 + 719163) && (n / 86400 + 719163 <=? MAXORDINAL)
  = (EPOCH_MIN <=? n) && (n <=? EPOCH_MAX).
Proof.
  unfold MINORDINAL, MAXORDINAL, EPOCH_MIN, EPOCH_MAX.
  apply eq_true_iff_eq. rewrite !andb_true_iff, !Z.leb_le.
  Z.div_mod_to_equations. lia.
Qed.

(** Inside the range the conversion succeeds, and the year it returns is
    the one whose first second is not after the instant and whose successor
    starts after it. *)
Lemma utcfromtimestamp_year n :
  (EPOCH_MIN <=? n) && (n <=? EPOCH_MAX) = true ->
  exists dt, utcfromtimestamp n = Some dt
             /\ year_start (dt_year dt) <= n < year_start (dt_year dt + 1).
Proof.
  intros Hr. unfold utcfromtimestamp. rewrite in_range_ordinal, Hr.
  pose proof (ord2ymd_year (n / 86400 + 719163)) as Hy.
  pose proof (year_of_ordinal_bounds (n / 86400 + 719163)) as Hb.
  destruct (ord2ymd (n / 86400 + 719163)) as [[y m] d]. cbn [fst] in Hy. subst y.
  eexists. split; [reflexivity |]. cbn [dt_year]. unfold year_start.
  Z.div_mod_to_equations. lia.
Qed.

Lemma utcfromtimestamp_out_of_range n :
  (EPOCH_MIN <=? n) && (n <=? EPOCH_MAX) = false -> utcfromtimestamp n = None.
Proof. intros Hr. unfold utcfromtimestamp. rewrite in_range_ordinal, Hr. reflexivity. Qed.

(** Never one without the other. *)
Lemma timestamp_none_iff_year_none (v : pyval) :
  fst (to_iso_and_year v) = None <-> snd (to_iso_and_year v) = None.
Proof.
  unfold to_iso_and_year. destruct (int v) as [n |]; [| tauto].
  destruct (utcfromtimestamp n); cbn [fst snd]; [| tauto]. split; discriminate.
Qed.



End TimeFacts.

(** ** The corpus: deduplication and year partitions *)
Module CorpusFacts.
Import Py Extract.

Section WithLib.
Context {L : Lib}.

Lemma build_id mid d m : build mid d = Ok m -> doc_id m = mid.
Proof.
  unfold build.
  destruct (stripped (get d "subject")); cbn [rbind]; [| discriminate].
  destruct (stripped _); cbn [rbind]; [| discriminate].
  destruct (to_iso_and_year _).
  destruct (email_to_text_val _); cbn [rbind]; [| discriminate].
  intros [= <-]. reflexivity.
Qed.

(** What one turn of the loop can do: nothing, or append one message. *)
Lemma step_cases st d st' :
  step st d = Ok st' ->
  (st' = st /\ (record_id d = None \/ exists i, record_id d = Some i /\ i ∈ seen st))
  \/ (exists m,
        record_id d = Some (doc_id m) /\ (doc_id m ∉ seen st) /\ build (doc_id m) d = Ok m
        /\ st' = {| seen := {[doc_id m]} ∪ seen st;
                    out := (out st ++ [m])%list;
                    per_year := match doc_year m with
                                | Some y => per_year_add y m (per_year st)
                                | None => per_year st
                                end;
                    count := S (count st) |}).
Proof.
  unfold step, record_id. destruct (rejected d).
  - intros [= <-]. left. auto.
  - destruct (decide (str (mid_of d) ∈ seen st)) as [Hin | Hnin].
    + intros [= <-]. left. split; [reflexivity |]. right. eauto.
    + destruct (build (str (mid_of d)) d) as [m |] eqn:Hb; cbn [rbind]; [| discriminate].
      intros [= <-]. right. exists m.
      rewrite (build_id _ _ _ Hb). auto.
Qed.

(** An invariant of the loop that may mention the records passed so far. *)
Lemma loop_prefix_invariant (Q : list pydict -> state -> Prop) :
  (forall done st d st', Q done st -> step st d = Ok st' -> Q (done ++ [d])%list st') ->
  forall ds done st,
    Q done st ->
    exists done' rest, (done ++ ds = done' ++ rest)%list /\ Q done' (fst (loop st ds)).
Proof.
  intros Hstep ds. induction ds as [| d ds IH]; intros done st HQ.
  - exists done, []. auto.
  - cbn [loop]. destruct (step st d) as [st' |] eqn:Hs.
    + destruct (IH (done ++ [d])%list st' (Hstep _ _ _ _ HQ Hs)) as (done' & rest & Heq & HQ').
      exists done', rest. rewrite <- Heq, <- app_assoc. auto.
    + exists done, (d :: ds). auto.
Qed.

Lemma loop_ids (ds : list pydict) :
  exists done rest,
    ds = (done ++ rest)%list
    /\ (forall i, i ∈ seen (fst (loop initial ds)) <-> i ∈ map doc_id (out (fst (loop initial ds))))
    /\ NoDup (map doc_id (out (fst (loop initial ds))))
    /\ (forall m, m ∈ out (fst (loop initial ds)) ->
          exists pre d post,
            done = (pre ++ d :: post)%list /\ record_id d = Some (doc_id m)
            /\ (forall d', d' ∈ pre -> record_id d' <> Some (doc_id m))
            /\ build (doc_id m) d = Ok m)
    /\ (forall d i, d ∈ done -> record_id d = Some i -> i ∈ seen (fst (loop initial ds))).
Proof.
  pose (Q := fun (done : list pydict) (st : state) =>
    (forall i, i ∈ seen st <-> i ∈ map doc_id (out st))
    /\ NoDup (map doc_id (out st))
    /\ (forall m, m ∈ out st ->
          exists pre d post,
            done = (pre ++ d :: post)%list /\ record_id d = Some (doc_id m)
            /\ (forall d', d' ∈ pre -> record_id d' <> Some (doc_id m))
            /\ build (doc_id m) d = Ok m)
    /\ (forall d i, d ∈ done -> record_id d = Some i -> i ∈ seen st)).
  destruct (loop_prefix_invariant Q) with (ds := ds) (done := @nil pydict) (st := initial)
    as (done & rest & Heq & HQ).
  - clear. intros done st d st' (Hseen & Hnd & Hfirst & Hdone) Hs.
    destruct (step_cases _ _ _ Hs) as [[-> Hid] | (m & Hid & Hnew & Hb & ->)].
    + refine (conj Hseen (conj Hnd (conj _ _))).
      * intros m Hm. destruct (Hfirst m Hm) as (pre & d0 & post & -> & H1 & H2 & H3).
        exists pre, d0, (post ++ [d])%list. rewrite <- app_assoc. auto.
      * intros d0 i [Hd | ->%list_elem_of_singleton]%elem_of_app Hi; [eauto |].
        destruct Hid as [Hn | (j & Hj & Hin)]; congruence.
    + cbn [seen out].
      assert (Hseen' : forall i, i ∈ {[doc_id m]} ∪ seen st <-> i ∈ map doc_id (out st ++ [m])%list).
      { intros i. rewrite map_app, elem_of_app, elem_of_union, elem_of_singleton, <- Hseen.
        cbn [map]. rewrite list_elem_of_singleton. tauto. }
      refine (conj Hseen' (conj _ (conj _ _))); cbn [seen out].
      * rewrite map_app. apply NoDup_app. split; [exact Hnd |]. split.
        -- intros i Hi Him. cbn [map] in Him. apply list_elem_of_singleton in Him.
           subst i. apply Hnew, Hseen, Hi.
        -- apply NoDup_singleton.
      * intros m' [Hm' | ->%list_elem_of_singleton]%elem_of_app.
        -- destruct (Hfirst m' Hm') as (pre & d0 & post & -> & H1 & H2 & H3).
           exists pre, d0, (post ++ [d])%list. rewrite <- app_assoc. auto.
        -- exists done, d, []. repeat split; auto.
           intros d' Hd' Hid'. apply Hnew. eauto.
      * intros d0 i [Hd | ->%list_elem_of_singleton]%elem_of_app Hi.
        -- apply elem_of_union. right. eauto.
        -- apply elem_of_union. left. apply elem_of_singleton. congruence.
  - subst Q. cbn. refine (conj _ (conj _ (conj _ _))).
    + intros i. split; [intros []%elem_of_empty | intros []%elem_of_nil].
    + apply NoDup_nil_2.
    + intros ? []%elem_of_nil.
    + intros ? ? []%elem_of_nil.
  - exists done, rest. cbn [app] in Heq. subst Q. cbn beta in HQ. tauto.
Qed.

Lemma main_messages (datas : list pyval) :
  messages_ndjson (fst (main datas)) = out (fst (loop initial (records datas))).
Proof.
  unfold main. destruct (loop initial (records datas)) as [st [e |]]; reflexivity.
Qed.


(** *** Year partitions *)

Lemma per_year_add_keys y m py :
  map fst (per_year_add y m py)
  = if decide (y ∈ map fst py) then map fst py else (map fst py ++ [y])%list.
Proof.
  induction py as [| [y' ms] py IH]; [reflexivity |].
  cbn [per_year_add map fst]. destruct (y' =? y) eqn:E.
  - apply Z.eqb_eq in E. subst y'. cbn [map fst].
    rewrite decide_True by (apply elem_of_cons; auto). reflexivity.
  - apply Z.eqb_neq in E. cbn [map fst]. rewrite IH.
    destruct (decide (y ∈ map fst py)) as [Hin | Hnin].
    + rewrite decide_True by (apply elem_of_cons; auto). reflexivity.
    + rewrite decide_False; [reflexivity |].
      intros [? | ?]%elem_of_cons; [congruence | contradiction].
Qed.

Lemma per_year_add_nodup y m py :
  NoDup (map fst py) -> NoDup (map fst (per_year_add y m py)).
Proof.
  intros Hnd. rewrite per_year_add_keys.
  destruct (decide (y ∈ map fst py)) as [Hin | Hnin]; [exact Hnd |].
  apply NoDup_app. split; [exact Hnd |]. split; [| apply NoDup_singleton].
  intros x Hx ->%list_elem_of_singleton. contradiction.
Qed.

(** The messages filed under a year after [setdefault(...).append]. *)
Lemma per_year_add_elem y m py y' x :
  (exists ms, (y', ms) ∈ per_year_add y m py /\ x ∈ ms)
  <-> (exists ms, (y', ms) ∈ py /\ x ∈ ms) \/ (y' = y /\ x = m).
Proof.
  induction py as [| [y0 ms0] py IH]; cbn [per_year_add].
  - split.
    + intros (ms & [= -> ->]%list_elem_of_singleton & ->%list_elem_of_singleton). auto.
    + intros [(ms & []%elem_of_nil & _) | [-> ->]].
      exists [m]. split; apply list_elem_of_singleton; reflexivity.
  - destruct (y0 =? y) eqn:E.
    + apply Z.eqb_eq in E. subst y0. split.
      * intros (ms & [[= -> ->] | Hin]%elem_of_cons & Hx).
        -- apply elem_of_app in Hx as [Hx | ->%list_elem_of_singleton]; [| auto].
           left. exists ms0. split; [apply elem_of_cons; auto | exact Hx].
        -- left. exists ms. split; [apply elem_of_cons; auto | exact Hx].
      * intros [(ms & [[= -> ->] | Hin]%elem_of_cons & Hx) | [-> ->]].
        -- exists (ms0 ++ [m])%list. split; [apply elem_of_cons; auto |].
           apply elem_of_app; auto.
        -- exists ms. split; [apply elem_of_cons; auto | exact Hx].
        -- exists (ms0 ++ [m])%list. split; [apply elem_of_cons; auto |].
           apply elem_of_app. right. apply list_elem_of_singleton. reflexivity.
    + split.
      * intros (ms & [[= -> ->] | Hin]%elem_of_cons & Hx).
        -- left. exists ms0. split; [apply elem_of_cons; auto | exact Hx].
        -- destruct (proj1 IH (ex_intro _ ms (conj Hin Hx))) as [(ms' & H1 & H2) | H]; [| auto].
           left. exists ms'. split; [apply elem_of_cons; auto | exact H2].
      * intros [(ms & [[= -> ->] | Hin]%elem_of_cons & Hx) | H].
        -- exists ms0. split; [apply elem_of_cons; auto | exact Hx].
        -- destruct (proj2 IH (or_introl (ex_intro _ ms (conj Hin Hx)))) as (ms' & H1 & H2).
           exists ms'. split; [apply elem_of_cons; auto | exact H2].
        -- destruct (proj2 IH (or_intror H)) as (ms' & H1 & H2).
           exists ms'. split; [apply elem_of_cons; auto | exact H2].
Qed.

(** The year dict holds exactly the messages written that have a year,
    each under its own year. *)
Lemma loop_years (ds : list pydict) :
  NoDup (map fst (per_year (fst (loop initial ds))))
  /\ forall y m,
       (exists ms, (y, ms) ∈ per_year (fst (loop initial ds)) /\ m ∈ ms)
       <-> m ∈ out (fst (loop initial ds)) /\ doc_year m = Some y.
Proof.
  pose (Q := fun (_ : list pydict) (st : state) =>
    NoDup (map fst (per_year st))
    /\ forall y m,
         (exists ms, (y, ms) ∈ per_year st /\ m ∈ ms) <-> m ∈ out st /\ doc_year m = Some y).
  destruct (loop_prefix_invariant Q) with (ds := ds) (done := @nil pydict) (st := initial)
    as (done & rest & _ & HQ); [| | exact HQ].
  - clear. intros done st d st' (Hnd & Hel) Hs.
    destruct (step_cases _ _ _ Hs) as [[-> _] | (m & _ & _ & _ & ->)]; [split; assumption |].
    split; cbn [per_year out].
    + destruct (doc_year m); [apply per_year_add_nodup |]; exact Hnd.
    + intros y x. rewrite elem_of_app, list_elem_of_singleton.
      destruct (doc_year m) as [ym |] eqn:Ey.
      * rewrite per_year_add_elem, Hel. split.
        -- intros [[? ?] | [-> ->]]; auto.
        -- intros [[? | ->] Hy]; [auto |]. right. split; congruence.
      * rewrite Hel. split.
        -- intros [? ?]; auto.
        -- intros [[? | ->] Hy]; [auto | congruence].
  - split; [apply NoDup_nil_2 |]. intros y m. cbn. split.
    + intros (ms & []%elem_of_nil & _).
    + intros [[]%elem_of_nil _].
Qed.


End WithLib.


End CorpusFacts.

(** ** Regular expressions over one character class *)
Module ReFacts.
Import Py Re Spec.

Lemma drop_run_length p s : (String.length (drop_run p s) <= String.length s)%nat.
Proof.
  induction s as [| c s IH]; [reflexivity |].
  cbn [drop_run]. destruct (p c); cbn [String.length]; lia.
Qed.

Lemma run_plus p c s :
  run (Plus p) Some (String c s) = if p c then Some (drop_run p s) else None.
Proof.
  cbn [run]. destruct (p c); [| reflexivity].
  induction s as [| a s IH]; [reflexivity |].
  cbn [drop_run]. destruct (p a); [| reflexivity]. rewrite IH. reflexivity.
Qed.

Lemma match_len_plus p c s :
  match_len (Plus p) (String c s)
  = if p c then Some (S (String.length s - String.length (drop_run p s))) else None.
Proof.
  unfold match_len. rewrite run_plus. destruct (p c); [| reflexivity].
  pose proof (drop_run_length p s). cbn [String.length]. f_equal. lia.
Qed.

Lemma match_len_plus_empty p : match_len (Plus p) EmptyString = None.
Proof. reflexivity. Qed.

(** Skipping characters of the class changes nothing in what is left. *)
Lemma sub_plus_skip p (s : string) :
  forall k, (String.length s - String.length (drop_run p s) >= k)%nat ->
            sub_skip (Plus p) EmptyString k s = remove_chars p s.
Proof.
  induction s as [| c s IH]; intros k Hk.
  - cbn [sub_skip]. rewrite match_len_plus_empty. destruct k; reflexivity.
  - cbn [sub_skip remove_chars]. destruct k as [| k].
    + rewrite match_len_plus. destruct (p c).
      * cbn [String.append]. apply IH. lia.
      * rewrite IH by lia. reflexivity.
    + cbn [drop_run String.length] in Hk. destruct (p c).
      * apply IH. pose proof (drop_run_length p s). lia.
      * cbn [String.length] in Hk. lia.
Qed.

(** [re.sub(r"[class]+", "", s)] removes the characters of the class. *)
Lemma sub_plus_removes p s : sub (Plus p) EmptyString s = remove_chars p s.
Proof. apply sub_plus_skip. lia. Qed.

(** [re.search(r"[class]", s)] finds a character of the class. *)
Lemma search_chr p s : search (Chr p) s = negb (all_chars (fun c => negb (p c)) s).
Proof.
  induction s as [| c s IH]; [reflexivity |].
  cbn [search all_chars]. unfold match_len. cbn [run].
  destruct (p c); [reflexivity |]. exact IH.
Qed.

Lemma all_chars_negb_negb p s : all_chars (fun c => negb (negb (p c))) s = all_chars p s.
Proof.
  induction s as [| c s IH]; [reflexivity |].
  cbn [all_chars]. rewrite negb_involutive, IH. reflexivity.
Qed.

End ReFacts.

(** ** Thread keys, the thread sort, navigation, the base64 heuristic *)
Module BrowseFacts.
Import Py Re Browse Spec ReFacts.

(** *** Thread keys *)

(** C2, as the code has it: with no thread field and no references header,
    a root gets its own id, a reply gets the id its in-reply-to header names;
    so in a chain A, B, C the messages A and B get A's id and C gets B's id.
    The header is not followed beyond the direct parent. *)
Theorem reply_chain_thread_keys (mid_a mid_b mid_c ida idb : string) (a b c : pydict) :
  thread_fields a = [] -> thread_fields b = [] -> thread_fields c = [] ->
  truthy (references_of a) = false ->
  truthy (references_of b) = false ->
  truthy (references_of c) = false ->
  truthy (in_reply_to a) = false ->
  or_none (_norm_msgid (message_id a)) = Some ida ->
  or_none (_norm_msgid (message_id b)) = Some idb ->
  truthy (in_reply_to b) = true ->
  or_none (_norm_msgid (in_reply_to b)) = Some ida ->
  truthy (in_reply_to c) = true ->
  or_none (_norm_msgid (in_reply_to c)) = Some idb ->
  thread_key mid_a a = ida /\ thread_key mid_b b = ida /\ thread_key mid_c c = idb.
Proof.
  intros Ta Tb Tc Ra Rb Rc Ia Ma Mb Ib Nb Ic Nc.
  assert (Hnn : forall s k, or_none s = Some k -> or_none (Some k) = Some k).
  { intros [s |] k; cbn; [| discriminate].
    destruct (String.eqb s EmptyString) eqn:E; [discriminate |].
    intros [= <-]. rewrite E. reflexivity. }
  unfold thread_key, _thread_key_from_doc.
  rewrite Ta, Tb, Tc, Ra, Rb, Rc, Ia, Ib, Ic, Ma, Nb, Nc.
  rewrite (Hnn _ _ Ma), (Hnn _ _ Nc). auto.
Qed.

Lemma reply_chain_thread_keys_witness :
  thread_key "A" [("id", PStr "A")] = "A"
  /\ thread_key "B" [("id", PStr "B"); ("in-reply-to", PStr "<A>")] = "A"
  /\ thread_key "C" [("id", PStr "C"); ("in-reply-to", PStr "<B>")] = "B".
Proof.
  apply (reply_chain_thread_keys "A" "B" "C" "A" "B"); vm_compute; reflexivity.
Defined.

(** C2, the claim as stated fails: C, whose in-reply-to header names B,
    gets the thread key "B" and not A's id, and is grouped apart from A
    and B. *)
Lemma reply_chain_is_split :
  thread_key "A" [("id", PStr "A")] = "A"
  /\ thread_key "B" [("id", PStr "B"); ("in-reply-to", PStr "A")] = "A"
  /\ thread_key "C" [("id", PStr "C"); ("in-reply-to", PStr "B")] = "B"
  /\ map fst (group_threads
                [("A", [("id", PStr "A")]);
                 ("B", [("id", PStr "B"); ("in-reply-to", PStr "A")]);
                 ("C", [("id", PStr "C"); ("in-reply-to", PStr "B")])])
     = ["A"; "B"].
Proof. repeat split; vm_compute; reflexivity. Qed.

(** *** The thread sort *)

(** C6, at the failing input: a thread that holds a message whose
    timestamp parses and one whose timestamp does not (or is missing) cannot
    be sorted; [sorted] raises TypeError in either order. *)
Theorem sorted_mixed_keys_raises {L : Lib} (x y : item) (d : pydatetime) (s : string) :
  _date_sort_key x = KDate d -> _date_sort_key y = KStr s ->
  sorted [x; y] = Raise TypeError /\ sorted [y; x] = Raise TypeError.
Proof.
  intros Hx Hy. unfold sorted. cbn [fold_left rbind insert_sorted].
  rewrite Hx, Hy. cbn. auto.
Qed.

Lemma sorted_mixed_keys_raises_witness :
  @sorted Examples.browse_lib
    [("1", [("id", PStr "1"); ("timestamp", PStr "2001-09-09T01:46:40Z")]);
     ("2", [("id", PStr "2"); ("timestamp", PNone)])] = Raise TypeError
  /\ @sorted Examples.browse_lib
       [("2", [("id", PStr "2"); ("timestamp", PNone)]);
        ("1", [("id", PStr "1"); ("timestamp", PStr "2001-09-09T01:46:40Z")])] = Raise TypeError.
Proof.
  apply (@sorted_mixed_keys_raises Examples.browse_lib _ _
           {| aware := true; instant := 1000000000 |} EmptyString);
    vm_compute; reflexivity.
Defined.

(** In a run: message 5 has no timestamp, message 7 has one and is filed
    under topic 5 in the out/by_year index.  Both land in thread 5, whose
    sort raises, and no in-thread link is computed at all. *)
Lemma thread_links_raise_on_mixed_thread :
  @prev_next_in_thread Examples.browse_lib Examples.topic_index Examples.topic_docs
  = Raise TypeError.
Proof. vm_compute. reflexivity. Qed.

(** *** Navigation *)

Lemma index_from_lookup (mids : list string) :
  NoDup mids ->
  forall i acc m j,
    index_from i mids acc !! m = Some j <->
    (exists k, mids !! k = Some m /\ j = (i + k)%nat) \/ ((m ∉ mids) /\ acc !! m = Some j).
Proof.
  induction 1 as [| x mids Hx Hnd IH]; intros i acc m j; cbn [index_from].
  - split.
    + intros H. right. split; [apply not_elem_of_nil | exact H].
    + intros [(k & Hk & _) | [_ H]]; [discriminate Hk | exact H].
  - rewrite IH. split.
    + intros [(k & Hk & ->) | [Hm Hl]].
      * left. exists (S k). split; [exact Hk | lia].
      * destruct (decide (x = m)) as [-> | Hne].
        -- rewrite lookup_insert_eq in Hl. injection Hl as <-.
           left. exists O. split; [reflexivity | lia].
        -- rewrite lookup_insert_ne in Hl by exact Hne.
           right. split; [| exact Hl].
           intros [-> | ?]%elem_of_cons; [congruence | contradiction].
    + intros [(k & Hk & ->) | [Hm Hl]].
      * destruct k as [| k].
        -- injection Hk as ->. right. split; [exact Hx |].
           rewrite lookup_insert_eq. f_equal. lia.
        -- left. exists k. split; [exact Hk | lia].
      * right. apply not_elem_of_cons in Hm as [Hne Hm]. split; [exact Hm |].
        rewrite lookup_insert_ne by congruence. exact Hl.
Qed.

Lemma mid_to_index_lookup (mids : list string) m j :
  NoDup mids -> mid_to_index mids !! m = Some j <-> mids !! j = Some m.
Proof.
  intros Hnd. unfold mid_to_index. rewrite (index_from_lookup mids Hnd). split.
  - intros [(k & Hk & ->) | [_ H]]; [exact Hk | rewrite lookup_empty in H; discriminate].
  - intros H. left. exists j. auto.
Qed.

Lemma next_prev_chrono (mids : list string) (A B : string) :
  NoDup mids -> next_mid mids A = Some B -> prev_mid mids B = Some A.
Proof.
  intros Hnd. unfold next_mid, prev_mid.
  destruct (mid_to_index mids !! A) as [idx |] eqn:HA; [| discriminate].
  destruct (idx <? length mids - 1)%nat; [| discriminate].
  intros HB. apply (mid_to_index_lookup mids A idx Hnd) in HA.
  apply (mid_to_index_lookup mids B (idx + 1) Hnd) in HB. rewrite HB.
  replace (0 <? idx + 1)%nat with true by (symmetry; apply Nat.ltb_lt; lia).
  replace (idx + 1 - 1)%nat with idx by lia. exact HA.
Qed.


(** *** In-thread links *)

Section WithLib.
Context {L : Lib}.

Lemma full_docs_mids index docs fd :
  full_docs index docs = Ok fd -> ordered_mids docs = Ok (map fst fd).
Proof.
  revert fd. induction docs as [| d docs IH]; intros fd; cbn [full_docs ordered_mids].
  - intros [= <-]. reflexivity.
  - unfold full_doc. destruct (compute_mid d) as [mid |]; cbn [rbind]; [| discriminate].
    destruct (first_entry _ _); cbn [rbind];
      (destruct (full_docs index docs) as [rest |]; cbn [rbind]; [| discriminate]);
      intros [= <-]; rewrite (IH rest eq_refl); reflexivity.
Qed.

Lemma threads_add_items tkey it ts :
  concat (map snd (threads_add tkey it ts)) ≡ₚ concat (map snd ts) ++ [it].
Proof.
  induction ts as [| [k its] ts IH]; cbn [threads_add]; [reflexivity |].
  destruct (String.eqb k tkey); cbn [map snd concat].
  - rewrite <- !app_assoc. apply Permutation_app_head, Permutation_app_comm.
  - rewrite IH, app_assoc. reflexivity.
Qed.

Lemma group_threads_items fd : concat (map snd (group_threads fd)) ≡ₚ fd.
Proof.
  unfold group_threads.
  enough (H : forall ts, concat (map snd (fold_left
              (fun ts it => threads_add (thread_key (fst it) (snd it)) it ts) fd ts))
            ≡ₚ concat (map snd ts) ++ fd) by apply (H []).
  induction fd as [| it fd IH]; intros ts; cbn [fold_left].
  - rewrite app_nil_r. reflexivity.
  - rewrite IH, threads_add_items, <- app_assoc. reflexivity.
Qed.

Lemma insert_sorted_perm x l r : insert_sorted x l = Ok r -> r ≡ₚ x :: l.
Proof.
  revert r. induction l as [| y l IH]; intros r; cbn [insert_sorted].
  - intros [= <-]. reflexivity.
  - destruct (key_lt _ _) as [[|] |]; cbn [rbind]; [| | discriminate].
    + intros [= <-]. reflexivity.
    + destruct (insert_sorted x l) as [r' |]; cbn [rbind]; [| discriminate].
      intros [= <-]. rewrite (IH r' eq_refl). apply Permutation_swap.
Qed.

Lemma sorted_perm l s : sorted l = Ok s -> s ≡ₚ l.
Proof.
  unfold sorted.
  enough (H : forall acc, fold_left (fun acc x => rbind acc (fun a => insert_sorted x a)) l acc = Ok s ->
                          exists a, acc = Ok a /\ s ≡ₚ a ++ l).
  { intros Hs. destruct (H _ Hs) as (a & [= <-] & Hp). exact Hp. }
  induction l as [| x l IH]; intros acc; cbn [fold_left].
  - intros ->. exists s. rewrite app_nil_r. auto.
  - intros Hs. destruct (IH _ Hs) as (a' & Ha' & Hp).
    destruct acc as [a |]; cbn [rbind] in Ha'; [| discriminate].
    exists a. split; [reflexivity |].
    rewrite Hp, (insert_sorted_perm _ _ _ Ha'). 
    cbn [app]. apply Permutation_middle.
Qed.


Lemma thread_links_keys prev s : map fst (thread_links prev s) = s.
Proof.
  revert prev. induction s as [| m s IH]; intros prev; [reflexivity |].
  cbn [thread_links map fst]. rewrite IH. reflexivity.
Qed.

(** In one thread, the entry of the message after [A] names [A] as the one
    before. *)
Lemma thread_links_adjacent prev s A B p :
  (A, (p, Some B)) ∈ thread_links prev s ->
  exists n, (B, (Some A, n)) ∈ thread_links prev s.
Proof.
  revert prev. induction s as [| m s IH]; intros prev; cbn [thread_links].
  - intros []%elem_of_nil.
  - intros [[= -> -> Hh] | Hin]%elem_of_cons.
    + destruct s as [| b s]; [discriminate |]. injection Hh as ->.
      exists (head s). apply elem_of_cons. right. cbn [thread_links].
      apply elem_of_cons. left. reflexivity.
    + destruct (IH _ Hin) as (n & Hn). exists n. apply elem_of_cons. auto.
Qed.

Lemma record_links_lookup l :
  NoDup (map fst l) ->
  forall pn k v,
    record_links pn l !! k = Some v <->
    (k, v) ∈ l \/ ((k ∉ map fst l) /\ pn !! k = Some v).
Proof.
  unfold record_links.
  induction l as [| [k0 v0] l IH]; intros Hnd pn k v; cbn [fold_left map fst snd].
  - split.
    + intros H. right. split; [apply not_elem_of_nil | exact H].
    + intros [[]%elem_of_nil | [_ H]]; exact H.
  - apply NoDup_cons in Hnd as [Hk0 Hnd]. rewrite (IH Hnd). split.
    + intros [Hin | [Hk Hl]].
      * left. apply elem_of_cons. auto.
      * destruct (decide (k0 = k)) as [-> | Hne].
        -- rewrite lookup_insert_eq in Hl. injection Hl as ->.
           left. apply elem_of_cons. auto.
        -- rewrite lookup_insert_ne in Hl by exact Hne.
           right. split; [| exact Hl].
           intros [-> | ?]%elem_of_cons; [congruence | contradiction].
    + intros [[[= -> ->] | Hin]%elem_of_cons | [Hk Hl]].
      * right. split; [exact Hk0 | apply lookup_insert_eq].
      * left. exact Hin.
      * apply not_elem_of_cons in Hk as [Hne Hk]. right. split; [exact Hk |].
        rewrite lookup_insert_ne by congruence. exact Hl.
Qed.

Lemma record_links_app pn l1 l2 :
  record_links (record_links pn l1) l2 = record_links pn (l1 ++ l2).
Proof. unfold record_links. rewrite fold_left_app. reflexivity. Qed.

(** What [link_threads] builds: the links of every thread, each sorted
    thread being a rearrangement of the thread's ids. *)
Lemma link_threads_links ts :
  forall pn pn',
    link_threads pn ts = Ok pn' ->
    exists ss : list (list string),
      concat ss ≡ₚ map fst (concat (map snd ts))
      /\ pn' = record_links pn (concat (map (thread_links None) ss)).
Proof.
  induction ts as [| [k items] ts IH]; intros pn pn'; cbn [link_threads].
  - intros [= <-]. exists []. split; reflexivity.
  - destruct (sorted items) as [s |] eqn:Hs; cbn [rbind]; [| discriminate].
    intros H. destruct (IH _ _ H) as (ss & Hp & ->).
    exists (map fst s :: ss). split.
    + cbn [concat map snd]. rewrite map_app, Hp, (sorted_perm _ _ Hs). reflexivity.
    + cbn [map concat]. rewrite record_links_app. reflexivity.
Qed.

Lemma concat_links_keys ss :
  map fst (concat (map (thread_links None) ss)) = concat ss.
Proof.
  induction ss as [| s ss IH]; [reflexivity |].
  cbn [map concat]. rewrite map_app, thread_links_keys, IH. reflexivity.
Qed.

Lemma concat_links_adjacent ss A B p :
  (A, (p, Some B)) ∈ concat (map (thread_links None) ss) ->
  exists n, (B, (Some A, n)) ∈ concat (map (thread_links None) ss).
Proof.
  induction ss as [| s ss IH]; cbn [map concat].
  - intros []%elem_of_nil.
  - intros [Hin | Hin]%elem_of_app.
    + destruct (thread_links_adjacent _ _ _ _ _ Hin) as (n & Hn).
      exists n. apply elem_of_app. auto.
    + destruct (IH Hin) as (n & Hn). exists n. apply elem_of_app. auto.
Qed.

Lemma next_prev_in_thread index docs mids pn (A B : string) :
  ordered_mids docs = Ok mids -> NoDup mids ->
  prev_next_in_thread index docs = Ok pn ->
  next_in_thread pn A = Some B -> prev_in_thread pn B = Some A.
Proof.
  intros Hm Hnd. unfold prev_next_in_thread.
  destruct (full_docs index docs) as [fd |] eqn:Hfd; cbn [rbind]; [| discriminate].
  rewrite (full_docs_mids _ _ _ Hfd) in Hm. injection Hm as <-.
  intros Hl. destruct (link_threads_links _ _ _ Hl) as (ss & Hp & ->).
  rewrite group_threads_items in Hp.
  assert (Hk : NoDup (map fst (concat (map (thread_links None) ss)))).
  { rewrite concat_links_keys, Hp. exact Hnd. }
  unfold next_in_thread, prev_in_thread.
  destruct (record_links ∅ _ !! A) as [[p n] |] eqn:HA; [| discriminate].
  intros ->. apply (record_links_lookup _ Hk) in HA as [HA | [_ HA]];
    [| rewrite lookup_empty in HA; discriminate].
  destruct (concat_links_adjacent _ _ _ _ HA) as (n & Hn).
  rewrite (proj2 (record_links_lookup _ Hk ∅ B (Some A, n)) (or_introl Hn)). reflexivity.
Qed.


(** C7, as the code has it: when the ids computed for the docs are
    pairwise distinct, the message after A in emission order has A before
    it, and, once the in-thread links have been computed, the message after
    A in its thread has A before it. *)
Theorem navigation_symmetric index (docs : list pydict) (mids : list string) (A B : string) :
  ordered_mids docs = Ok mids -> NoDup mids ->
  (next_mid mids A = Some B -> prev_mid mids B = Some A)
  /\ (forall pn, prev_next_in_thread index docs = Ok pn ->
                 next_in_thread pn A = Some B -> prev_in_thread pn B = Some A).
Proof.
  intros Hm Hnd. split.
  - apply next_prev_chrono, Hnd.
  - intros pn. apply (next_prev_in_thread index docs mids); assumption.
Qed.

End WithLib.

(** Two docs of one thread: B follows A in both orders. *)
Lemma navigation_symmetric_witness :
  (@ordered_mids Examples.browse_lib Examples.two_docs = Ok ["A"; "B"]
   /\ next_mid ["A"; "B"] "A" = Some "B"
   /\ option_map (fun pn => next_in_thread pn "A")
         (match @prev_next_in_thread Examples.browse_lib ∅ Examples.two_docs with
          | Ok pn => Some pn
          | Raise _ => None
          end) = Some (Some "B"))
  /\ ((next_mid ["A"; "B"] "A" = Some "B" -> prev_mid ["A"; "B"] "B" = Some "A")
      /\ (forall pn, @prev_next_in_thread Examples.browse_lib ∅ Examples.two_docs = Ok pn ->
                     next_in_thread pn "A" = Some "B" -> prev_in_thread pn "B" = Some "A")).
Proof.
  split; [repeat split; vm_compute; reflexivity |].
  apply (@navigation_symmetric Examples.browse_lib ∅ Examples.two_docs ["A"; "B"] "A" "B").
  - vm_compute. reflexivity.
  - apply NoDup_cons. split; [| apply NoDup_singleton].
    intros [=]%list_elem_of_singleton.
Defined.

(** C7, the claim as stated fails: the ids "b" and "<b>" of two docs are
    distinct, yet both are filed as b.  The message after a is then b, and
    the message before b is c. *)
Lemma navigation_not_symmetric :
  @ordered_mids Examples.browse_lib
     [[("id", PStr "a")]; [("id", PStr "b")]; [("id", PStr "c")]; [("id", PStr "<b>")]]
    = Ok ["a"; "b"; "c"; "b"]
  /\ next_mid ["a"; "b"; "c"; "b"] "a" = Some "b"
  /\ prev_mid ["a"; "b"; "c"; "b"] "b" = Some "c".
Proof. repeat split; vm_compute; reflexivity. Qed.

(** *** The whole-string base64 heuristic *)


(** The base64 text of "Hello, world!", broken over two lines, is decoded;
    a text of fewer than 16 characters and a text with a character outside
    the alphabet are not. *)
Lemma base64_heuristic_examples :
  @_try_decode_base64_heuristic Examples.browse_lib
     (PStr ("SGVsbG8sIHdv" ++ str1 LF ++ "cmxkIQ==")) = Some "Hello, world!"
  /\ @_try_decode_base64_heuristic Examples.browse_lib (PStr "SGVsbG8=") = None
  /\ @_try_decode_base64_heuristic Examples.browse_lib (PStr "Hello, world! How are you?") = None
  /\ @body_after_heuristic Examples.browse_lib (Some "text") "Hello, world! How are you?"
     = TryMime "Hello, world! How are you?".
Proof. repeat split; vm_compute; reflexivity. Qed.

End BrowseFacts.

(** ** More on the corpus builder *)
Module CorpusMore.
Import Py Re Extract Spec Words PyFacts ReFacts CorpusFacts.

(** *** Trimming *)

Lemma lstrip_by_head p c s : p c = false -> lstrip_by p (String c s) = String c s.
Proof. intros H. cbn [lstrip_by]. rewrite H. reflexivity. Qed.

Lemma lstrip_by_cases p s :
  lstrip_by p s = EmptyString \/ exists c t, lstrip_by p s = String c t /\ p c = false.
Proof.
  induction s as [| c s IH]; [left; reflexivity |].
  cbn [lstrip_by]. destruct (p c) eqn:E; [exact IH |]. right. eauto.
Qed.

Lemma rstrip_by_head p c s :
  p c = false -> exists t, rstrip_by p (String c s) = String c t.
Proof. intros H. cbn [rstrip_by]. rewrite H. cbn [andb]. eauto. Qed.

Lemma rstrip_by_idem p s : rstrip_by p (rstrip_by p s) = rstrip_by p s.
Proof.
  induction s as [| c s IH]; [reflexivity |].
  cbn [rstrip_by]. destruct (p c && String.eqb (rstrip_by p s) EmptyString) eqn:E;
    [reflexivity |].
  cbn [rstrip_by]. rewrite IH, E. reflexivity.
Qed.

(** A text trimmed at both ends is not changed by trimming it again. *)
Lemma strip_by_idem p s :
  rstrip_by p (lstrip_by p (rstrip_by p (lstrip_by p s))) = rstrip_by p (lstrip_by p s).
Proof.
  destruct (lstrip_by_cases p s) as [-> | (c & t & -> & Hc)]; [reflexivity |].
  destruct (rstrip_by_head p c t Hc) as (t' & Ht). rewrite Ht.
  rewrite (lstrip_by_head p c t' Hc), <- Ht. apply rstrip_by_idem.
Qed.

Lemma strip_idem s : strip (strip s) = strip s.
Proof. apply strip_by_idem. Qed.

(** *** What a substitution can put into a text *)

Lemma all_chars_app q s t : all_chars q (s ++ t) = all_chars q s && all_chars q t.
Proof.
  induction s as [| c s IH]; [reflexivity |].
  simpl. rewrite IH, andb_assoc. reflexivity.
Qed.

Lemma all_chars_lstrip q p s : all_chars q s = true -> all_chars q (lstrip_by p s) = true.
Proof.
  induction s as [| c s IH]; [reflexivity |].
  cbn [lstrip_by]. destruct (p c); [| trivial].
  cbn [all_chars]. intros [_ H]%andb_true_iff. auto.
Qed.

Lemma all_chars_rstrip q p s : all_chars q s = true -> all_chars q (rstrip_by p s) = true.
Proof.
  induction s as [| c s IH]; [reflexivity |].
  cbn [rstrip_by all_chars]. intros [Hc H]%andb_true_iff.
  destruct (p c && _); [reflexivity |]. cbn [all_chars]. rewrite Hc, (IH H). reflexivity.
Qed.

(** A substitution puts together characters of the text and of the
    replacement. *)
Lemma sub_skip_chars q r repl s :
  all_chars q repl = true -> all_chars q s = true ->
  forall k, all_chars q (sub_skip r repl k s) = true.
Proof.
  intros Hr. induction s as [| c s IH]; intros Hs k; cbn [sub_skip].
  - destruct k; [| reflexivity]. destruct (match_len r EmptyString); [exact Hr | reflexivity].
  - cbn [all_chars] in Hs. apply andb_true_iff in Hs as [Hc Hs].
    destruct k as [| k]; [| auto].
    destruct (match_len r (String c s)) as [[| n] |].
    + rewrite all_chars_app, Hr. cbn [all_chars andb]. rewrite Hc. cbn [andb]. auto.
    + rewrite all_chars_app, Hr. cbn [andb]. auto.
    + cbn [all_chars]. rewrite Hc. cbn [andb]. auto.
Qed.

(** Replacing the runs of a class leaves no character of the class but
    those of the replacement. *)
Lemma sub_plus_chars q p repl s :
  (forall c, p c = false -> q c = true) -> all_chars q repl = true ->
  forall k, all_chars q (sub_skip (Plus p) repl k s) = true.
Proof.
  intros Hq Hr. induction s as [| c s IH]; intros k; cbn [sub_skip].
  - destruct k; reflexivity.
  - destruct k as [| k]; [| auto].
    rewrite match_len_plus. destruct (p c) eqn:Ec.
    + rewrite all_chars_app, Hr. cbn [andb]. auto.
    + cbn [all_chars]. rewrite (Hq c Ec). cbn [andb]. auto.
Qed.

Section WithLib.
Context {L : Lib}.

(** X6: whatever [html.unescape] returns, [strip_html] of a text returns
    a text that is trimmed and holds no backslash and none of the letters t,
    r, f and v: the fifth pattern has replaced every run of them by a
    space. *)
Theorem strip_html_swallows_letters (s : string) :
  exists t, strip_html (Text s) = Ok t
            /\ all_chars (fun c => negb (swallowed c)) t = true
            /\ strip t = t.
Proof.
  unfold strip_html. destruct (String.eqb s EmptyString).
  - exists EmptyString. auto.
  - exists (strip_html_str s). split; [reflexivity |].
    unfold strip_html_str, strip_tags. split; [| apply strip_idem].
    apply all_chars_rstrip, all_chars_lstrip.
    apply sub_skip_chars; [reflexivity |].
    apply sub_plus_chars; [| reflexivity].
    intros c Hc. unfold swallowed, one_of in *. cbn [existsb] in *.
    apply orb_false_iff in Hc as [_ Hc]. rewrite Hc. reflexivity.
Qed.

(** *** The body resolver never returns nothing *)

Lemma replace_skip_nonempty old new s :
  new <> EmptyString -> replace_skip old new O s = EmptyString -> s = EmptyString.
Proof.
  intros Hn. destruct s as [| c s]; [reflexivity |].
  cbn [replace_skip]. destruct (String.prefix old (String c s)); [| discriminate].
  destruct new; [contradiction | discriminate].
Qed.

Lemma normalize_newlines_nonempty raw :
  raw <> EmptyString -> normalize_newlines raw <> EmptyString.
Proof.
  intros Hr H. apply Hr. unfold normalize_newlines, replace in H.
  apply (replace_skip_nonempty _ _ _) in H; [exact H | discriminate].
Qed.

(** X7: for a non-empty raw message, a result of [email_to_text] is never
    the empty text. *)
Theorem email_to_text_nonempty (raw t : string) :
  raw <> EmptyString -> email_to_text raw = Ok t -> t <> EmptyString.
Proof.
  intros Hr. unfold email_to_text, email_to_text_parsed.
  destruct (parsebytes raw) as [msg |].
  - destruct (collect msg) as [parts |]; cbn [rbind]; [| discriminate].
    destruct (texts _) as [ps |]; cbn [rbind]; [| discriminate].
    destruct (String.eqb_spec (strip (join (str1 LF) ps)) EmptyString) as [_ | Hne];
      intros [= <-]; [apply normalize_newlines_nonempty, Hr | exact Hne].
  - intros [= <-]. apply normalize_newlines_nonempty, Hr.
Qed.

End WithLib.

Lemma email_to_text_nonempty_witness :
  "Subject: Hi" ++ str1 LF ++ str1 LF ++ "Hello world" <> EmptyString
  /\ @email_to_text Examples.extract_lib ("Subject: Hi" ++ str1 LF ++ str1 LF ++ "Hello world")
     = Ok "Hello world"
  /\ "Hello world" <> EmptyString.
Proof.
  assert (H : "Subject: Hi" ++ str1 LF ++ str1 LF ++ "Hello world" <> EmptyString)
    by discriminate.
  refine (conj H (conj eq_refl _)).
  exact (@email_to_text_nonempty Examples.extract_lib _ _ H eq_refl).
Defined.

Section Runs.
Context {L : Lib}.

(** *** Records seen before *)

Lemma loop_app st ds ds' :
  loop st (ds ++ ds')%list
  = match loop st ds with
    | (st', None) => loop st' ds'
    | (st', Some e) => (st', Some e)
    end.
Proof.
  revert st. induction ds as [| d ds IH]; intros st; cbn [app loop].
  - destruct (loop st ds') as [st' [e |]]; reflexivity.
  - destruct (step st d); [apply IH | reflexivity].
Qed.

Lemma loop_seen ds :
  forall st st',
    loop st ds = (st', None) ->
    seen st ⊆ seen st'
    /\ forall d i, d ∈ ds -> record_id d = Some i -> i ∈ seen st'.
Proof.
  induction ds as [| d ds IH]; intros st st'; cbn [loop].
  - intros [= <-]. split; [reflexivity | intros ? ? []%elem_of_nil].
  - destruct (step st d) as [st1 |] eqn:Hs; [| discriminate].
    intros Hl. destruct (IH _ _ Hl) as (Hsub & Hin).
    assert (H1 : seen st ⊆ seen st1
                 /\ forall i, record_id d = Some i -> i ∈ seen st1).
    { destruct (step_cases _ _ _ Hs) as [[-> Hid] | (m & Hid & _ & _ & ->)].
      - split; [reflexivity |]. intros i Hi.
        destruct Hid as [Hn | (j & Hj & Hjs)]; congruence.
      - cbn [seen]. split; [apply union_subseteq_r |]. intros i Hi.
        apply elem_of_union. left. apply elem_of_singleton. congruence. }
    destruct H1 as (Hsub1 & Hd). split; [etrans; eassumption |].
    intros d' i [-> | Hd']%elem_of_cons Hi; [apply Hsub, Hd, Hi | eauto].
Qed.

Lemma loop_skips_seen ds st :
  (forall d, d ∈ ds -> forall i, record_id d = Some i -> i ∈ seen st) ->
  loop st ds = (st, None).
Proof.
  induction ds as [| d ds IH]; intros H; [reflexivity |].
  cbn [loop]. assert (Hs : step st d = Ok st).
  { unfold step. pose proof (H d (list_elem_of_here _ _)) as Hd. unfold record_id in Hd.
    destruct (rejected d); [reflexivity |].
    rewrite decide_True by (apply Hd; reflexivity). reflexivity. }
  rewrite Hs. apply IH. intros d' Hd'. apply H, list_elem_of_further, Hd'.
Qed.

(** X1: records that occurred before change nothing.  A run over the
    input followed by documents all of whose records already occur in it
    writes the same files, and ends in the same way, as a run over the
    input alone. *)
Theorem rerun_over_seen_records (datas datas' : list pyval) :
  records datas' ⊆ records datas ->
  main (datas ++ datas')%list = main datas.
Proof.
  intros Hsub. unfold main, records. rewrite flat_map_app, loop_app.
  fold (records datas). fold (records datas').
  destruct (loop initial (records datas)) as [st [e |]] eqn:Hl; [reflexivity |].
  destruct (loop_seen _ _ _ Hl) as (_ & Hin).
  rewrite (loop_skips_seen (records datas') st); [reflexivity |].
  intros d Hd i Hi. apply (Hin d i); [apply Hsub, Hd | exact Hi].
Qed.

(** *** The count and the fields of the messages written *)


Lemma written_is_built (datas : list pyval) (m : doc) :
  m ∈ messages_ndjson (fst (main datas)) ->
  exists d, d ∈ records datas /\ rejected d = false /\ build (doc_id m) d = Ok m.
Proof.
  rewrite main_messages. intros Hm.
  destruct (loop_ids (records datas)) as (done & rest & Heq & _ & _ & Hfirst & _).
  destruct (Hfirst m Hm) as (pre & d & post & -> & Hid & _ & Hb).
  exists d. split; [| split; [| exact Hb]].
  - rewrite Heq. apply elem_of_app. left. apply elem_of_app. right. apply list_elem_of_here.
  - unfold record_id in Hid. destruct (rejected d); [discriminate | reflexivity].
Qed.

Lemma stripped_is_trimmed v t : stripped v = Ok t -> strip t = t.
Proof.
  unfold stripped. destruct (py_or v (PStr EmptyString)); try discriminate.
  intros [= <-]. apply strip_idem.
Qed.

Lemma take_length n s : (String.length (take n s) <= n)%nat.
Proof.
  revert s. induction n as [| n IH]; intros [| c s]; cbn [take String.length]; try lia.
  specialize (IH s). lia.
Qed.

(** X4: every message written has a non-empty full_text, an index_text
    that is the first 1000 characters of it, and a subject and an author
    without whitespace at either end. *)
Theorem written_message_texts (datas : list pyval) :
  Forall (fun m =>
            doc_full_text m <> EmptyString
            /\ doc_index_text m = take 1000 (doc_full_text m)
            /\ (String.length (doc_index_text m) <= 1000)%nat
            /\ strip (doc_subject m) = doc_subject m
            /\ strip (doc_author m) = doc_author m)
         (messages_ndjson (fst (main datas))).
Proof.
  apply Forall_forall. intros m Hm.
  destruct (written_is_built datas m Hm) as (d & _ & Hrej & Hb).
  unfold rejected in Hrej. apply orb_false_iff in Hrej as [_ Hraw].
  apply negb_false_iff in Hraw.
  unfold build in Hb.
  destruct (stripped (get d "subject")) as [subj |] eqn:Hsubj; cbn [rbind] in Hb;
    [| discriminate].
  destruct (stripped (py_or _ (get d "from"))) as [auth |] eqn:Hauth; cbn [rbind] in Hb;
    [| discriminate].
  destruct (to_iso_and_year _) as [ts y].
  destruct (email_to_text_val (get d "rawEmail")) as [t |] eqn:Ht; cbn [rbind] in Hb;
    [| discriminate].
  remember (take 1000 t) as idx eqn:Hidx.
  injection Hb as <-. cbn [doc_full_text doc_index_text doc_subject doc_author].
  split; [| split; [exact Hidx | split; [rewrite Hidx; apply take_length | split]]].
  - unfold email_to_text_val in Ht. destruct (get d "rawEmail") as [| | | | raw | |];
      try discriminate.
    apply (email_to_text_nonempty raw t); [| exact Ht].
    intros ->. discriminate Hraw.
  - apply (stripped_is_trimmed _ _ Hsubj).
  - apply (stripped_is_trimmed _ _ Hauth).
Qed.

(** *** Year files *)

Lemma with_year_app y ms m :
  with_year y (ms ++ [m])%list
  = (with_year y ms ++ (if has_year y m then [m] else []))%list.
Proof. unfold with_year. rewrite List.filter_app. reflexivity. Qed.

Lemma per_year_add_entries y m py :
  NoDup (map fst py) ->
  forall y' ms',
    (y', ms') ∈ per_year_add y m py <->
    (y' <> y /\ (y', ms') ∈ py)
    \/ (y' = y /\ exists ms, (y, ms) ∈ py /\ ms' = (ms ++ [m])%list)
    \/ (y' = y /\ (y ∉ map fst py) /\ ms' = [m]).
Proof.
  induction py as [| [y0 ms0] py IH]; intros Hnd y' ms'; cbn [per_year_add].
  - rewrite list_elem_of_singleton. split.
    + intros [= -> ->]. right. right. split; [reflexivity |].
      split; [apply not_elem_of_nil | reflexivity].
    + intros [[_ []%elem_of_nil] | [(_ & ms & []%elem_of_nil & _) | (-> & _ & ->)]].
      reflexivity.
  - cbn [map fst] in Hnd. apply NoDup_cons in Hnd as [Hy0 Hnd].
    assert (Hkey : forall ms, (y0, ms) ∈ py -> False).
    { intros ms Hin. apply Hy0. apply (list_elem_of_fmap_2 fst _ _ Hin). }
    destruct (y0 =? y) eqn:E.
    + apply Z.eqb_eq in E. subst y0. split.
      * intros [[= -> ->] | Hin]%elem_of_cons.
        -- right. left. split; [reflexivity |]. exists ms0.
           split; [apply list_elem_of_here | reflexivity].
        -- left. split; [| apply list_elem_of_further, Hin].
           intros ->. exact (Hkey _ Hin).
      * intros [[Hne Hin] | [(-> & ms & Hin & ->) | (-> & Hn & _)]].
        -- apply elem_of_cons in Hin as [[= ? ?] | Hin]; [congruence |].
           apply list_elem_of_further, Hin.
        -- apply elem_of_cons in Hin as [[= ->] | Hin]; [apply list_elem_of_here |].
           destruct (Hkey _ Hin).
        -- exfalso. apply Hn. cbn [map fst]. apply list_elem_of_here.
    + apply Z.eqb_neq in E. rewrite elem_of_cons, (IH Hnd). split.
      * intros [[= -> ->] | [[Hne Hin] | [(-> & ms & Hin & ->) | (-> & Hn & ->)]]].
        -- left. split; [exact E | apply list_elem_of_here].
        -- left. split; [exact Hne | apply list_elem_of_further, Hin].
        -- right. left. split; [reflexivity |]. exists ms.
           split; [apply list_elem_of_further, Hin | reflexivity].
        -- right. right. split; [reflexivity |]. split; [| reflexivity].
           cbn [map fst]. intros [? | ?]%elem_of_cons; [congruence | contradiction].
      * intros [[Hne Hin] | [(-> & ms & Hin & ->) | (-> & Hn & ->)]].
        -- apply elem_of_cons in Hin as [[= -> ->] | Hin]; [left; reflexivity |].
           right. left. auto.
        -- apply elem_of_cons in Hin as [[= ? ?] | Hin]; [congruence |].
           right. right. left. split; [reflexivity |]. eauto.
        -- right. right. right. split; [reflexivity |]. split; [| reflexivity].
           intros Hin. apply Hn. cbn [map fst]. apply list_elem_of_further, Hin.
Qed.

Lemma loop_year_lists (ds : list pydict) :
  NoDup (map fst (per_year (fst (loop initial ds))))
  /\ (forall y ms, (y, ms) ∈ per_year (fst (loop initial ds)) ->
                   ms = with_year y (out (fst (loop initial ds))) /\ ms <> [])
  /\ (forall y, y ∉ map fst (per_year (fst (loop initial ds))) ->
                with_year y (out (fst (loop initial ds))) = []).
Proof.
  pose (Q := fun (_ : list pydict) (st : state) =>
    NoDup (map fst (per_year st))
    /\ (forall y ms, (y, ms) ∈ per_year st -> ms = with_year y (out st) /\ ms <> [])
    /\ (forall y, y ∉ map fst (per_year st) -> with_year y (out st) = [])).
  destruct (loop_prefix_invariant Q) with (ds := ds) (done := @nil pydict) (st := initial)
    as (done & rest & _ & HQ); [| | exact HQ].
  - clear. intros done st d st' (Hnd & Hel & Hno) Hs.
    destruct (step_cases _ _ _ Hs) as [[-> _] | (m & _ & _ & _ & ->)];
      [exact (conj Hnd (conj Hel Hno)) |].
    unfold Q. cbn [per_year out]. destruct (doc_year m) as [ym |] eqn:Ey.
    + assert (Hh : forall y, has_year y m = (ym =? y)) by (intros y; unfold has_year; rewrite Ey; reflexivity).
      refine (conj (per_year_add_nodup _ _ _ Hnd) (conj _ _)).
      * intros y ms Hin. rewrite with_year_app, Hh.
        apply (per_year_add_entries _ _ _ Hnd) in Hin
          as [[Hne Hin] | [(-> & ms0 & Hin & ->) | (-> & Hn & ->)]].
        -- destruct (Hel _ _ Hin) as [-> Hne']. rewrite (proj2 (Z.eqb_neq ym y)) by congruence.
           rewrite app_nil_r. auto.
        -- destruct (Hel _ _ Hin) as [-> _]. rewrite Z.eqb_refl. split; [reflexivity |].
           intros H. apply app_eq_nil in H as [_ H]. discriminate H.
        -- rewrite (Hno _ Hn), Z.eqb_refl. split; [reflexivity | discriminate].
      * intros y Hy. rewrite with_year_app, Hh. rewrite per_year_add_keys in Hy.
        destruct (decide (ym ∈ map fst (per_year st))) as [Hin | Hnin].
        -- rewrite (Hno y Hy). rewrite (proj2 (Z.eqb_neq ym y)); [reflexivity |].
           intros ->. contradiction.
        -- apply not_elem_of_app in Hy as [Hy Hy'].
           rewrite (Hno y Hy). rewrite (proj2 (Z.eqb_neq ym y)); [reflexivity |].
           intros ->. apply Hy', list_elem_of_here.
    + assert (Hh : forall y, has_year y m = false) by (intros y; unfold has_year; rewrite Ey; reflexivity).
      refine (conj Hnd (conj _ _)).
      * intros y ms Hin. rewrite with_year_app, Hh, app_nil_r. auto.
      * intros y Hy. rewrite with_year_app, Hh, app_nil_r. auto.
  - unfold Q. cbn. refine (conj (NoDup_nil_2) (conj _ _)).
    + intros ? ? []%elem_of_nil.
    + reflexivity.
Qed.

(** X2: in a run that ends without an exception, the file of a year holds
    exactly the messages of the full corpus that have this year, in the
    order of the corpus; no year file is empty, and a year without a file
    has no message. *)
Theorem year_file_is_corpus_filtered (datas : list pyval) (fs : files) :
  main datas = (fs, None) ->
  (forall y ms, (y, ms) ∈ by_year fs -> ms = with_year y (messages_ndjson fs) /\ ms <> [])
  /\ (forall y, y ∉ map fst (by_year fs) -> with_year y (messages_ndjson fs) = []).
Proof.
  unfold main. destruct (loop_year_lists (records datas)) as (_ & Hel & Hno).
  destruct (loop initial (records datas)) as [st [e |]]; [discriminate |].
  intros [= <-]. cbn [by_year messages_ndjson fst] in *. auto.
Qed.

(** *** Timestamps of the messages written *)

Lemma leaps_mono a b : a <= b -> leaps a <= leaps b.
Proof.
  intros Hab. replace b with (a + Z.of_nat (Z.to_nat (b - a))) by lia.
  induction (Z.to_nat (b - a)) as [| k IH].
  - replace (a + Z.of_nat 0) with a by lia. lia.
  - pose proof (TimeFacts.leaps_step (a + Z.of_nat k)).
    replace (a + Z.of_nat (S k)) with (a + Z.of_nat k + 1) by lia. lia.
Qed.

Lemma days_before_year_mono a b : a <= b -> days_before_year a <= days_before_year b.
Proof.
  intros Hab. unfold days_before_year.
  pose proof (leaps_mono (a - 1) (b - 1)). lia.
Qed.

Lemma utcfromtimestamp_year_range n dt :
  utcfromtimestamp n = Some dt -> 1 <= dt_year dt <= 9999.
Proof.
  unfold utcfromtimestamp.
  destruct ((MINORDINAL <=? n / 86400 + 719163) && (n / 86400 + 719163 <=? MAXORDINAL)) eqn:Hr;
    [| discriminate].
  apply andb_true_iff in Hr as [H1 H2]. apply Z.leb_le in H1, H2.
  pose proof (TimeFacts.ord2ymd_year (n / 86400 + 719163)) as Hy.
  pose proof (TimeFacts.year_of_ordinal_bounds (n / 86400 + 719163)) as Hb.
  destruct (ord2ymd (n / 86400 + 719163)) as [[y m] d]. cbn [fst] in Hy.
  intros [= <-]. cbn [dt_year]. rewrite Hy. clear Hy.
  set (yy := year_of_ordinal (n / 86400 + 719163)) in *.
  set (o := n / 86400 + 719163) in *. clearbody yy o.
  unfold MINORDINAL, MAXORDINAL in *.
  assert (E1 : days_before_year 1 = 0) by reflexivity.
  assert (E2 : days_before_year 10000 = 3652059) by reflexivity.
  destruct (Z_le_gt_dec yy 0) as [Hle | Hgt].
  - pose proof (days_before_year_mono (yy + 1) 1). lia.
  - destruct (Z_le_gt_dec 10000 yy) as [Hge | Hlt]; [| lia].
    pose proof (days_before_year_mono 10000 yy). lia.
Qed.

(** X5: every message written has its timestamp and its year both set or
    both null; when they are set, the timestamp is the ISO text of an
    instant followed by Z, the year is the year of that instant, and it lies
    between 1 and 9999. *)
Theorem written_timestamp_and_year (datas : list pyval) :
  Forall (fun m =>
            match doc_timestamp m, doc_year m with
            | None, None => True
            | Some ts, Some y =>
                1 <= y <= 9999
                /\ exists n dt, utcfromtimestamp n = Some dt
                                /\ ts = isoformat dt ++ "Z" /\ y = dt_year dt
            | _, _ => False
            end)
         (messages_ndjson (fst (main datas))).
Proof.
  apply Forall_forall. intros m Hm.
  destruct (written_is_built datas m Hm) as (d & _ & _ & Hb).
  unfold build in Hb.
  destruct (stripped (get d "subject")); cbn [rbind] in Hb; [| discriminate].
  destruct (stripped _); cbn [rbind] in Hb; [| discriminate].
  unfold to_iso_and_year in Hb.
  destruct (email_to_text_val (get d "rawEmail")) as [t |] eqn:Ht.
  - remember (take 1000 t) as idx.
    destruct (int (date_of d)) as [n |]; [| injection Hb as <-; exact I].
    destruct (utcfromtimestamp n) as [dt |] eqn:Hdt; [| injection Hb as <-; exact I].
    injection Hb as <-. cbn [doc_timestamp doc_year].
    split; [apply (utcfromtimestamp_year_range n dt Hdt) | eauto].
  - destruct (int (date_of d)) as [n |]; [destruct (utcfromtimestamp n) |]; discriminate.
Qed.

(** *** The order of the corpus *)

Lemma filter_unseen_other S i l :
  i ∈ S ->
  List.filter (unseen S) (List.filter (fun j => negb (String.eqb j i)) l)
  = List.filter (unseen S) l.
Proof.
  intros Hi. induction l as [| j l IH]; [reflexivity |].
  cbn [List.filter]. destruct (String.eqb_spec j i) as [-> | Hne]; cbn [negb].
  - rewrite IH. unfold unseen at 2. rewrite bool_decide_eq_false_2; [reflexivity |].
    intros H. apply H, Hi.
  - cbn [List.filter]. rewrite IH. reflexivity.
Qed.

Lemma filter_unseen_insert S i l :
  List.filter (unseen S) (List.filter (fun j => negb (String.eqb j i)) l)
  = List.filter (unseen ({[i]} ∪ S)) l.
Proof.
  induction l as [| j l IH]; [reflexivity |].
  cbn [List.filter]. destruct (String.eqb_spec j i) as [-> | Hne]; cbn [negb].
  - rewrite IH. unfold unseen at 2. rewrite bool_decide_eq_false_2; [reflexivity |].
    intros H. apply H. apply elem_of_union. left. apply elem_of_singleton. reflexivity.
  - cbn [List.filter]. rewrite IH.
    assert (E : unseen ({[i]} ∪ S) j = unseen S j).
    { unfold unseen. apply bool_decide_ext. rewrite elem_of_union, elem_of_singleton. tauto. }
    rewrite E. reflexivity.
Qed.

Lemma filter_unseen_empty l : List.filter (unseen ∅) l = l.
Proof.
  induction l as [| j l IH]; [reflexivity |].
  cbn [List.filter]. unfold unseen at 1.
  rewrite bool_decide_eq_true_2 by apply not_elem_of_empty. rewrite IH. reflexivity.
Qed.

(** The ids a run that ends normally adds to the corpus. *)
Lemma loop_ids_in_order (ds : list pydict) :
  forall st st',
    loop st ds = (st', None) ->
    map doc_id (out st')
    = (map doc_id (out st)
       ++ List.filter (unseen (seen st)) (first_occurrences (omap record_id ds)))%list.
Proof.
  induction ds as [| d ds IH]; intros st st'; cbn [loop].
  - intros [= <-]. cbn. rewrite app_nil_r. reflexivity.
  - destruct (step st d) as [st1 |] eqn:Hs; [| discriminate].
    intros Hl. rewrite (IH _ _ Hl). cbn [omap list_omap].
    destruct (step_cases _ _ _ Hs) as [[-> Hid] | (m & Hid & Hnew & _ & ->)].
    + destruct Hid as [-> | (i & -> & Hi)]; [reflexivity |].
      cbn [first_occurrences List.filter]. unfold unseen at 2.
      rewrite bool_decide_eq_false_2 by (intros H; apply H, Hi).
      rewrite (filter_unseen_other _ _ _ Hi). reflexivity.
    + rewrite Hid. cbn [seen out first_occurrences List.filter]. unfold unseen at 2.
      rewrite bool_decide_eq_true_2 by exact Hnew.
      rewrite filter_unseen_insert, map_app, <- app_assoc. reflexivity.
Qed.

(** X20: in a run that ends without an exception, the ids of the messages
    written are the distinct ids of the records the guard lets through,
    each at the place of its first occurrence. *)
Theorem corpus_ids_in_order_of_first_occurrence (datas : list pyval) (fs : files) :
  main datas = (fs, None) ->
  map doc_id (messages_ndjson fs) = first_occurrences (omap record_id (records datas)).
Proof.
  unfold main. destruct (loop initial (records datas)) as [st [e |]] eqn:Hl; [discriminate |].
  intros [= <-]. cbn [messages_ndjson].
  rewrite (loop_ids_in_order _ _ _ Hl). cbn [initial seen out map app].
  apply filter_unseen_empty.
Qed.

End Runs.

Lemma corpus_ids_in_order_of_first_occurrence_witness :
  map doc_id (messages_ndjson (fst (@main Examples.extract_lib
                                      (Examples.three_records ++ Examples.three_records)%list)))
  = first_occurrences
      (omap record_id (records (Examples.three_records ++ Examples.three_records)%list)).
Proof.
  apply (@corpus_ids_in_order_of_first_occurrence Examples.extract_lib).
  vm_compute. reflexivity.
Defined.

Lemma rerun_over_seen_records_witness :
  @main Examples.extract_lib (Examples.three_records ++ Examples.three_records)%list
  = @main Examples.extract_lib Examples.three_records.
Proof.
  apply (@rerun_over_seen_records Examples.extract_lib). intros d Hd. exact Hd.
Defined.

Lemma year_file_is_corpus_filtered_witness :
  by_year (fst (@main Examples.extract_lib Examples.three_records))
    = [(2001, [Examples.message_of "1" "one" (Some "2001-09-09T01:46:40Z") (Some 2001)]);
       (1970, [Examples.message_of "2" "two" (Some "1970-01-02T00:00:00Z") (Some 1970)])]
  /\ ((forall y ms,
         (y, ms) ∈ by_year (fst (@main Examples.extract_lib Examples.three_records)) ->
         ms = with_year y (messages_ndjson (fst (@main Examples.extract_lib Examples.three_records)))
         /\ ms <> [])
      /\ (forall y,
            y ∉ map fst (by_year (fst (@main Examples.extract_lib Examples.three_records))) ->
            with_year y (messages_ndjson (fst (@main Examples.extract_lib Examples.three_records)))
            = [])).
Proof.
  split; [vm_compute; reflexivity |].
  apply (@year_file_is_corpus_filtered Examples.extract_lib Examples.three_records).
  vm_compute. reflexivity.
Defined.

End CorpusMore.

(** ** More on threads, their sort and the links between messages *)
Module BrowseMore.
Import Py Re Browse Spec Words BrowseFacts.

(** *** Chronological links *)

Lemma index_from_last (mids : list string) :
  forall i acc m j,
    index_from i mids acc !! m = Some j <->
    (exists k, last_at mids m k /\ j = (i + k)%nat) \/ ((m ∉ mids) /\ acc !! m = Some j).
Proof.
  induction mids as [| x mids IH]; intros i acc m j; cbn [index_from].
  - split.
    + intros H. right. split; [apply not_elem_of_nil | exact H].
    + intros [(k & [Hk _] & _) | [_ H]]; [discriminate Hk | exact H].
  - rewrite IH. split.
    + intros [(k & [Hk Hlast] & ->) | [Hm Hl]].
      * left. exists (S k). split; [| lia]. split; [exact Hk |].
        intros [| j'] Hj; [lia |]. cbn. apply Hlast. lia.
      * destruct (decide (x = m)) as [-> | Hne].
        -- rewrite lookup_insert_eq in Hl. injection Hl as <-.
           left. exists O. split; [| lia]. split; [reflexivity |].
           intros [| j'] Hj; [lia |]. cbn. intros Hj'.
           apply Hm. apply (list_elem_of_lookup_2 _ _ _ Hj').
        -- rewrite lookup_insert_ne in Hl by exact Hne.
           right. split; [| exact Hl].
           intros [-> | ?]%elem_of_cons; [congruence | contradiction].
    + intros [(k & [Hk Hlast] & ->) | [Hm Hl]].
      * destruct k as [| k].
        -- injection Hk as ->. right. split.
           ++ intros (k' & Hk')%list_elem_of_lookup_1.
              apply (Hlast (S k')); [lia | exact Hk'].
           ++ rewrite lookup_insert_eq. f_equal. lia.
        -- left. exists k. split; [| lia]. split; [exact Hk |].
           intros j' Hj. apply (Hlast (S j')). lia.
      * right. apply not_elem_of_cons in Hm as [Hne Hm]. split; [exact Hm |].
        rewrite lookup_insert_ne by congruence. exact Hl.
Qed.

Lemma mid_to_index_last (mids : list string) m j :
  mid_to_index mids !! m = Some j <-> last_at mids m j.
Proof.
  unfold mid_to_index. rewrite index_from_last. split.
  - intros [(k & Hk & ->) | [_ H]]; [exact Hk | rewrite lookup_empty in H; discriminate].
  - intros H. left. exists j. auto.
Qed.

(** X8: the chronological links of a message are taken at the last place
    its id has in the list of ids.  The next message of A is B exactly when
    B stands right after the last occurrence of A, and the message before B
    is A exactly when A stands right before the last occurrence of B; the
    ids need not be distinct. *)
Theorem chrono_links_follow_last_occurrence (mids : list string) (A B : string) :
  (next_mid mids A = Some B <-> exists i, last_at mids A i /\ mids !! S i = Some B)
  /\ (prev_mid mids B = Some A <-> exists i, last_at mids B (S i) /\ mids !! i = Some A).
Proof.
  split.
  - unfold next_mid. split.
    + destruct (mid_to_index mids !! A) as [idx |] eqn:HA; [| discriminate].
      destruct (idx <? length mids - 1)%nat; [| discriminate].
      rewrite Nat.add_1_r. intros HB. exists idx. split; [| exact HB].
      apply mid_to_index_last, HA.
    + intros (i & Hi & HB). rewrite (proj2 (mid_to_index_last mids A i) Hi).
      pose proof (lookup_lt_Some _ _ _ HB) as Hlt.
      replace (i <? length mids - 1)%nat with true by (symmetry; apply Nat.ltb_lt; lia).
      rewrite Nat.add_1_r. exact HB.
  - unfold prev_mid. split.
    + destruct (mid_to_index mids !! B) as [idx |] eqn:HB; [| discriminate].
      destruct idx as [| i]; [discriminate |].
      cbn [Nat.ltb Nat.leb]. replace (S i - 1)%nat with i by lia.
      intros HA. exists i. split; [| exact HA]. apply mid_to_index_last, HB.
    + intros (i & Hi & HA). rewrite (proj2 (mid_to_index_last mids B (S i)) Hi).
      cbn [Nat.ltb Nat.leb]. replace (S i - 1)%nat with i by lia. exact HA.
Qed.

(** With distinct ids the two links are converse to each other. *)
Lemma prev_next_chrono (mids : list string) (A B : string) :
  NoDup mids -> prev_mid mids B = Some A -> next_mid mids A = Some B.
Proof.
  intros Hnd. unfold prev_mid.
  destruct (mid_to_index mids !! B) as [idx |] eqn:HB; [| discriminate].
  destruct idx as [| i]; [discriminate |].
  cbn [Nat.ltb Nat.leb]. replace (S i - 1)%nat with i by lia. intros HA.
  apply (mid_to_index_lookup mids B (S i) Hnd) in HB.
  unfold next_mid. rewrite (proj2 (mid_to_index_lookup mids A i Hnd) HA).
  pose proof (lookup_lt_Some _ _ _ HB) as Hlt.
  replace (i <? length mids - 1)%nat with true by (symmetry; apply Nat.ltb_lt; lia).
  rewrite Nat.add_1_r. exact HB.
Qed.

Lemma chrono_links_nodup (mids : list string) (A B : string) :
  NoDup mids -> next_mid mids A = Some B <-> prev_mid mids B = Some A.
Proof.
  intros Hnd. split; [apply next_prev_chrono, Hnd | apply prev_next_chrono, Hnd].
Qed.

(** *** Thread groups *)

Lemma threads_add_keys k it ts :
  map fst (threads_add k it ts)
  = if decide (k ∈ map fst ts) then map fst ts else (map fst ts ++ [k])%list.
Proof.
  induction ts as [| [k' its] ts IH]; [reflexivity |].
  cbn [threads_add map fst]. destruct (String.eqb_spec k' k) as [-> | E].
  - cbn [map fst]. rewrite decide_True by (apply elem_of_cons; auto). reflexivity.
  - cbn [map fst]. rewrite IH.
    destruct (decide (k ∈ map fst ts)) as [Hin | Hnin].
    + rewrite decide_True by (apply elem_of_cons; auto). reflexivity.
    + rewrite decide_False; [reflexivity |].
      intros [? | ?]%elem_of_cons; [congruence | contradiction].
Qed.

Lemma threads_add_nodup k it ts :
  NoDup (map fst ts) -> NoDup (map fst (threads_add k it ts)).
Proof.
  intros Hnd. rewrite threads_add_keys.
  destruct (decide (k ∈ map fst ts)) as [Hin | Hnin]; [exact Hnd |].
  apply NoDup_app. split; [exact Hnd |]. split; [| apply NoDup_singleton].
  intros x Hx ->%list_elem_of_singleton. contradiction.
Qed.

(** The groups after [threads.setdefault(tkey, []).append(item)]. *)
Lemma threads_add_entries k it ts :
  NoDup (map fst ts) ->
  forall k' its',
    (k', its') ∈ threads_add k it ts ->
    (k' <> k /\ (k', its') ∈ ts)
    \/ (k' = k /\ exists its, (k, its) ∈ ts /\ its' = (its ++ [it])%list)
    \/ (k' = k /\ (k ∉ map fst ts) /\ its' = [it]).
Proof.
  induction ts as [| [k0 its0] ts IH]; intros Hnd k' its'; cbn [threads_add].
  - intros [= -> ->]%list_elem_of_singleton. right. right.
    split; [reflexivity |]. split; [apply not_elem_of_nil | reflexivity].
  - cbn [map fst] in Hnd. apply NoDup_cons in Hnd as [Hk0 Hnd].
    assert (Hkey : forall its, (k0, its) ∈ ts -> False).
    { intros its Hin. apply Hk0. apply (list_elem_of_fmap_2 fst _ _ Hin). }
    destruct (String.eqb_spec k0 k) as [-> | E].
    + intros [[= -> ->] | Hin]%elem_of_cons.
      * right. left. split; [reflexivity |]. exists its0.
        split; [apply list_elem_of_here | reflexivity].
      * left. split; [| apply list_elem_of_further, Hin].
        intros ->. exact (Hkey _ Hin).
    + intros [[= -> ->] | Hin]%elem_of_cons.
      * left. split; [exact E | apply list_elem_of_here].
      * destruct (IH Hnd _ _ Hin) as [[Hne Hin'] | [(-> & its & Hin' & ->) | (-> & Hn & ->)]].
        -- left. split; [exact Hne | apply list_elem_of_further, Hin'].
        -- right. left. split; [reflexivity |]. exists its.
           split; [apply list_elem_of_further, Hin' | reflexivity].
        -- right. right. split; [reflexivity |]. split; [| reflexivity].
           cbn [map fst]. intros [? | ?]%elem_of_cons; [congruence | contradiction].
Qed.

Lemma thread_of_app k fd it :
  thread_of k (fd ++ [it])%list
  = (thread_of k fd ++ (if in_thread k it then [it] else []))%list.
Proof. unfold thread_of. rewrite List.filter_app. reflexivity. Qed.

(** The groups while the loop runs: [done] are the messages already
    filed. *)
Lemma threads_fold_lists (rest done : list item) (ts : list (string * list item)) :
  NoDup (map fst ts)
  /\ (forall k its, (k, its) ∈ ts -> its = thread_of k done /\ its <> [])
  /\ (forall k, k ∉ map fst ts -> thread_of k done = []) ->
  let ts' := fold_left (fun ts it => threads_add (thread_key (fst it) (snd it)) it ts) rest ts in
  NoDup (map fst ts')
  /\ (forall k its, (k, its) ∈ ts' -> its = thread_of k (done ++ rest) /\ its <> [])
  /\ (forall k, k ∉ map fst ts' -> thread_of k (done ++ rest) = []).
Proof.
  revert done ts.
  induction rest as [| it rest IH]; intros done ts (Hnd & Hel & Hno); cbn [fold_left]; cbv zeta.
  - rewrite app_nil_r. auto.
  - replace (done ++ it :: rest)%list with ((done ++ [it]) ++ rest)%list
      by (rewrite <- app_assoc; reflexivity).
    apply IH. set (tk := thread_key (fst it) (snd it)).
    assert (Hh : forall k, in_thread k it = String.eqb tk k) by reflexivity.
    refine (conj (threads_add_nodup _ _ _ Hnd) (conj _ _)).
    + intros k its Hin. rewrite thread_of_app, Hh.
      apply (threads_add_entries _ _ _ Hnd) in Hin
        as [[Hne Hin] | [(-> & its0 & Hin & ->) | (-> & Hn & ->)]].
      * destruct (Hel _ _ Hin) as [-> Hne'].
        destruct (String.eqb_spec tk k) as [E | E]; [congruence |].
        rewrite app_nil_r. auto.
      * destruct (Hel _ _ Hin) as [-> _]. rewrite String.eqb_refl. split; [reflexivity |].
        intros H. apply app_eq_nil in H as [_ H]. discriminate H.
      * rewrite (Hno _ Hn), String.eqb_refl. split; [reflexivity | discriminate].
    + intros k Hk. rewrite thread_of_app, Hh. rewrite threads_add_keys in Hk.
      destruct (decide (tk ∈ map fst ts)) as [Hin | Hnin].
      * rewrite (Hno k Hk).
        destruct (String.eqb_spec tk k) as [<- | E]; [contradiction | reflexivity].
      * apply not_elem_of_app in Hk as [Hk Hk'].
        rewrite (Hno k Hk).
        destruct (String.eqb_spec tk k) as [<- | E]; [| reflexivity].
        destruct Hk'. apply list_elem_of_here.
Qed.

Lemma threads_empty_lists :
  NoDup (map fst (@nil (string * list item)))
  /\ (forall k its, (k, its) ∈ @nil (string * list item) -> its = thread_of k [] /\ its <> [])
  /\ (forall k, k ∉ map fst (@nil (string * list item)) -> thread_of k [] = []).
Proof.
  refine (conj (NoDup_nil_2) (conj _ _)).
  - intros ? ? []%elem_of_nil.
  - reflexivity.
Qed.

(** The messages of a group are messages of the input with the key of the
    group. *)
Lemma group_threads_members (fd : list item) k its w :
  (k, its) ∈ group_threads fd -> w ∈ its ->
  w ∈ fd /\ thread_key (fst w) (snd w) = k.
Proof.
  intros Hin Hw.
  destruct (threads_fold_lists fd [] [] threads_empty_lists) as (_ & Hel & _).
  destruct (Hel _ _ Hin) as [-> _]. unfold thread_of in Hw.
  apply list_elem_of_In, List.filter_In in Hw as [Hw Hk].
  split; [apply list_elem_of_In, Hw | apply String.eqb_eq, Hk].
Qed.

(** X9: the thread groups partition the messages.  The keys of the groups
    are pairwise distinct; the group of a key holds exactly the messages
    with this thread key, in the order of the input, and is never empty; a
    key without a group is the thread key of no message. *)
Theorem thread_groups_partition (fd : list item) :
  NoDup (map fst (group_threads fd))
  /\ (forall k its, (k, its) ∈ group_threads fd -> its = thread_of k fd /\ its <> [])
  /\ (forall k, k ∉ map fst (group_threads fd) -> thread_of k fd = []).
Proof.
  unfold group_threads.
  pose proof (threads_fold_lists fd [] []) as H. cbv zeta in H. cbn [app] in H.
  apply H. refine (conj (NoDup_nil_2) (conj _ _)).
  - intros ? ? []%elem_of_nil.
  - reflexivity.
Qed.

(** *** The order of sort keys *)

Lemma str_lt_irrefl s : str_lt s s = false.
Proof.
  induction s as [| a s IH]; [reflexivity |].
  cbn [str_lt]. rewrite N.ltb_irrefl. exact IH.
Qed.

Lemma str_lt_asym s t : str_lt s t = true -> str_lt t s = false.
Proof.
  revert t. induction s as [| a s IH]; intros [| b t]; cbn [str_lt]; try congruence.
  destruct (N.ltb_spec (code a) (code b)), (N.ltb_spec (code b) (code a));
    try congruence; try lia. apply IH.
Qed.

(** a < b <= c: then a < c, and c is not before a. *)
Lemma str_lt_le_trans a b c :
  str_lt a b = true -> str_lt c b = false -> str_lt a c = true /\ str_lt c a = false.
Proof.
  revert b c. induction a as [| x a IH]; intros [| y b] [| z c]; cbn [str_lt];
    try congruence; try (split; congruence).
  destruct (N.ltb_spec (code x) (code y)), (N.ltb_spec (code y) (code x)),
           (N.ltb_spec (code z) (code y)), (N.ltb_spec (code y) (code z)),
           (N.ltb_spec (code x) (code z)), (N.ltb_spec (code z) (code x));
    try congruence; try lia; try (split; congruence).
  apply IH.
Qed.

Lemma str_lt_total s t : str_lt s t = false -> str_lt t s = false -> s = t.
Proof.
  revert t. induction s as [| a s IH]; intros [| b t]; cbn [str_lt]; try congruence.
  destruct (N.ltb_spec (code a) (code b)), (N.ltb_spec (code b) (code a));
    try congruence; try lia.
  intros H1 H2. rewrite (IH t H1 H2). f_equal.
  assert (E : code a = code b) by lia. unfold code in E.
  rewrite <- (ascii_N_embedding a), <- (ascii_N_embedding b), E. reflexivity.
Qed.

Lemma key_lt_kind a b :
  match key_lt a b with
  | Ok _ => kind_of a = kind_of b
  | Raise e => e = TypeError /\ kind_of a <> kind_of b
  end.
Proof.
  destruct a as [[[|] x] | s], b as [[[|] y] | t]; cbn; try reflexivity; split; congruence.
Qed.

Lemma key_lt_same_kind a b : kind_of a = kind_of b -> exists r, key_lt a b = Ok r.
Proof.
  intros H. pose proof (key_lt_kind a b) as K.
  destruct (key_lt a b) as [r |]; [eauto | destruct K; contradiction].
Qed.

Lemma key_lt_irrefl a : key_lt a a = Ok false.
Proof.
  destruct a as [x | s]; cbn [key_lt].
  - destruct (aware x); cbn; rewrite Z.ltb_irrefl; reflexivity.
  - rewrite str_lt_irrefl. reflexivity.
Qed.

Lemma key_lt_asym a b : key_lt a b = Ok true -> key_lt b a = Ok false.
Proof.
  destruct a as [x | s], b as [y | t]; cbn [key_lt]; try discriminate.
  - destruct x as [[|] ix], y as [[|] iy]; cbn; try discriminate;
      intros [= H]; f_equal; lia.
  - intros [= H]. rewrite (str_lt_asym _ _ H). reflexivity.
Qed.

(** a < b <= c: then a < c, and c is not before a. *)
Lemma key_lt_le_trans a b c :
  key_lt a b = Ok true -> key_lt c b = Ok false ->
  key_lt a c = Ok true /\ key_lt c a = Ok false.
Proof.
  destruct a as [x | s], b as [y | t], c as [z | u]; cbn [key_lt]; try discriminate.
  - destruct x as [[|] ix], y as [[|] iy], z as [[|] iz]; cbn; try discriminate;
      intros [= H1] [= H2]; split; f_equal; lia.
  - intros [= H1] [= H2]. destruct (str_lt_le_trans _ _ _ H1 H2) as [-> ->]. auto.
Qed.

(** Two keys neither of which sorts before the other are the same key. *)
Lemma key_lt_total a b : key_lt a b = Ok false -> key_lt b a = Ok false -> a = b.
Proof.
  destruct a as [x | s], b as [y | t]; cbn [key_lt]; try discriminate.
  - destruct x as [[|] ix], y as [[|] iy]; cbn; try discriminate;
      intros [= H1] [= H2]; do 2 f_equal; lia.
  - intros [= H1] [= H2]. f_equal. apply str_lt_total; assumption.
Qed.

Lemma key_eqb_eq a b : key_eqb a b = true <-> a = b.
Proof.
  destruct a as [x | s], b as [y | t]; cbn [key_eqb]; try (split; congruence).
  - rewrite andb_true_iff, Z.eqb_eq. split.
    + intros [E1 E2]. destruct x as [[|] ix], y as [[|] iy]; cbn in *; congruence.
    + intros [= ->]. split; [destruct (aware y) | ]; reflexivity.
  - rewrite String.eqb_eq. split; congruence.
Qed.

Section Sorting.
Context {L : Lib}.

(** *** The thread sort *)

Lemma uniform_perm l l' : l ≡ₚ l' -> uniform l -> uniform l'.
Proof. intros Hp H x y Hx Hy. apply H; rewrite Hp; assumption. Qed.

Lemma fold_sorted_raise l e :
  fold_left (fun acc x => rbind acc (fun a => insert_sorted x a)) l (Raise e) = Raise e.
Proof. induction l as [| x l IH]; [reflexivity | exact IH]. Qed.

(** An insertion compares the new item with the first item of the list. *)
Lemma insert_sorted_kinds x a :
  uniform a ->
  match insert_sorted x a with
  | Ok r => uniform (x :: a)
  | Raise e => e = TypeError /\ exists y, y ∈ a /\ kind x <> kind y
  end.
Proof.
  intros Hu. induction a as [| y a IH]; cbn [insert_sorted].
  - intros u v ->%list_elem_of_singleton ->%list_elem_of_singleton. reflexivity.
  - pose proof (key_lt_kind (_date_sort_key x) (_date_sort_key y)) as K.
    assert (Hall : kind x = kind y -> uniform (x :: y :: a)).
    { intros E u v [-> | Hu']%elem_of_cons [-> | Hv']%elem_of_cons;
        try reflexivity; try (apply Hu; assumption).
      - rewrite E. apply Hu; [apply list_elem_of_here | assumption].
      - rewrite E. apply Hu; [assumption | apply list_elem_of_here]. }
    destruct (key_lt _ _) as [[|] |]; cbn [rbind].
    + apply Hall, K.
    + assert (Hu' : uniform a).
      { intros u v Hu' Hv'. apply Hu; apply list_elem_of_further; assumption. }
      specialize (IH Hu').
      destruct (insert_sorted x a) as [r |]; cbn [rbind]; [apply Hall, K |].
      destruct IH as (-> & z & Hz & Hne). split; [reflexivity |].
      exists z. split; [apply list_elem_of_further, Hz | exact Hne].
    + destruct K as [-> Hne]. split; [reflexivity |]. exists y.
      split; [apply list_elem_of_here | exact Hne].
Qed.

(** X10: the thread sort returns exactly when the sort keys of the items
    are all of one kind: all texts, all datetimes with an offset, or all
    datetimes without one.  When two items have keys of different kinds it
    raises TypeError, whatever their places in the list. *)
Theorem sorted_raises_iff_kinds_mixed (l : list item) :
  match sorted l with
  | Ok s => forall x y, x ∈ l -> y ∈ l -> kind x = kind y
  | Raise e => e = TypeError /\ exists x y, x ∈ l /\ y ∈ l /\ kind x <> kind y
  end.
Proof.
  unfold sorted.
  enough (H : forall rest a done,
             a ≡ₚ done -> uniform a ->
             match fold_left (fun acc x => rbind acc (fun a => insert_sorted x a)) rest (Ok a) with
             | Ok s => uniform (done ++ rest)
             | Raise e => e = TypeError
                          /\ exists x y, x ∈ (done ++ rest)%list /\ y ∈ (done ++ rest)%list
                                         /\ kind x <> kind y
             end).
  { apply (H l [] []); [reflexivity |]. intros ? ? []%elem_of_nil. }
  induction rest as [| x rest IH]; intros a done Hp Hu; cbn [fold_left rbind].
  - rewrite app_nil_r. apply (uniform_perm _ _ Hp Hu).
  - pose proof (insert_sorted_kinds x a Hu) as K.
    destruct (insert_sorted x a) as [r |] eqn:Hr.
    + replace (done ++ x :: rest)%list with ((done ++ [x]) ++ rest)%list
        by (rewrite <- app_assoc; reflexivity).
      apply IH.
      * rewrite (insert_sorted_perm _ _ _ Hr), Hp. apply Permutation_cons_append.
      * apply (uniform_perm (x :: a)); [symmetry; apply (insert_sorted_perm _ _ _ Hr) | exact K].
    + rewrite fold_sorted_raise. destruct K as (-> & y & Hy & Hne). split; [reflexivity |].
      exists x, y. rewrite Hp in Hy. repeat split; [| | exact Hne].
      * apply elem_of_app. right. apply list_elem_of_here.
      * apply elem_of_app. left. exact Hy.
Qed.

Lemma with_key_app k l1 l2 : with_key k (l1 ++ l2) = (with_key k l1 ++ with_key k l2)%list.
Proof. apply List.filter_app. Qed.

Lemma with_key_none k l :
  Forall (fun w => _date_sort_key w <> k) l -> with_key k l = [].
Proof.
  induction 1 as [| w l Hw _ IH]; [reflexivity |].
  unfold with_key in *. cbn [List.filter].
  destruct (key_eqb (_date_sort_key w) k) eqn:E; [| exact IH].
  apply key_eqb_eq in E. contradiction.
Qed.

(** An insertion keeps the list ascending and puts the new item behind the
    items that have its key. *)
Lemma insert_sorted_stable x a r :
  insert_sorted x a = Ok r -> ascending a ->
  ascending r /\ forall k, with_key k r = with_key k (a ++ [x]).
Proof.
  revert r. induction a as [| y a IH]; intros r; cbn [insert_sorted].
  - intros [= <-] _. split; [| reflexivity]. cbn. auto.
  - destruct (key_lt (_date_sort_key x) (_date_sort_key y)) as [[|] |] eqn:Hlt;
      cbn [rbind]; [| | discriminate].
    + intros [= <-] [Hy Ha].
      assert (Hx : Forall (fun w => key_lt (_date_sort_key x) (_date_sort_key w) = Ok true
                                    /\ not_after x w) (y :: a)).
      { apply Forall_cons. split; [split; [exact Hlt | apply key_lt_asym, Hlt] |].
        apply (Forall_impl _ _ _ Hy). intros w Hw.
        apply (key_lt_le_trans _ _ _ Hlt Hw). }
      split.
      * cbn [ascending]. split; [| split; assumption].
        apply (Forall_impl _ _ _ Hx). intros w [_ Hw]. exact Hw.
      * intros k. change (x :: y :: a) with ([x] ++ (y :: a))%list.
        rewrite !with_key_app.
        destruct (key_eqb (_date_sort_key x) k) eqn:Ek.
        -- apply key_eqb_eq in Ek. subst k.
           rewrite (with_key_none (_date_sort_key x) (y :: a)).
           ++ rewrite app_nil_r. reflexivity.
           ++ apply (Forall_impl _ _ _ Hx). intros w [Hw _] E.
              rewrite E, key_lt_irrefl in Hw. discriminate.
        -- unfold with_key at 1 4. cbn [List.filter]. rewrite Ek.
           rewrite app_nil_r. reflexivity.
    + destruct (insert_sorted x a) as [r' |] eqn:Hr; cbn [rbind]; [| discriminate].
      intros [= <-] [Hy Ha]. destruct (IH r' eq_refl Ha) as [Hasc Hk]. split.
      * cbn [ascending]. split; [| exact Hasc].
        apply Forall_forall. intros w Hw.
        rewrite (insert_sorted_perm _ _ _ Hr) in Hw.
        apply elem_of_cons in Hw as [-> | Hw]; [exact Hlt |].
        apply (proj1 (Forall_forall _ _) Hy w Hw).
      * intros k. change (y :: r') with ([y] ++ r')%list.
        change ((y :: a) ++ [x])%list with ([y] ++ (a ++ [x]))%list.
        rewrite !with_key_app, Hk, !with_key_app. reflexivity.
Qed.

(** The sort while it runs: [a] holds the items of [done], sorted. *)
Lemma sorted_fold_stable (s : list item) :
  forall rest a done,
    ascending a -> (forall k, with_key k a = with_key k done) ->
    fold_left (fun acc x => rbind acc (fun a => insert_sorted x a)) rest (Ok a) = Ok s ->
    ascending s /\ forall k, with_key k s = with_key k (done ++ rest).
Proof.
  induction rest as [| x rest IH]; intros a done Ha Hk; cbn [fold_left rbind].
  - intros [= <-]. rewrite app_nil_r. auto.
  - destruct (insert_sorted x a) as [r |] eqn:Hr; [| rewrite fold_sorted_raise; discriminate].
    destruct (insert_sorted_stable _ _ _ Hr Ha) as [Hasc Hk'].
    replace (done ++ x :: rest)%list with ((done ++ [x]) ++ rest)%list
      by (rewrite <- app_assoc; reflexivity).
    apply IH; [exact Hasc |].
    intros k. rewrite Hk', !with_key_app, Hk. reflexivity.
Qed.

Lemma sorted_ascending (l s : list item) : sorted l = Ok s -> ascending s.
Proof.
  intros Hs. apply (sorted_fold_stable s l [] []); [exact I | reflexivity | exact Hs].
Qed.

(** X11: when the thread sort returns, its result is a rearrangement of
    the items in which no item sorts before an item in front of it, and in
    which the items that have the same sort key keep the order they had in
    the input. *)
Theorem sorted_is_stable_ascending (l s : list item) :
  sorted l = Ok s ->
  s ≡ₚ l /\ ascending s /\ forall k, with_key k s = with_key k l.
Proof.
  intros Hs. split; [apply sorted_perm, Hs |].
  destruct (sorted_fold_stable s l [] []) as [Hasc Hk];
    [exact I | reflexivity | exact Hs |].
  split; [exact Hasc |]. intros k. rewrite Hk. reflexivity.
Qed.

End Sorting.

Lemma sorted_is_stable_ascending_witness :
  [("1", [("id", PStr "1"); ("timestamp", PStr "a")]);
   ("2", [("id", PStr "2"); ("timestamp", PStr "b")])] ≡ₚ two_items
  /\ @ascending Examples.browse_lib
       [("1", [("id", PStr "1"); ("timestamp", PStr "a")]);
        ("2", [("id", PStr "2"); ("timestamp", PStr "b")])]
  /\ forall k,
       @with_key Examples.browse_lib k
         [("1", [("id", PStr "1"); ("timestamp", PStr "a")]);
          ("2", [("id", PStr "2"); ("timestamp", PStr "b")])]
       = @with_key Examples.browse_lib k two_items.
Proof.
  apply (@sorted_is_stable_ascending Examples.browse_lib two_items).
  vm_compute. reflexivity.
Defined.

(** *** In-thread links: whom they name *)

Lemma record_links_dom l :
  forall pn k,
    is_Some (record_links pn l !! k) <-> k ∈ map fst l \/ is_Some (pn !! k).
Proof.
  unfold record_links.
  induction l as [| [k0 v0] l IH]; intros pn k; cbn [fold_left map fst snd].
  - split; [auto | intros [[]%elem_of_nil | H]; exact H].
  - rewrite IH, lookup_insert_is_Some, elem_of_cons. split.
    + intros [H | [-> | [_ H]]]; auto.
    + intros [[-> | H] | H]; auto.
      destruct (decide (k0 = k)); auto.
Qed.

Lemma record_links_in l :
  forall pn k v,
    record_links pn l !! k = Some v -> (k, v) ∈ l \/ pn !! k = Some v.
Proof.
  unfold record_links.
  induction l as [| [k0 v0] l IH]; intros pn k v; cbn [fold_left fst snd]; [auto |].
  intros [Hin | Hl]%IH.
  - left. apply list_elem_of_further, Hin.
  - destruct (decide (k0 = k)) as [-> | Hne].
    + rewrite lookup_insert_eq in Hl. injection Hl as ->. left. apply list_elem_of_here.
    + rewrite lookup_insert_ne in Hl by exact Hne. auto.
Qed.

(** An entry that names a message before, or a message after, comes from
    two neighbours of the list. *)
Lemma thread_links_neighbours (s : list item) :
  forall prev A B p n,
    (A, (p, Some B)) ∈ thread_links prev (map fst s)
    \/ (B, (Some A, n)) ∈ thread_links prev (map fst s) ->
    (prev = Some A /\ exists y t, s = y :: t /\ fst y = B)
    \/ exists l1 x y l2, s = (l1 ++ x :: y :: l2)%list /\ fst x = A /\ fst y = B.
Proof.
  induction s as [| z s IH]; intros prev A B p n; cbn [map thread_links].
  - intros [[]%elem_of_nil | []%elem_of_nil].
  - intros [[[= -> -> Hh] | Hin]%elem_of_cons | [[= -> -> _] | Hin]%elem_of_cons].
    + destruct s as [| y s]; [discriminate |]. injection Hh as Hh.
      right. exists [], z, y, s. auto.
    + destruct (IH _ A B p n (or_introl Hin)) as [(Hp & y & t & -> & Hy) | (l1 & x & y & l2 & -> & Hx & Hy)].
      * injection Hp as <-. right. exists [], z, y, t. auto.
      * right. exists (z :: l1), x, y, l2. auto.
    + left. split; [reflexivity |]. exists z, s. auto.
    + destruct (IH _ A B p n (or_intror Hin)) as [(Hp & y & t & -> & Hy) | (l1 & x & y & l2 & -> & Hx & Hy)].
      * injection Hp as <-. right. exists [], z, y, t. auto.
      * right. exists (z :: l1), x, y, l2. auto.
Qed.

Section Links.
Context {L : Lib}.

Lemma ascending_neighbours l1 x y l2 :
  ascending (l1 ++ x :: y :: l2) -> not_after x y.
Proof.
  induction l1 as [| z l1 IH]; cbn [app ascending].
  - intros [H _]. apply Forall_cons in H as [H _]. exact H.
  - intros [_ H]. apply IH, H.
Qed.

(** What [link_threads] adds to the links: an entry for every message of
    the threads, each taken from the sorted list of one thread. *)
Lemma link_threads_entries ts :
  forall pn pn',
    link_threads pn ts = Ok pn' ->
    (forall m, is_Some (pn' !! m)
               <-> is_Some (pn !! m) \/ m ∈ map fst (concat (map snd ts)))
    /\ (forall m v, pn' !! m = Some v ->
                    pn !! m = Some v
                    \/ exists k its s, (k, its) ∈ ts /\ sorted its = Ok s
                                       /\ (m, v) ∈ thread_links None (map fst s)).
Proof.
  induction ts as [| [k items] ts IH]; intros pn pn'; cbn [link_threads].
  - intros [= <-]. split; [| auto].
    intros m. cbn. split; [auto | intros [H | []%elem_of_nil]; exact H].
  - destruct (sorted items) as [s |] eqn:Hs; cbn [rbind]; [| discriminate].
    intros H. destruct (IH _ _ H) as [Hdom Hent]. split.
    + intros m. rewrite Hdom, record_links_dom, thread_links_keys.
      cbn [map snd concat]. rewrite map_app, elem_of_app, (sorted_perm _ _ Hs). tauto.
    + intros m v Hm. destruct (Hent m v Hm) as [Hl | (k' & its & s' & Hin & Hs' & Hl)].
      * apply record_links_in in Hl as [Hl | Hl]; [| auto].
        right. exists k, items, s. split; [apply list_elem_of_here | auto].
      * right. exists k', its, s'. split; [apply list_elem_of_further, Hin | auto].
Qed.

(** X12: when the in-thread links have been computed, exactly the ids
    computed for the docs have an entry in them. *)
Theorem thread_links_cover_the_messages index (docs : list pydict) (pn : gmap string links) :
  prev_next_in_thread index docs = Ok pn ->
  exists mids, ordered_mids docs = Ok mids /\ forall m, is_Some (pn !! m) <-> m ∈ mids.
Proof.
  unfold prev_next_in_thread.
  destruct (full_docs index docs) as [fd |] eqn:Hfd; cbn [rbind]; [| discriminate].
  intros Hl. exists (map fst fd). split; [apply (full_docs_mids _ _ _ Hfd) |].
  intros m. destruct (link_threads_entries _ _ _ Hl) as [Hdom _].
  rewrite Hdom, group_threads_items, lookup_empty. split; [| auto].
  intros [[x Hx] | H]; [discriminate | exact H].
Qed.

(** X13: an in-thread link never leaves the thread and never goes back in
    time.  When B is the next message of A in its thread, or A the one
    before B, then A and B are ids of two docs that have the same thread
    key, and the sort key of B does not sort before that of A. *)
Theorem thread_links_stay_in_thread index (docs : list pydict) (pn : gmap string links)
        (A B : string) :
  prev_next_in_thread index docs = Ok pn ->
  next_in_thread pn A = Some B \/ prev_in_thread pn B = Some A ->
  exists fd rdA rdB,
    full_docs index docs = Ok fd
    /\ (A, rdA) ∈ fd /\ (B, rdB) ∈ fd
    /\ thread_key A rdA = thread_key B rdB
    /\ not_after (A, rdA) (B, rdB).
Proof.
  unfold prev_next_in_thread.
  destruct (full_docs index docs) as [fd |] eqn:Hfd; cbn [rbind]; [| discriminate].
  intros Hl Hnav. exists fd.
  destruct (link_threads_entries _ _ _ Hl) as [_ Hent].
  assert (Hn : exists k its s,
             (k, its) ∈ group_threads fd /\ sorted its = Ok s
             /\ exists p n, (A, (p, Some B)) ∈ thread_links None (map fst s)
                            \/ (B, (Some A, n)) ∈ thread_links None (map fst s)).
  { unfold next_in_thread, prev_in_thread in Hnav. destruct Hnav as [Hnav | Hnav].
    - destruct (pn !! A) as [[p n] |] eqn:HA; [| discriminate]. subst n.
      destruct (Hent _ _ HA) as [H | (k & its & s & Hin & Hs & H)];
        [rewrite lookup_empty in H; discriminate |].
      exists k, its, s. split; [exact Hin |]. split; [exact Hs |].
      exists p, None. auto.
    - destruct (pn !! B) as [[p n] |] eqn:HB; [| discriminate]. subst p.
      destruct (Hent _ _ HB) as [H | (k & its & s & Hin & Hs & H)];
        [rewrite lookup_empty in H; discriminate |].
      exists k, its, s. split; [exact Hin |]. split; [exact Hs |].
      exists None, n. auto. }
  destruct Hn as (k & its & s & Hin & Hs & p & n & Hlinks).
  destruct (thread_links_neighbours s None A B p n Hlinks)
    as [[Hp _] | (l1 & x & y & l2 & Heq & Hx & Hy)]; [discriminate |].
  pose proof (sorted_perm _ _ Hs) as Hp.
  pose proof (sorted_ascending _ _ Hs) as Hasc.
  assert (Hmem : forall w, w ∈ s -> w ∈ fd /\ thread_key (fst w) (snd w) = k).
  { intros w Hw. rewrite Hp in Hw. apply (group_threads_members fd k its w Hin Hw). }
  assert (Hxs : x ∈ s).
  { rewrite Heq. apply elem_of_app. right. apply list_elem_of_here. }
  assert (Hys : y ∈ s).
  { rewrite Heq. apply elem_of_app. right. apply list_elem_of_further, list_elem_of_here. }
  destruct (Hmem x Hxs) as [Hxf Hxk], (Hmem y Hys) as [Hyf Hyk].
  rewrite Heq in Hasc. apply ascending_neighbours in Hasc.
  destruct x as [a rdA], y as [b rdB]. cbn [fst snd] in *. subst a b.
  exists rdA, rdB. split; [reflexivity |]. repeat split; try assumption. congruence.
Qed.

End Links.

Lemma thread_links_cover_the_messages_witness :
  exists pn mids,
    @prev_next_in_thread Examples.browse_lib ∅ Examples.two_docs = Ok pn
    /\ @ordered_mids Examples.browse_lib Examples.two_docs = Ok mids
    /\ forall m, is_Some (pn !! m) <-> m ∈ mids.
Proof.
  destruct (@prev_next_in_thread Examples.browse_lib ∅ Examples.two_docs) as [pn | e] eqn:H.
  - exists pn.
    destruct (@thread_links_cover_the_messages Examples.browse_lib _ _ _ H) as (mids & Hm & Hd).
    exists mids. auto.
  - vm_compute in H. discriminate H.
Defined.

Lemma thread_links_stay_in_thread_witness :
  exists fd rdA rdB,
    @full_docs Examples.browse_lib ∅ Examples.two_docs = Ok fd
    /\ ("A", rdA) ∈ fd /\ ("B", rdB) ∈ fd
    /\ thread_key "A" rdA = thread_key "B" rdB
    /\ @not_after Examples.browse_lib ("A", rdA) ("B", rdB).
Proof.
  assert (E : match @prev_next_in_thread Examples.browse_lib ∅ Examples.two_docs with
              | Ok pn => next_in_thread pn "A"
              | Raise _ => None
              end = Some "B") by (vm_compute; reflexivity).
  destruct (@prev_next_in_thread Examples.browse_lib ∅ Examples.two_docs) as [pn | e] eqn:H;
    [| discriminate E].
  exact (@thread_links_stay_in_thread Examples.browse_lib _ _ pn "A" "B" H (or_introl E)).
Defined.


End BrowseMore.

(** ** Slugs, groupings, the picked text; from the corpus to the site *)
Module PagesFacts.
Import Py Re Extract Browse Pages Spec Words ReFacts CorpusFacts CorpusMore BrowseMore.

(** *** Slugs *)

Lemma has_pair_cons c a s :
  has_pair c (String a s) = Ascii.eqb a c && head_is c s || has_pair c s.
Proof. destruct s as [| b s]; cbn [has_pair head_is]; [rewrite andb_false_r |]; reflexivity. Qed.

(** After runs of a class that holds the dash have been replaced by one
    dash each, no two dashes stand side by side. *)
Lemma sub_plus_dash_pairs p s :
  p "-"%char = true ->
  has_pair "-" (sub_skip (Plus p) "-" O s) = false
  /\ has_pair "-" (sub_skip (Plus p) "-" (String.length s - String.length (drop_run p s)) s) = false
  /\ head_is "-" (sub_skip (Plus p) "-" (String.length s - String.length (drop_run p s)) s) = false.
Proof.
  intros Hp. induction s as [| c s (IH0 & IH1 & IH2)]; [auto |].
  assert (H0 : has_pair "-" (sub_skip (Plus p) "-" O (String c s)) = false
               /\ (p c = false -> head_is "-" (sub_skip (Plus p) "-" O (String c s)) = false)).
  { cbn [sub_skip]. rewrite match_len_plus. destruct (p c) eqn:Ec.
    - split; [| discriminate]. change (has_pair "-" (String "-" (sub_skip (Plus p) "-"
               (String.length s - String.length (drop_run p s)) s)) = false).
      rewrite has_pair_cons, IH1, IH2.
      rewrite andb_false_r. reflexivity.
    - assert (Hc : Ascii.eqb c "-" = false).
      { destruct (Ascii.eqb_spec c "-"); [congruence | reflexivity]. }
      split; [| intros _; exact Hc]. rewrite has_pair_cons, Hc, IH0. reflexivity. }
  split; [apply H0 |]. cbn [drop_run]. destruct (p c) eqn:Ec.
  - pose proof (drop_run_length p s).
    replace (String.length (String c s) - String.length (drop_run p s))%nat
      with (S (String.length s - String.length (drop_run p s))) by (cbn [String.length]; lia).
    cbn [sub_skip]. auto.
  - rewrite Nat.sub_diag. split; [apply H0 | apply H0; reflexivity].
Qed.

(** The fourth pattern finds nothing where no two dashes stand side by
    side. *)
Lemma sub_dashes_nothing s : has_pair "-" s = false -> sub re_dashes "-" s = s.
Proof.
  unfold sub. induction s as [| c s IH]; [reflexivity |].
  rewrite has_pair_cons. intros [Hh Hs]%orb_false_iff. cbn [sub_skip].
  assert (Hm : match_len re_dashes (String c s) = None).
  { unfold match_len, re_dashes. cbn [run lit].
    destruct (Ascii.eqb_spec "-" c) as [<- | Hc]; [| reflexivity].
    destruct s as [| b s]; [reflexivity |]. cbn [head_is] in Hh. cbn [andb] in Hh.
    destruct (Ascii.eqb_spec "-" b) as [<- | Hb]; [discriminate | reflexivity]. }
  rewrite Hm, (IH Hs). reflexivity.
Qed.

Lemma has_pair_lstrip c p s : has_pair c s = false -> has_pair c (lstrip_by p s) = false.
Proof.
  induction s as [| a s IH]; [reflexivity |].
  cbn [lstrip_by]. destruct (p a); [| trivial].
  rewrite has_pair_cons. intros [_ H]%orb_false_iff. auto.
Qed.

Lemma rstrip_by_head_is c p s : head_is c (rstrip_by p s) = true -> head_is c s = true.
Proof.
  destruct s as [| a s]; [trivial |]. cbn [rstrip_by].
  destruct (p a && _); [discriminate | trivial].
Qed.

Lemma has_pair_rstrip c p s : has_pair c s = false -> has_pair c (rstrip_by p s) = false.
Proof.
  induction s as [| a s IH]; [reflexivity |].
  rewrite has_pair_cons. intros [Hh Hs]%orb_false_iff. cbn [rstrip_by].
  destruct (p a && _); [reflexivity |].
  rewrite has_pair_cons, (IH Hs), orb_false_r.
  destruct (Ascii.eqb a c); [| reflexivity]. cbn [andb] in *.
  destruct (head_is c (rstrip_by p s)) eqn:E; [| reflexivity].
  rewrite (rstrip_by_head_is _ _ _ E) in Hh. discriminate.
Qed.

(** A text trimmed of a class does not end with a character of it. *)
Lemma rstrip_by_end p c s : p c = true -> endswith (str1 c) (rstrip_by p s) = false.
Proof.
  intros Hc. induction s as [| a s IH]; [reflexivity |].
  cbn [rstrip_by]. destruct (p a && String.eqb (rstrip_by p s) EmptyString) eqn:E;
    [reflexivity |].
  cbn [endswith]. rewrite IH, orb_false_r. unfold str1. cbn [String.eqb].
  destruct (Ascii.eqb_spec c a) as [<- | Hne]; [| reflexivity].
  rewrite Hc in E. cbn [andb] in E.
  destruct (rstrip_by p s); [discriminate | reflexivity].
Qed.

(** X14: a slug is a safe file name.  Whatever the author name, the slug
    is not empty, holds only the letters a to z, digits and dashes, never
    two dashes in a row, and neither starts nor ends with a dash. *)
Theorem slug_is_a_safe_name (s : string) :
  _slugify s <> EmptyString
  /\ all_chars slug_or_dash (_slugify s) = true
  /\ has_pair "-" (_slugify s) = false
  /\ startswith "-" (_slugify s) = false
  /\ endswith "-" (_slugify s) = false.
Proof.
  unfold _slugify. destruct (String.eqb s EmptyString); [repeat split; discriminate |].
  set (s3 := sub re_at "-at-" _).
  set (s4 := sub re_not_slug "-" s3).
  assert (Hdash : (fun c => negb (is_slug_char c)) "-"%char = true) by reflexivity.
  assert (H4 : has_pair "-" s4 = false) by apply (sub_plus_dash_pairs _ s3 Hdash).
  assert (A4 : all_chars slug_or_dash s4 = true).
  { apply sub_plus_chars; [| reflexivity].
    intros c Hc. apply negb_false_iff in Hc. unfold slug_or_dash. rewrite Hc. reflexivity. }
  rewrite (sub_dashes_nothing s4 H4).
  destruct (String.eqb_spec (rstrip_by (ch "-") (lstrip_by (ch "-") s4)) EmptyString)
    as [_ | Hne]; [repeat split; discriminate |].
  split; [exact Hne |].
  split; [apply all_chars_rstrip, all_chars_lstrip, A4 |].
  split; [apply has_pair_rstrip, has_pair_lstrip, H4 |].
  split; [| apply (rstrip_by_end (ch "-") "-"); reflexivity].
  destruct (lstrip_by_cases (ch "-") s4) as [E | (c & t & E & Hc)];
    rewrite E in *; [contradiction Hne; reflexivity |].
  destruct (rstrip_by_head (ch "-") c t Hc) as (t' & ->).
  unfold startswith. cbn [String.prefix].
  destruct (ascii_dec "-" c) as [<- | _]; [discriminate Hc | reflexivity].
Qed.

(** *** Dicts of lists *)

Section Groups.
Context {V : Type} (f : V -> string).

Lemma group_add_keys k (v : V) g :
  map fst (group_add k v g)
  = if decide (k ∈ map fst g) then map fst g else (map fst g ++ [k])%list.
Proof.
  induction g as [| [k' vs] g IH]; [reflexivity |].
  cbn [group_add map fst]. destruct (String.eqb_spec k' k) as [-> | E].
  - cbn [map fst]. rewrite decide_True by (apply elem_of_cons; auto). reflexivity.
  - cbn [map fst]. rewrite IH.
    destruct (decide (k ∈ map fst g)) as [Hin | Hnin].
    + rewrite decide_True by (apply elem_of_cons; auto). reflexivity.
    + rewrite decide_False; [reflexivity |].
      intros [? | ?]%elem_of_cons; [congruence | contradiction].
Qed.

Lemma group_add_nodup k (v : V) g :
  NoDup (map fst g) -> NoDup (map fst (group_add k v g)).
Proof.
  intros Hnd. rewrite group_add_keys.
  destruct (decide (k ∈ map fst g)) as [Hin | Hnin]; [exact Hnd |].
  apply NoDup_app. split; [exact Hnd |]. split; [| apply NoDup_singleton].
  intros x Hx ->%list_elem_of_singleton. contradiction.
Qed.

Lemma group_add_entries k (v : V) g :
  NoDup (map fst g) ->
  forall k' vs',
    (k', vs') ∈ group_add k v g ->
    (k' <> k /\ (k', vs') ∈ g)
    \/ (k' = k /\ exists vs, (k, vs) ∈ g /\ vs' = (vs ++ [v])%list)
    \/ (k' = k /\ (k ∉ map fst g) /\ vs' = [v]).
Proof.
  induction g as [| [k0 vs0] g IH]; intros Hnd k' vs'; cbn [group_add].
  - intros [= -> ->]%list_elem_of_singleton. right. right.
    split; [reflexivity |]. split; [apply not_elem_of_nil | reflexivity].
  - cbn [map fst] in Hnd. apply NoDup_cons in Hnd as [Hk0 Hnd].
    assert (Hkey : forall vs, (k0, vs) ∈ g -> False).
    { intros vs Hin. apply Hk0. apply (list_elem_of_fmap_2 fst _ _ Hin). }
    destruct (String.eqb_spec k0 k) as [-> | E].
    + intros [[= -> ->] | Hin]%elem_of_cons.
      * right. left. split; [reflexivity |]. exists vs0.
        split; [apply list_elem_of_here | reflexivity].
      * left. split; [| apply list_elem_of_further, Hin].
        intros ->. exact (Hkey _ Hin).
    + intros [[= -> ->] | Hin]%elem_of_cons.
      * left. split; [exact E | apply list_elem_of_here].
      * destruct (IH Hnd _ _ Hin) as [[Hne Hin'] | [(-> & vs & Hin' & ->) | (-> & Hn & ->)]].
        -- left. split; [exact Hne | apply list_elem_of_further, Hin'].
        -- right. left. split; [reflexivity |]. exists vs.
           split; [apply list_elem_of_further, Hin' | reflexivity].
        -- right. right. split; [reflexivity |]. split; [| reflexivity].
           cbn [map fst]. intros [? | ?]%elem_of_cons; [congruence | contradiction].
Qed.

Lemma keyed_app k (l : list V) v :
  keyed f k (l ++ [v])%list
  = (keyed f k l ++ (if String.eqb (f v) k then [v] else []))%list.
Proof. unfold keyed. rewrite List.filter_app. reflexivity. Qed.

(** A dict of lists filled in one pass over a list holds, under each key,
    the values of the list that have this key, in the list's order. *)
Lemma grouped_lists (l : list V) :
  let g := fold_left (fun g d => group_add (f d) d g) l [] in
  NoDup (map fst g)
  /\ (forall k vs, (k, vs) ∈ g -> vs = keyed f k l /\ vs <> [])
  /\ (forall k, k ∉ map fst g -> keyed f k l = []).
Proof.
  cbv zeta.
  enough (H : forall rest done g,
             NoDup (map fst g)
             /\ (forall k vs, (k, vs) ∈ g -> vs = keyed f k done /\ vs <> [])
             /\ (forall k, k ∉ map fst g -> keyed f k done = []) ->
             let g' := fold_left (fun g d => group_add (f d) d g) rest g in
             NoDup (map fst g')
             /\ (forall k vs, (k, vs) ∈ g' -> vs = keyed f k (done ++ rest) /\ vs <> [])
             /\ (forall k, k ∉ map fst g' -> keyed f k (done ++ rest) = [])).
  { apply (H l [] []). refine (conj (NoDup_nil_2) (conj _ _)).
    - intros ? ? []%elem_of_nil.
    - reflexivity. }
  induction rest as [| d rest IH]; intros done g (Hnd & Hel & Hno); cbn [fold_left]; cbv zeta.
  - rewrite app_nil_r. auto.
  - replace (done ++ d :: rest)%list with ((done ++ [d]) ++ rest)%list
      by (rewrite <- app_assoc; reflexivity).
    apply IH. refine (conj (group_add_nodup _ _ _ Hnd) (conj _ _)).
    + intros k vs Hin. rewrite keyed_app.
      apply (group_add_entries _ _ _ Hnd) in Hin
        as [[Hne Hin] | [(-> & vs0 & Hin & ->) | (-> & Hn & ->)]].
      * destruct (Hel _ _ Hin) as [-> Hne'].
        destruct (String.eqb_spec (f d) k) as [E | E]; [congruence |].
        rewrite app_nil_r. auto.
      * destruct (Hel _ _ Hin) as [-> _]. rewrite String.eqb_refl. split; [reflexivity |].
        intros H. apply app_eq_nil in H as [_ H]. discriminate H.
      * rewrite (Hno _ Hn), String.eqb_refl. split; [reflexivity | discriminate].
    + intros k Hk. rewrite keyed_app. rewrite group_add_keys in Hk.
      destruct (decide (f d ∈ map fst g)) as [Hin | Hnin].
      * rewrite (Hno k Hk).
        destruct (String.eqb_spec (f d) k) as [<- | E]; [contradiction | reflexivity].
      * apply not_elem_of_app in Hk as [Hk Hk'].
        rewrite (Hno k Hk).
        destruct (String.eqb_spec (f d) k) as [<- | E]; [| reflexivity].
        destruct Hk'. apply list_elem_of_here.
Qed.

Lemma grouped_entries (l : list V) k vs :
  (k, vs) ∈ fold_left (fun g d => group_add (f d) d g) l []
  <-> vs = keyed f k l /\ vs <> [].
Proof.
  destruct (grouped_lists l) as (Hnd & Hel & Hno). split; [apply Hel |].
  intros [-> Hne].
  destruct (decide (k ∈ map fst (fold_left (fun g d => group_add (f d) d g) l [])))
    as [Hin | Hnin]; [| destruct (Hne (Hno k Hnin))].
  apply list_elem_of_fmap in Hin as ([k' vs'] & -> & Hin). cbn [fst].
  destruct (Hel _ _ Hin) as [<- _]. exact Hin.
Qed.

End Groups.

Lemma keyed_map {U V : Type} (f : V -> string) (h : U -> V) k (l : list U) :
  keyed f k (map h l) = map h (keyed (fun u => f (h u)) k l).
Proof.
  unfold keyed. induction l as [| u l IH]; [reflexivity |].
  cbn [map List.filter]. destruct (String.eqb (f (h u)) k); cbn [map]; rewrite IH; reflexivity.
Qed.

(** *** Decimal texts *)

Lemma to_int_not_nil n :
  Z.to_int n <> Decimal.Pos Decimal.Nil /\ Z.to_int n <> Decimal.Neg Decimal.Nil.
Proof.
  split; intros E; pose proof (DecimalZ.of_to n) as H; rewrite E in H; cbn in H;
    subst n; discriminate E.
Qed.

Lemma str_of_Z_parses n : NilZero.int_of_string (str_of_Z n) = Some (Z.to_int n).
Proof. destruct (to_int_not_nil n). apply NilZero.isi; assumption. Qed.

Lemma str_of_Z_inj a b : str_of_Z a = str_of_Z b -> a = b.
Proof.
  intros E. apply DecimalZ.to_int_inj.
  pose proof (str_of_Z_parses a) as Ha. rewrite E, str_of_Z_parses in Ha. congruence.
Qed.

Lemma str_of_Z_not_unknown n : str_of_Z n <> "unknown".
Proof.
  intros E. pose proof (str_of_Z_parses n) as H. rewrite E in H. discriminate H.
Qed.

(** *** From the corpus to site/docs.json *)

Lemma docs_json_of_rows (msgs : list doc) :
  Lunr.docs_json (map Lunr.row msgs) = Some (map site_doc msgs).
Proof.
  induction msgs as [| m msgs IH]; [reflexivity |].
  cbn [map Lunr.docs_json]. rewrite IH. reflexivity.
Qed.

Section Years.
Context {L : Pages.Lib}.

Lemma get_year_site_doc (m : doc) : get_year (site_doc m) = year_name m.
Proof.
  unfold get_year, site_doc, year_name, get. cbn.
  destruct (doc_year m) as [y |]; reflexivity.
Qed.

Lemma keyed_year_name (msgs : list doc) :
  (forall y, keyed year_name (str_of_Z y) msgs = with_year y msgs)
  /\ keyed year_name "unknown" msgs = undated msgs.
Proof.
  unfold keyed, with_year, undated. split; [intros y |];
    apply List.filter_ext; intros m; unfold year_name, has_year;
    destruct (doc_year m) as [y' |]; try reflexivity.
  - destruct (Z.eqb_spec y' y) as [-> | Hne]; [apply String.eqb_refl |].
    destruct (String.eqb_spec (str_of_Z y') (str_of_Z y)) as [E | _]; [| reflexivity].
    destruct (Hne (str_of_Z_inj _ _ E)).
  - destruct (String.eqb_spec "unknown" (str_of_Z y)) as [E | _]; [| reflexivity].
    destruct (str_of_Z_not_unknown y (eq_sym E)).
  - destruct (String.eqb_spec (str_of_Z y') "unknown") as [E | _]; [| reflexivity].
    destruct (str_of_Z_not_unknown y' E).
Qed.

Lemma years_of_corpus (msgs : list doc) (key : string) (ds : list pydict) :
  (key, ds) ∈ years (map site_doc msgs) <->
  ds <> []
  /\ ((exists y, key = str_of_Z y /\ ds = map site_doc (with_year y msgs))
      \/ (key = "unknown" /\ ds = map site_doc (undated msgs))).
Proof.
  unfold years. rewrite (grouped_entries get_year), keyed_map.
  destruct (keyed_year_name msgs) as [Hy Hu].
  assert (Hk : keyed (fun u => get_year (site_doc u)) key msgs = keyed year_name key msgs).
  { unfold keyed. apply List.filter_ext. intros m. rewrite get_year_site_doc. reflexivity. }
  rewrite Hk. split.
  - intros [-> Hne]. split; [exact Hne |].
    destruct (keyed year_name key msgs) as [| m ms] eqn:E; [contradiction Hne; reflexivity |].
    assert (Hm : m ∈ keyed year_name key msgs) by (rewrite E; apply list_elem_of_here).
    unfold keyed in Hm. apply list_elem_of_In, List.filter_In in Hm as [_ Hm].
    apply String.eqb_eq in Hm. rewrite <- E. unfold year_name in Hm.
    destruct (doc_year m) as [y |]; subst key.
    + left. exists y. rewrite Hy. auto.
    + right. rewrite Hu. auto.
  - intros [Hne [(y & -> & ->) | (-> & ->)]]; [rewrite Hy | rewrite Hu]; auto.
Qed.

End Years.
(** *** Year pages and year files *)

Section Site.
Context {Le : Extract.Lib} {Lp : Pages.Lib}.


Lemma written_author_trimmed (datas : list pyval) (m : doc) :
  m ∈ messages_ndjson (fst (main datas)) -> strip (doc_author m) = doc_author m.
Proof.
  intros Hm. destruct (written_is_built datas m Hm) as (d & _ & _ & Hb).
  unfold build in Hb.
  destruct (stripped (get d "subject")) as [subj |]; cbn [rbind] in Hb; [| discriminate].
  destruct (stripped (py_or _ (get d "from"))) as [auth |] eqn:Hauth; cbn [rbind] in Hb;
    [| discriminate].
  destruct (to_iso_and_year _) as [ts y].
  destruct (email_to_text_val (get d "rawEmail")) as [t |]; cbn [rbind] in Hb;
    [| discriminate].
  remember (take 1000 t) as idx. injection Hb as <-. cbn [doc_author].
  apply (stripped_is_trimmed _ _ Hauth).
Qed.

(** X16: a message of the corpus is grouped under its author field on the
    author pages, and under "Unknown" when that field is empty. *)
Theorem corpus_author_page (datas : list pyval) :
  Forall (fun m =>
            author_of (site_doc m)
            = if String.eqb (doc_author m) EmptyString then "Unknown" else doc_author m)
         (messages_ndjson (fst (main datas))).
Proof.
  apply Forall_forall. intros m Hm.
  pose proof (written_author_trimmed datas m Hm) as Ha.
  unfold author_of, _author_name_from_doc, site_doc. cbn. rewrite Ha.
  destruct (String.eqb (doc_author m) EmptyString) eqn:E; cbn; [reflexivity |].
  rewrite E. reflexivity.
Qed.

End Site.


(** *** Ids and navigation of a site built from a corpus *)

Section Ids.
Context {Le : Extract.Lib} {Lb : Browse.Lib}.

Lemma compute_mid_site_doc (m : doc) :
  clean_id (doc_id m) = true -> compute_mid (site_doc m) = Ok (doc_id m).
Proof.
  unfold clean_id. intros [Hne Hu]%andb_true_iff. apply String.eqb_eq in Hu.
  unfold compute_mid, site_doc. cbn. rewrite Hne. cbn. rewrite Hu. reflexivity.
Qed.

Lemma ordered_mids_site_docs (msgs : list doc) :
  Forall (fun m => clean_id (doc_id m) = true) msgs ->
  ordered_mids (map site_doc msgs) = Ok (map doc_id msgs).
Proof.
  induction 1 as [| m msgs Hm _ IH]; [reflexivity |].
  cbn [map ordered_mids]. rewrite (compute_mid_site_doc m Hm), IH. reflexivity.
Qed.

End Ids.

Section Navigation.
Context {Le : Extract.Lib} {Lb : Browse.Lib}.

(** X17: in a site built from a corpus whose ids are all non-empty,
    trimmed and not enclosed in angle brackets, the ids computed for the
    docs are the ids of the corpus in its order; they are pairwise distinct,
    and B is the chronological successor of A exactly when A is the
    chronological predecessor of B. *)
Theorem clean_corpus_site_navigation (datas : list pyval) :
  Forall (fun m => clean_id (doc_id m) = true) (messages_ndjson (fst (main datas))) ->
  ordered_mids (map site_doc (messages_ndjson (fst (main datas))))
  = Ok (map doc_id (messages_ndjson (fst (main datas))))
  /\ NoDup (map doc_id (messages_ndjson (fst (main datas))))
  /\ forall A B,
       next_mid (map doc_id (messages_ndjson (fst (main datas)))) A = Some B
       <-> prev_mid (map doc_id (messages_ndjson (fst (main datas)))) B = Some A.
Proof.
  intros Hc. split; [apply ordered_mids_site_docs, Hc |].
  assert (Hnd : NoDup (map doc_id (messages_ndjson (fst (main datas))))).
  { rewrite main_messages. destruct (loop_ids (records datas)) as (? & ? & _ & _ & H & _).
    exact H. }
  split; [exact Hnd |]. intros A B. apply chrono_links_nodup, Hnd.
Qed.

End Navigation.

Lemma clean_corpus_site_navigation_witness :
  @ordered_mids Examples.browse_lib
    (map site_doc (messages_ndjson (fst (@main Examples.extract_lib Examples.three_records))))
  = Ok (map doc_id (messages_ndjson (fst (@main Examples.extract_lib Examples.three_records))))
  /\ NoDup (map doc_id (messages_ndjson (fst (@main Examples.extract_lib Examples.three_records))))
  /\ forall A B,
       next_mid (map doc_id (messages_ndjson (fst (@main Examples.extract_lib Examples.three_records)))) A
       = Some B
       <-> prev_mid (map doc_id (messages_ndjson (fst (@main Examples.extract_lib Examples.three_records)))) B
           = Some A.
Proof.
  apply (@clean_corpus_site_navigation Examples.extract_lib Examples.browse_lib
           Examples.three_records).
  vm_compute. repeat constructor.
Defined.

(** *** Author names *)

Lemma first_name_trimmed ks doc v :
  first_name ks doc = Some v -> v <> EmptyString /\ strip v = v.
Proof.
  induction ks as [| k ks IH]; cbn [first_name]; [discriminate |].
  destruct (get doc k); try exact IH.
  destruct (String.eqb_spec (strip s) EmptyString) as [_ | Hne]; [exact IH |].
  intros [= <-]. split; [exact Hne | apply strip_idem].
Qed.

Lemma author_of_trimmed (d : pydict) :
  author_of d <> EmptyString /\ strip (author_of d) = author_of d.
Proof.
  unfold author_of.
  destruct (String.eqb_spec (_author_name_from_doc d) EmptyString) as [_ | Hne];
    [split; [discriminate | reflexivity] |].
  split; [exact Hne |]. unfold _author_name_from_doc in *.
  destruct (first_name author_keys d) as [v |] eqn:Hv; [apply (first_name_trimmed _ _ _ Hv) |].
  destruct (py_or _ _); try reflexivity.
  destruct (name_before_bracket s); [apply strip_idem | reflexivity].
Qed.

(** X18: the author groups partition the docs.  The names of the groups
    are pairwise distinct; a name has a group exactly when some doc has this
    author name, the group holds these docs in the order of the input, and
    every name is a non-empty text without whitespace at either end. *)
Theorem author_pages_keys (docs : list pydict) :
  NoDup (map fst (authors docs))
  /\ forall an ds,
       (an, ds) ∈ authors docs <->
       an <> EmptyString /\ strip an = an /\ ds = keyed author_of an docs /\ ds <> [].
Proof.
  split; [apply (grouped_lists author_of docs) |].
  intros an ds. unfold authors. rewrite (grouped_entries author_of). split.
  - intros [-> Hne]. 
    destruct (keyed author_of an docs) as [| d ds] eqn:E; [contradiction Hne; reflexivity |].
    assert (Hd : d ∈ keyed author_of an docs) by (rewrite E; apply list_elem_of_here).
    unfold keyed in Hd. apply list_elem_of_In, List.filter_In in Hd as [_ Hd].
    apply String.eqb_eq in Hd. subst an.
    destruct (author_of_trimmed d) as [H1 H2]. auto.
  - intros (_ & _ & H). exact H.
Qed.

(** *** The picked text *)

Lemma rstrip_empty_all p s : rstrip_by p s = EmptyString -> all_chars p s = true.
Proof.
  induction s as [| c s IH]; [reflexivity |].
  cbn [rstrip_by all_chars]. destruct (p c); cbn [andb]; [| discriminate].
  destruct (String.eqb_spec (rstrip_by p s) EmptyString) as [E | _]; [| discriminate].
  intros _. apply IH, E.
Qed.

Lemma lstrip_all p s : all_chars p (lstrip_by p s) = true -> all_chars p s = true.
Proof.
  induction s as [| c s IH]; [reflexivity |].
  cbn [lstrip_by]. destruct (p c) eqn:E; [| trivial].
  cbn [all_chars]. rewrite E. exact IH.
Qed.

Lemma strip_empty_all s : strip s = EmptyString -> all_chars is_space s = true.
Proof. intros H. apply lstrip_all, rstrip_empty_all, H. Qed.

(** A text with a tag in it is more than whitespace. *)
Lemma tag_not_blank s : search re_html_tag s = true -> strip s <> EmptyString.
Proof.
  intros Hs E. apply strip_empty_all in E. revert Hs. 
  induction s as [| c s IH]; [discriminate |].
  cbn [all_chars] in E. apply andb_true_iff in E as [Hc E].
  cbn [search]. 
  assert (Hm : match_len re_html_tag (String c s) = None).
  { unfold match_len, re_html_tag. cbn [run lit].
    destruct (Ascii.eqb_spec "<" c) as [<- | _]; [discriminate Hc | reflexivity]. }
  rewrite Hm. apply IH, E.
Qed.

Section Picked.
Context {Lp : Pages.Lib} {Lb : Browse.Lib}.

Lemma recurse_labelled :
  forall o r, recurse o = Some r -> exists vv, r = labelled vv.
Proof.
  fix IH 1. intros [| b | n | x | s | l | kvs] r; cbn [recurse]; try discriminate.
  - destruct (String.eqb (strip s) EmptyString); [discriminate |].
    intros [= <-]. eauto.
  - induction l as [| v l IHl]; [discriminate |].
    destruct (recurse v) as [r' |] eqn:E; [| exact IHl].
    intros [= <-]. exact (IH v r' E).
  - induction kvs as [| [k v] kvs IHl]; [discriminate |].
    destruct (recurse v) as [r' |] eqn:E; [| exact IHl].
    intros [= <-]. exact (IH v r' E).
Qed.

Lemma pick_text_labelled (doc : pydict) :
  pick_text doc = (None, EmptyString) \/ exists vv, pick_text doc = labelled vv.
Proof.
  unfold pick_text. destruct (first_text priority_keys doc); [eauto |].
  destruct (recurse (PDict doc)) as [r |] eqn:E; [| auto].
  right. destruct (recurse_labelled _ _ E) as (vv & ->). eauto.
Qed.

(** X19: [pick_text] labels a text html exactly when it holds a tag, and
    the renderer then takes the text as the HTML body as it is, before any
    base64 decoding.  When no text is found the content is empty and goes
    on to the MIME-part decoder. *)
Theorem picked_text_with_a_tag_is_raw_html (doc : pydict) :
  match pick_text doc with
  | (Some f, c) =>
      f = (if search re_html_tag c then "html" else "text")
      /\ (search re_html_tag c = true -> body_after_heuristic (Some f) c = BodyHtml c)
  | (None, c) => c = EmptyString /\ body_after_heuristic None c = TryMime EmptyString
  end.
Proof.
  destruct (pick_text_labelled doc) as [-> | (vv & ->)]; [split; reflexivity |].
  unfold labelled. split; [reflexivity |]. intros Ht. rewrite Ht.
  unfold body_after_heuristic. cbn [String.eqb Ascii.eqb Bool.eqb andb].
  destruct (String.eqb_spec (strip vv) EmptyString) as [E | _]; [| reflexivity].
  destruct (tag_not_blank vv Ht E).
Qed.

End Picked.


End PagesFacts.

(** ** The MIME-part decoder *)
Module MimeFacts.
Import Py Re Browse Mime Spec Words.

(** *** How much of a text a match takes *)

Lemma length_drop n s : String.length (drop n s) = (String.length s - n)%nat.
Proof.
  revert s. induction n as [| n IH]; intros [| c s]; cbn [drop String.length]; try lia.
  apply IH.
Qed.

Lemma lit_length eqc p s s' :
  lit eqc p s = Some s' -> (String.length s' + String.length p = String.length s)%nat.
Proof.
  revert s. induction p as [| a p IH]; intros s; cbn [lit].
  - intros [= <-]. cbn. lia.
  - destruct s as [| b s]; [discriminate |]. destruct (eqc a b); [| discriminate].
    intros H. apply IH in H. cbn [String.length]. lia.
Qed.

(** A match leaves a rest that is no longer than the text. *)
Lemma run_length r :
  forall k,
    (forall t x, k t = Some x -> (String.length x <= String.length t)%nat) ->
    forall s x, run r k s = Some x -> (String.length x <= String.length s)%nat.
Proof.
  induction r as [p | l | l | r1 IH1 r2 IH2 | r1 IH1 r2 IH2 | r1 IH1 | p | p | p];
    intros k Hk s x; cbn [run].
  - destruct s as [| c s]; [discriminate |]. destruct (p c); [| discriminate].
    intros H. apply Hk in H. cbn [String.length]. lia.
  - destruct (lit Ascii.eqb l s) as [s' |] eqn:E; [| discriminate].
    intros H. apply Hk in H. apply lit_length in E. lia.
  - destruct (lit eqI l s) as [s' |] eqn:E; [| discriminate].
    intros H. apply Hk in H. apply lit_length in E. lia.
  - apply IH1. intros t y. apply IH2, Hk.
  - destruct (run r1 k s) as [y |] eqn:E.
    + intros [= <-]. apply (IH1 k Hk s y E).
    + apply IH2, Hk.
  - destruct (run r1 k s) as [y |] eqn:E.
    + intros [= <-]. apply (IH1 k Hk s y E).
    + apply Hk.
  - revert x. induction s as [| c s IHs]; intros x; [apply Hk |].
    destruct (p c); [| apply Hk].
    match goal with |- context [match ?g with Some _ => _ | None => _ end] =>
      destruct g as [y |] eqn:E end.
    + intros [= <-]. specialize (IHs y eq_refl). cbn [String.length]. lia.
    + apply Hk.
  - revert x. induction s as [| c s IHs]; intros x.
    + destruct (k EmptyString) as [y |] eqn:E; [| discriminate].
      intros [= <-]. apply (Hk _ _ E).
    + destruct (k (String c s)) as [y |] eqn:E.
      * intros [= <-]. apply (Hk _ _ E).
      * destruct (p c); [| discriminate]. intros H. specialize (IHs x H).
        cbn [String.length]. lia.
  - destruct s as [| c0 s0]; [discriminate |]. destruct (p c0); [| discriminate].
    intros H. cbn [String.length]. enough (String.length x <= String.length s0)%nat by lia.
    revert x H. induction s0 as [| c s IHs]; intros x; [apply Hk |].
    destruct (p c); [| apply Hk].
    match goal with |- context [match ?g with Some _ => _ | None => _ end] =>
      destruct g as [y |] eqn:E end.
    + intros [= <-]. specialize (IHs y eq_refl). cbn [String.length]. lia.
    + apply Hk.
Qed.

Lemma match_len_le r s n : match_len r s = Some n -> (n <= String.length s)%nat.
Proof.
  unfold match_len. destruct (run r Some s); [| discriminate]. intros [= <-]. lia.
Qed.

Lemma search_span_bounds r s a b :
  search_span r s = Some (a, b) -> (a <= b <= String.length s)%nat.
Proof.
  revert a b. induction s as [| c s IH]; intros a b; cbn [search_span].
  - destruct (match_len r EmptyString) as [n |] eqn:E; [| discriminate].
    intros [= <- <-]. apply match_len_le in E. lia.
  - destruct (match_len r (String c s)) as [n |] eqn:E.
    + intros [= <- <-]. apply match_len_le in E. lia.
    + destruct (search_span r s) as [[a' b'] |]; [| discriminate].
      intros [= <- <-]. specialize (IH a' b' eq_refl). cbn [String.length]. lia.
Qed.

Lemma search_span_none r s : search_span r s = None <-> search r s = false.
Proof.
  induction s as [| c s IH]; cbn [search_span search].
  - destruct (match_len r EmptyString); split; congruence.
  - destruct (match_len r (String c s)); [split; congruence |].
    rewrite <- IH. destruct (search_span r s) as [[a b] |]; split; congruence.
Qed.

(** The header pattern never matches the empty text. *)
Lemma match_len_cte s n : match_len re_cte s = Some n -> (1 <= n)%nat.
Proof.
  unfold match_len, re_cte. cbn [run].
  destruct (lit eqI "Content-Transfer-Encoding:" s) as [s' |] eqn:E; [| discriminate].
  apply lit_length in E. cbn [String.length] in E.
  match goal with |- context [match ?g with Some _ => _ | None => _ end] =>
    destruct g as [rest |] eqn:Hr end; [| discriminate].
  intros [= <-].
  assert (String.length rest <= String.length s')%nat; [| lia].
  revert Hr. apply (run_length (Seq (Star is_space) (LitI "base64")) Some).
  intros t x [= <-]. lia.
Qed.

Lemma search_span_cte s a b : search_span re_cte s = Some (a, b) -> (a < b)%nat.
Proof.
  revert a b. induction s as [| c s IH]; intros a b; cbn [search_span].
  - destruct (match_len re_cte EmptyString) as [n |] eqn:E; [| discriminate].
    intros [= <- <-]. apply match_len_cte in E. lia.
  - destruct (match_len re_cte (String c s)) as [n |] eqn:E.
    + intros [= <- <-]. apply match_len_cte in E. lia.
    + destruct (search_span re_cte s) as [[a' b'] |]; [| discriminate].
      intros [= <- <-]. specialize (IH a' b' eq_refl). lia.
Qed.

Section WithLib.
Context {L : Lib}.

(** *** The loop ends *)

(** Every turn of the loop moves [pos] forward, and not beyond the end of
    the text. *)
Lemma mime_part_progress text pos part html pos' :
  (pos <= String.length text)%nat ->
  mime_part text pos = Some (part, html, pos') ->
  (pos < pos' <= String.length text)%nat.
Proof.
  intros Hpos. unfold mime_part.
  destruct (search_span re_cte (drop pos text)) as [[st en] |] eqn:Hm; [| discriminate].
  pose proof (search_span_bounds _ _ _ _ Hm) as Hb. rewrite length_drop in Hb.
  pose proof (search_span_cte _ _ _ Hm) as Hlt.
  cbv zeta.
  set (after_header := (pos + en)%nat).
  set (payload_start := (after_header + _)%nat).
  assert (Hps : (after_header <= payload_start <= String.length text)%nat).
  { subst payload_start.
    destruct (search_span re_blank_line (drop after_header text)) as [[a e] |] eqn:Hd.
    - apply search_span_bounds in Hd. rewrite length_drop in Hd. subst after_header. lia.
    - subst after_header. lia. }
  set (payload_end := match search_span re_boundary (drop payload_start text) with
                      | Some (b_start, _) => (payload_start + b_start)%nat
                      | None => String.length text
                      end).
  assert (Hpe : (payload_start <= payload_end <= String.length text)%nat).
  { subst payload_end.
    destruct (search_span re_boundary (drop payload_start text)) as [[a e] |] eqn:Hd.
    - apply search_span_bounds in Hd. rewrite length_drop in Hd. lia.
    - lia. }
  destruct (b64decode _); intros [= _ _ <-]; subst after_header; lia.
Qed.

Lemma mime_loop_ends (text : string) :
  forall fuel pos parts any_html found,
    (pos <= String.length text)%nat ->
    (String.length text - pos < fuel)%nat ->
    exists parts' any_html' found',
      mime_loop fuel text pos parts any_html found = Some (parts', any_html', found')
      /\ (found' = true <-> found = true \/ mime_part text pos <> None).
Proof.
  induction fuel as [| fuel IH]; intros pos parts any_html found Hpos Hfuel; [lia |].
  cbn [mime_loop]. destruct (mime_part text pos) as [[[part html] pos'] |] eqn:Hp.
  - destruct (mime_part_progress _ _ _ _ _ Hpos Hp) as [H1 H2].
    destruct (IH pos' (parts ++ [part])%list (any_html || html) true H2) as (p & a & f & -> & Hf);
      [lia |].
    exists p, a, f. split; [reflexivity |]. split; [intros _; right; discriminate |].
    intros _. apply Hf. auto.
  - exists parts, any_html, found. split; [reflexivity |]. split; [auto |].
    intros [H | H]; [exact H | contradiction].
Qed.

Lemma mime_part_none text :
  mime_part text O = None <-> search re_cte text = false.
Proof.
  unfold mime_part. rewrite <- search_span_none.
  assert (E : drop 0 text = text) by (destruct text; reflexivity). rewrite E.
  destruct (search_span re_cte text) as [[st en] |]; [| split; reflexivity].
  cbv zeta. destruct (b64decode _); split; discriminate.
Qed.

(** The loop from the start of a text ends within one turn per character
    and one more, and has found a header exactly when the text holds one. *)
Lemma mime_loop_result (t : string) :
  exists parts any_html found,
    mime_loop (S (String.length t)) t O [] false false = Some (parts, any_html, found)
    /\ (found = false <-> search re_cte t = false).
Proof.
  destruct (mime_loop_ends t (S (String.length t)) O [] false false) as (p & a & f & Hl & Hf);
    [lia | lia |].
  exists p, a, f. split; [exact Hl |]. rewrite <- mime_part_none. destruct f.
  - split; [discriminate |]. intros E.
    destruct (proj1 Hf eq_refl) as [H | H]; [discriminate | contradiction].
  - split; [| reflexivity]. intros _.
    destruct (mime_part t O) eqn:E; [| reflexivity].
    assert (false = true) by (apply Hf; right; discriminate). discriminate.
Qed.

(** X21: the MIME-part decoder ends on every text: its loop moves forward
    by at least the length of a header in every turn.  It returns [None]
    exactly when the text holds no Content-Transfer-Encoding: base64 header,
    in whatever case the header is written. *)
Theorem mime_decoder_ends (t : string) :
  exists r,
    _decode_base64_mime (PStr t) = Some r
    /\ (r = None <-> search re_cte t = false).
Proof.
  unfold _decode_base64_mime.
  destruct (mime_loop_result t) as (p & a & f & -> & Hf).
  eexists. split; [reflexivity |]. rewrite <- Hf.
  destruct f; split; congruence.
Qed.

(** X22: the renderer always comes to a body, and a body without markers
    is shown as it is: when the picked text is not taken as HTML, is not
    decoded by the whole-string heuristic and holds no base64 header, the
    text shown is the content itself. *)
Theorem body_without_markers_is_kept (field : option string) (content : string) :
  (exists b, render_body field content = Some b)
  /\ (body_after_heuristic field content = TryMime content ->
      search re_cte content = false ->
      render_body field content = Some (BodyText content)).
Proof.
  unfold render_body, _decode_base64_mime. split.
  - destruct (body_after_heuristic field content) as [h | c | c]; eauto.
    destruct (mime_loop_result c) as (p & a & f & -> & _).
    destruct f, a; eauto.
  - intros -> Hs. destruct (mime_loop_result content) as (p & a & f & -> & Hf).
    rewrite (proj2 Hf Hs). reflexivity.
Qed.

End WithLib.
End MimeFacts.
